(** * Points-table ranking and grouping: a shallow embedding

    The development follows the two React components that carry the
    standings logic of the tournament application:

    - [src/components/admin/PointsTableAdmin.tsx]: [saveEdit],
      [autoCalculatePositions], [autoAssignGroups];
    - the participant-facing [PointsTable] component (its latest revision,
      the one with [displayMode] and [supportsGrouping]): [parseTeamSize],
      the per-group sort that recomputes [position_in_group], and the guard
      that renders nothing for solo tournaments.

    Conventions of the embedding.
    - A JavaScript number that holds a counter, a position or a group count
      is an integer of [Z]; the database columns are [integer] and the edit
      form stores [parseInt(..) || d].  [NaN] is represented only where the
      code can produce it ([parseInt], [index % 0]).
    - [string | null | undefined] is [option string]; [None] stands for both
      [null] and [undefined], which the code never tells apart.
    - A string is held as the bytes of its UTF-8 form.  [trim] and
      [parseInt] strip the white space of the language, inside and
      outside ASCII; [toLowerCase] maps the letters A to Z and leaves the
      bytes of the other characters as they are.
    - A JavaScript object used as a dictionary is the list of its own
      properties in creation order, and [Object.entries] enumerates it the
      way the language prescribes (array-index keys first, ascending).
    - The remote store ([supabase]) is outside the embedding: an operation is
      followed up to the payload it hands to [upsert]/[update]. *)

From Stdlib Require Import List String Ascii ZArith NArith Bool Arith Lia Permutation Sorted.
From Stdlib Require Import Decimal DecimalString DecimalPos.
Import ListNotations.
Local Open Scope string_scope.
Local Open Scope nat_scope.
Local Open Scope list_scope.

(* ================================================================== *)
(** * Part I: definitions                                              *)
(* ================================================================== *)

(** ** The JavaScript built-ins the components rely on *)
Module Js.

Section Arrays.
Context {A B : Type}.

(** [Array.prototype.sort(cmp)].  ECMAScript (2019 and later) requires the
    sort to be stable, and for a consistent comparator the result is then
    unique: the elements in non-decreasing [cmp] order, equal elements in
    their original order.  Insertion from the right computes exactly that
    arrangement: [x], which precedes every element already inserted, is
    stepped over those that must come strictly first ([cmp x y > 0]). *)
Fixpoint insert (cmp : A -> A -> Z) (x : A) (l : list A) : list A :=
  match l with
  | [] => [x]
  | y :: l' => if (cmp x y <=? 0)%Z then x :: l else y :: insert cmp x l'
  end.

Definition sort (cmp : A -> A -> Z) (l : list A) : list A :=
  fold_right (insert cmp) [] l.

(** [arr.map((x, index) => f x index)] and [arr.forEach((x, index) => ..)]
    when each call pushes one element. *)
Fixpoint mapi_from (i : nat) (f : A -> nat -> B) (l : list A) : list B :=
  match l with
  | [] => []
  | x :: l' => f x i :: mapi_from (S i) f l'
  end.

Definition mapi (f : A -> nat -> B) (l : list A) : list B := mapi_from 0 f l.

(** [arr.findIndex(p)]: the first index whose element satisfies [p], or -1. *)
Fixpoint find_index_from (i : nat) (p : A -> bool) (l : list A) : option nat :=
  match l with
  | [] => None
  | x :: l' => if p x then Some i else find_index_from (S i) p l'
  end.

Definition findIndex (p : A -> bool) (l : list A) : Z :=
  match find_index_from 0 p l with
  | Some i => Z.of_nat i
  | None => (-1)%Z
  end.

(** [arr.some(p)]. *)
Definition some (p : A -> bool) (l : list A) : bool := existsb p l.

(** [arr.slice(0, n)] for an integer [n]: a negative end counts from the
    end of the array. *)
Definition slice0 (n : Z) (l : list A) : list A :=
  if (n <? 0)%Z
  then firstn (Z.to_nat (Z.max (Z.of_nat (List.length l) + n) 0)) l
  else firstn (Z.to_nat n) l.
End Arrays.

(** *** Numbers that may be [NaN] *)
Inductive number : Type :=
| Num (z : Z)
| NaN.

(** [a % b] on integers: the sign follows the dividend, and a zero divisor
    gives [NaN]. *)
Definition remainder (a b : Z) : number :=
  if (b =? 0)%Z then NaN else Num (Z.rem a b).

(** [x > 1], [x === k]: every comparison with [NaN] is false. *)
Definition gt (x : number) (k : Z) : bool :=
  match x with Num z => (k <? z)%Z | NaN => false end.


Definition strict_eq (x : number) (k : Z) : bool :=
  match x with Num z => (z =? k)%Z | NaN => false end.

(** [arr[k]] for a number [k]: [undefined] outside the array and for [NaN]. *)
Definition index {A : Type} (l : list A) (k : number) : option A :=
  match k with
  | Num z => if (z <? 0)%Z then None else nth_error l (Z.to_nat z)
  | NaN => None
  end.

(** [x || d] for a number: [0] and [NaN] are falsy. *)
Definition or_default (x : number) (d : Z) : Z :=
  match x with
  | Num z => if (z =? 0)%Z then d else z
  | NaN => d
  end.

(** *** Strings

    A string is the sequence of bytes of its UTF-8 form, which is how a
    text with characters outside ASCII is written in a string of this
    file.  A character is a lead byte followed by the continuation bytes
    it announces; a byte that starts no such sequence is a character by
    itself and stands for the code point of its own number.  Searching
    for an ASCII text and comparing with one give the same answer on the
    bytes as on the UTF-16 code units of JavaScript. *)

Definition is_upper (c : ascii) : bool :=
  let n := nat_of_ascii c in (65 <=? n) && (n <=? 90).

Definition lower_char (c : ascii) : ascii :=
  if is_upper c then ascii_of_nat (nat_of_ascii c + 32) else c.

(** [s.toLowerCase()] on the letters A to Z.  JavaScript maps the cased
    letters outside ASCII as well; their bytes are left as they are
    here.  The only ASCII letters that come out of those are the [k] of
    the Kelvin sign and the [i] of the dotted capital I, the latter with
    a combining dot after it: no digit, sign, white space or size name
    that the parsers look for appears or disappears with them. *)
Fixpoint toLowerCase (s : string) : string :=
  match s with
  | EmptyString => EmptyString
  | String c s' => String (lower_char c) (toLowerCase s')
  end.

Definition is_continuation (c : ascii) : bool :=
  let n := nat_of_ascii c in (128 <=? n) && (n <=? 191).

(** The first [k] bytes of [s] are continuation bytes. *)
Fixpoint continuations (k : nat) (s : string) : bool :=
  match k with
  | O => true
  | S k' =>
      match s with
      | EmptyString => false
      | String c s' => is_continuation c && continuations k' s'
      end
  end.

(** The length a lead byte announces. *)
Definition lead_length (c : ascii) : nat :=
  let n := nat_of_ascii c in
  if (194 <=? n) && (n <=? 223) then 2
  else if (224 <=? n) && (n <=? 239) then 3
  else if (240 <=? n) && (n <=? 244) then 4
  else 1.

(** The number of bytes of the first character of [s]. *)
Definition char_length (s : string) : nat :=
  match s with
  | EmptyString => 0
  | String c s' =>
      if continuations (lead_length c - 1) s' then lead_length c else 1
  end.

(** The code point of the first character of [s]. *)
Definition code_point (s : string) : N :=
  match s with
  | EmptyString => 0%N
  | String a r =>
      match char_length s, r with
      | 2, String b _ =>
          ((N_of_ascii a - 192) * 64 + (N_of_ascii b - 128))%N
      | 3, String b (String c _) =>
          ((N_of_ascii a - 224) * 4096 + (N_of_ascii b - 128) * 64
           + (N_of_ascii c - 128))%N
      | 4, String b (String c (String d _)) =>
          ((N_of_ascii a - 240) * 262144 + (N_of_ascii b - 128) * 4096
           + (N_of_ascii c - 128) * 64 + (N_of_ascii d - 128))%N
      | _, _ => N_of_ascii a
      end
  end.

(** The white space of the language, [WhiteSpace] and [LineTerminator]:
    U+0009 to U+000D, U+0020, U+00A0, U+1680, U+2000 to U+200A, U+2028,
    U+2029, U+202F, U+205F, U+3000 and U+FEFF.  [trim] strips these code
    points and [parseInt] skips them. *)
Definition white_space : list N :=
  [ 9; 10; 11; 12; 13; 32; 160; 5760;
    8192; 8193; 8194; 8195; 8196; 8197; 8198; 8199; 8200; 8201; 8202;
    8232; 8233; 8239; 8287; 12288; 65279 ]%N.

Definition is_space (cp : N) : bool := existsb (N.eqb cp) white_space.

(** An ASCII byte that is not white space; used to state what trimming
    leaves alone. *)
Definition plain_byte (c : ascii) : bool :=
  (nat_of_ascii c <? 128) && negb (is_space (N_of_ascii c)).

(** [s] starts with a white-space character. *)
Definition starts_with_space (s : string) : bool :=
  match s with
  | EmptyString => false
  | String _ _ => is_space (code_point s)
  end.

(** [s.trimStart()].  [skip] counts the bytes still to drop of the
    white-space character being removed. *)
Fixpoint trimStart_from (skip : nat) (s : string) : string :=
  match s with
  | EmptyString => EmptyString
  | String _ s' =>
      match skip with
      | S k => trimStart_from k s'
      | O =>
          if starts_with_space s
          then trimStart_from (char_length s - 1) s'
          else s
      end
  end.

Definition trimStart (s : string) : string := trimStart_from 0 s.

(** [s] holds white space only. *)
Definition all_space (s : string) : bool :=
  match trimStart s with
  | EmptyString => true
  | String _ _ => false
  end.

(** [s.trimEnd()]: the characters of [s] up to the last one that is not
    white space.  [skip] counts the bytes still to copy of the character
    being kept. *)
Fixpoint trimEnd_from (skip : nat) (s : string) : string :=
  match s with
  | EmptyString => EmptyString
  | String c s' =>
      match skip with
      | S k => String c (trimEnd_from k s')
      | O =>
          if all_space s then EmptyString
          else String c (trimEnd_from (char_length s - 1) s')
      end
  end.

Definition trimEnd (s : string) : string := trimEnd_from 0 s.

Definition trim (s : string) : string := trimEnd (trimStart s).

(** [s.includes(sub)]. *)
Fixpoint includes (s sub : string) : bool :=
  String.prefix sub s ||
  match s with
  | EmptyString => false
  | String _ s' => includes s' sub
  end.

(** The value of a digit in the given radix, if it is one. *)
Definition digit_value (radix : Z) (c : ascii) : option Z :=
  let n := Z.of_nat (nat_of_ascii c) in
  let v := if ((48 <=? n) && (n <=? 57))%Z then Some (n - 48)%Z
           else if ((97 <=? n) && (n <=? 122))%Z then Some (n - 87)%Z
           else if ((65 <=? n) && (n <=? 90))%Z then Some (n - 55)%Z
           else None in
  match v with
  | Some d => if (d <? radix)%Z then Some d else None
  | None => None
  end.

(** The longest prefix of digits, read in [radix]; [None] when it is empty. *)
Fixpoint read_digits (radix : Z) (acc : option Z) (s : string) : option Z :=
  match s with
  | EmptyString => acc
  | String c s' =>
      match digit_value radix c with
      | Some d =>
          read_digits radix
            (Some (match acc with Some a => a * radix + d | None => d end)%Z) s'
      | None => acc
      end
  end.

Definition strip_hex_prefix (s : string) : option string :=
  match s with
  | String "0" (String "x" s') => Some s'
  | String "0" (String "X" s') => Some s'
  | _ => None
  end.

(** [parseInt(s)] without a radix argument: leading white space, an optional
    sign, an optional [0x] prefix that selects radix 16, then the longest
    run of digits; [NaN] when there is no digit.  The result is the value
    of the digits read.  JavaScript hands back the double nearest to that
    value ([Infinity] past the largest one), which is the value itself up
    to [2^53] in magnitude, so for everything an [integer] column or a
    team size holds; beyond that the tests the components make on the
    result (against 0, 1, 4 and 5, and for [NaN]) still give the same
    answer on the value as on the double. *)
Definition parseInt (s : string) : number :=
  let s1 := trimStart s in
  let '(sign, s2) :=
    match s1 with
    | String "-" r => ((-1)%Z, r)
    | String "+" r => (1%Z, r)
    | _ => (1%Z, s1)
    end in
  let '(radix, s3) :=
    match strip_hex_prefix s2 with
    | Some r => (16%Z, r)
    | None => (10%Z, s2)
    end in
  match read_digits radix None s3 with
  | Some v => Num (sign * v)
  | None => NaN
  end.

Definition is_digit (c : ascii) : bool :=
  let n := nat_of_ascii c in (48 <=? n) && (n <=? 57).


(** *** Objects used as dictionaries *)

(** The own properties of an object, in creation order. *)
Definition object (V : Type) : Type := list (string * V).

(** The properties every object literal inherits from [Object.prototype];
    each of them is a function or an object, hence truthy, and none of them
    has a [push] method. *)
Definition prototype_keys : list string :=
  [ "constructor"; "__defineGetter__"; "__defineSetter__"; "hasOwnProperty";
    "__lookupGetter__"; "__lookupSetter__"; "isPrototypeOf";
    "propertyIsEnumerable"; "toString"; "valueOf"; "__proto__";
    "toLocaleString" ].

Definition inherited (k : string) : bool :=
  existsb (String.eqb k) prototype_keys.

Section Objects.
Context {V : Type}.

Fixpoint get_own (k : string) (o : object V) : option V :=
  match o with
  | [] => None
  | (k', v) :: o' => if String.eqb k k' then Some v else get_own k o'
  end.

(** Assignment to an existing own property keeps its place. *)
Fixpoint set_own (k : string) (v : V) (o : object V) : object V :=
  match o with
  | [] => [(k, v)]
  | (k', v') :: o' =>
      if String.eqb k k' then (k, v) :: o' else (k', v') :: set_own k v o'
  end.

(** A key is an array index when it is the canonical decimal form of an
    integer below [2^32 - 1]. *)
Definition array_index (k : string) : option Z :=
  match k with
  | EmptyString => None
  | String c r =>
      if forallb (fun d => match digit_value 10 d with Some _ => true | None => false end)
           (list_ascii_of_string k)
         && (negb (Ascii.eqb c "0") || String.eqb r EmptyString)
      then match read_digits 10 None k with
           | Some n => if (n <? 4294967295)%Z then Some n else None
           | None => None
           end
      else None
  end.

Definition is_array_index (kv : string * V) : bool :=
  match array_index (fst kv) with Some _ => true | None => false end.

Definition index_order (a b : string * V) : Z :=
  match array_index (fst a), array_index (fst b) with
  | Some m, Some n => (m - n)%Z
  | _, _ => 0%Z
  end.

(** [Object.entries(o)]: array-index keys in ascending numeric order, then
    the other keys in creation order. *)
Definition entries (o : object V) : list (string * V) :=
  sort index_order (filter is_array_index o)
    ++ filter (fun kv => negb (is_array_index kv)) o.

Definition keys (o : object V) : list string := map fst (entries o).
End Objects.

(** [arr.reduce(f, init)] for a callback that may throw: the exception
    ([None]) leaves the loop at once. *)
Fixpoint reduce {S A : Type} (f : S -> A -> option S) (l : list A) (acc : S)
  : option S :=
  match l with
  | [] => Some acc
  | x :: l' =>
      match f acc x with
      | Some acc' => reduce f l' acc'
      | None => None
      end
  end.

(** The values a loosely typed ([any]) column can hold. *)
Inductive value : Type :=
| Undefined
| Null
| Boolean (b : bool)
| Number (n : number)
| Str (s : string).

End Js.

(** ** The grouping reducer shared by both components

    [[
      (acc, entry) => {
        const groupName = entry.group_name || 'Ungrouped';
        if (!acc[groupName]) acc[groupName] = [];
        acc[groupName].push(entry);
        return acc;
      }
    ]]
    [acc] starts as the literal [{}], so [acc[groupName]] also sees what
    [Object.prototype] provides: for such a name the test finds a truthy
    value, nothing is assigned, and [.push] is not a function; the call
    throws a [TypeError]. *)
Module Grouping.
Section Reducer.
Context {E : Type} (group_name : E -> option string).

(** [entry.group_name || 'Ungrouped']: [null], [undefined] and the empty
    string are falsy. *)
Definition group_key (entry : E) : string :=
  match group_name entry with
  | Some s => if String.eqb s "" then "Ungrouped" else s
  | None => "Ungrouped"
  end.

Definition push_entry (acc : Js.object (list E)) (entry : E)
  : option (Js.object (list E)) :=
  let groupName := group_key entry in
  match Js.get_own groupName acc with
  | Some es => Some (Js.set_own groupName (es ++ [entry]) acc)
  | None =>
      if Js.inherited groupName then None
      else Some (Js.set_own groupName [entry] acc)
  end.

Definition group_entries (l : list E) : option (Js.object (list E)) :=
  Js.reduce push_entry l [].

(** Membership of an entry in the group named [k]. *)
Definition in_group (k : string) (entry : E) : bool :=
  String.eqb (group_key entry) k.

Definition nonempty (l : list E) : option (list E) :=
  match l with [] => None | _ => Some l end.

(** What [acc] holds once the entries of [pre] have been pushed: one own
    property per group that occurs, its value the members of that group
    in the order of [pre]; no key shadows an inherited name. *)
Definition groups_of (pre : list E) (acc : Js.object (list E)) : Prop :=
  NoDup (map fst acc)
  /\ (forall k, Js.get_own k acc = nonempty (filter (in_group k) pre))
  /\ Permutation (flat_map snd acc) pre
  /\ (forall k, In k (map fst acc) -> Js.inherited k = false).
End Reducer.
End Grouping.

(** ** [PointsTableAdmin.tsx] *)
Module Admin.

Record PointsTableEntry : Type := {
  id : string;
  tournament_id : string;
  team_id : string;
  team_name : string;
  points : Z;
  position : Z;
  kills : Z;
  wins : Z;
  group_name : option string;
  position_in_group : option Z;
  created_at : string;
  updated_at : string
}.

(** A row of the payload handed to [upsert].  The two branches of
    [autoCalculatePositions] and [autoAssignGroups] build objects with
    different key sets: an absent key is [None]. *)
Record Update : Type := {
  u_id : string;
  u_tournament_id : string;
  u_team_id : string;
  u_team_name : string;
  u_points : Z;
  u_kills : Z;
  u_wins : Z;
  u_group_name : option (option string);
  u_position : Z;
  u_position_in_group : option Z
}.

(** How a handler ends: the guard at its top returned, the body of [try]
    threw before anything was sent (the [catch] block reports a failure),
    or a payload reached [upsert]. *)
Inductive Outcome : Type :=
| Returned
| Threw
| Upserted (updates : list Update).

(** The comparator of both branches of [autoCalculatePositions]:
    [[
      (a, b) => {
        if (b.points !== a.points) return b.points - a.points;
        return b.kills - a.kills;
      }
    ]] *)
Definition byPointsThenKills (a b : PointsTableEntry) : Z :=
  if negb (points b =? points a)%Z then (points b - points a)%Z
  else (kills b - kills a)%Z.

Definition group_key : PointsTableEntry -> string :=
  Grouping.group_key group_name.

(** The object pushed for [entry] in the grouped branch. *)
Definition grouped_update (sortedEntries : list PointsTableEntry)
    (entry : PointsTableEntry) (index : nat) : Update :=
  let overallIndex :=
    Js.findIndex (fun e => String.eqb (id e) (id entry)) sortedEntries in
  {| u_id := id entry;
     u_tournament_id := tournament_id entry;
     u_team_id := team_id entry;
     u_team_name := team_name entry;
     u_points := points entry;
     u_kills := kills entry;
     u_wins := wins entry;
     u_group_name := Some (group_name entry);
     u_position := (overallIndex + 1)%Z;
     u_position_in_group := Some (Z.of_nat index + 1)%Z |}.

(** The object built for [entry] in the other branch. *)
Definition ungrouped_update (entry : PointsTableEntry) (index : nat) : Update :=
  {| u_id := id entry;
     u_tournament_id := tournament_id entry;
     u_team_id := team_id entry;
     u_team_name := team_name entry;
     u_points := points entry;
     u_kills := kills entry;
     u_wins := wins entry;
     u_group_name := None;
     u_position := (Z.of_nat index + 1)%Z;
     u_position_in_group := None |}.

(** [Object.entries(groupedEntries).forEach(([groupName, entries]) =>
      entries.forEach((entry, index) => updates.push({..})))]. *)
Definition grouped_updates (sortedEntries : list PointsTableEntry)
    (groupedEntries : Js.object (list PointsTableEntry)) : list Update :=
  flat_map (fun ge => Js.mapi (grouped_update sortedEntries) (snd ge))
           (Js.entries groupedEntries).

Definition autoCalculatePositions (supportsGrouping : bool)
    (selectedTournament : string) (pointsEntries : list PointsTableEntry)
  : Outcome :=
  if String.eqb selectedTournament "" || (List.length pointsEntries =? 0)
  then Returned
  else if supportsGrouping then
    let sortedEntries := Js.sort byPointsThenKills pointsEntries in
    match Grouping.group_entries group_name sortedEntries with
    | None => Threw
    | Some groupedEntries =>
        Upserted (grouped_updates sortedEntries groupedEntries)
    end
  else
    let sortedEntries := Js.sort byPointsThenKills pointsEntries in
    Upserted (Js.mapi ungrouped_update sortedEntries).

(** *** [autoAssignGroups] *)

Definition group_letters : list string :=
  ["A"; "B"; "C"; "D"; "E"; "F"; "G"; "H"].

(** [`Group ${groups[index % numberOfGroups]}`]; a missing element prints
    as [undefined]. *)
Definition group_label (numberOfGroups : Z) (index : nat) : string :=
  let groups := Js.slice0 numberOfGroups group_letters in
  String.append "Group "
    match Js.index groups (Js.remainder (Z.of_nat index) numberOfGroups) with
    | Some g => g
    | None => "undefined"
    end.

Definition set_group_name (g : option string) (entry : PointsTableEntry)
  : PointsTableEntry :=
  {| id := id entry;
     tournament_id := tournament_id entry;
     team_id := team_id entry;
     team_name := team_name entry;
     points := points entry;
     position := position entry;
     kills := kills entry;
     wins := wins entry;
     group_name := g;
     position_in_group := position_in_group entry;
     created_at := created_at entry;
     updated_at := updated_at entry |}.

(** The constant [updates] of [autoAssignGroups], which also becomes the
    new local state. *)
Definition assigned_entries (numberOfGroups : Z)
    (pointsEntries : list PointsTableEntry) : list PointsTableEntry :=
  Js.mapi (fun entry index =>
             set_group_name (Some (group_label numberOfGroups index)) entry)
          pointsEntries.

Definition assign_update (entry : PointsTableEntry) : Update :=
  {| u_id := id entry;
     u_tournament_id := tournament_id entry;
     u_team_id := team_id entry;
     u_team_name := team_name entry;
     u_points := points entry;
     u_kills := kills entry;
     u_wins := wins entry;
     u_group_name := Some (group_name entry);
     u_position := position entry;
     u_position_in_group := None |}.

Definition autoAssignGroups (numberOfGroups : Z)
    (selectedTournament : string) (pointsEntries : list PointsTableEntry)
  : Outcome :=
  if String.eqb selectedTournament "" || (List.length pointsEntries =? 0)
  then Returned
  else Upserted (map assign_update
                   (assigned_entries numberOfGroups pointsEntries)).

(** The [onChange] handler of the group-count input:
    [setNumberOfGroups(parseInt(e.target.value) || 4)]. *)
Definition onChange_numberOfGroups (value : string) : Z :=
  Js.or_default (Js.parseInt value) 4.

(** *** [saveEdit] *)

Record EditForm : Type := {
  f_points : string;
  f_kills : string;
  f_wins : string;
  f_position : string;
  f_group_name : string
}.

(** [updateData]: [group_name] is present only when grouping is supported. *)
Record UpdateData : Type := {
  d_points : Z;
  d_kills : Z;
  d_wins : Z;
  d_position : Z;
  d_group_name : option (option string)
}.

(** [editForm.group_name || null]. *)
Definition or_null (s : string) : option string :=
  if String.eqb s "" then None else Some s.

Definition saveEdit_updateData (supportsGrouping : bool) (editForm : EditForm)
  : UpdateData :=
  {| d_points := Js.or_default (Js.parseInt (f_points editForm)) 0;
     d_kills := Js.or_default (Js.parseInt (f_kills editForm)) 0;
     d_wins := Js.or_default (Js.parseInt (f_wins editForm)) 0;
     d_position := Js.or_default (Js.parseInt (f_position editForm)) 1;
     d_group_name :=
       if supportsGrouping then Some (or_null (f_group_name editForm))
       else None |}.

(** The local state after a successful [update]; [now] is
    [new Date().toISOString()]. *)
Definition saveEdit_entries (supportsGrouping : bool) (editForm : EditForm)
    (now : string) (entryId : string) (prev : list PointsTableEntry)
  : list PointsTableEntry :=
  map (fun entry =>
         if String.eqb (id entry) entryId then
           {| id := id entry;
              tournament_id := tournament_id entry;
              team_id := team_id entry;
              team_name := team_name entry;
              points := Js.or_default (Js.parseInt (f_points editForm)) 0;
              position := Js.or_default (Js.parseInt (f_position editForm)) 1;
              kills := Js.or_default (Js.parseInt (f_kills editForm)) 0;
              wins := Js.or_default (Js.parseInt (f_wins editForm)) 0;
              group_name :=
                if supportsGrouping then or_null (f_group_name editForm)
                else group_name entry;
              position_in_group := position_in_group entry;
              created_at := created_at entry;
              updated_at := now |}
         else entry)
      prev.

(** *** Notions used to state the properties *)

(** The group a payload row falls in: its [group_name] under the defaulting
    of the reducer (a row without the key counts as unlabelled). *)
Definition update_key (u : Update) : string :=
  Grouping.group_key
    (fun u => match u_group_name u with Some g => g | None => None end) u.

(** Everything a payload row carries besides the two positions. *)
Definition update_frame (u : Update)
  : string * string * string * string * Z * Z * Z * option (option string) :=
  (u_id u, u_tournament_id u, u_team_id u, u_team_name u,
   u_points u, u_kills u, u_wins u, u_group_name u).

(** The same fields read off a stored entry; the ungrouped branch does not
    put [group_name] in the payload. *)
Definition entry_frame (supportsGrouping : bool) (entry : PointsTableEntry)
  : string * string * string * string * Z * Z * Z * option (option string) :=
  (id entry, tournament_id entry, team_id entry, team_name entry,
   points entry, kills entry, wins entry,
   if supportsGrouping then Some (group_name entry) else None).

(** The snapshot in which the record with id [rid] carries the label [g]
    and nothing else differs. *)
Definition regroup (rid : string) (g : option string)
    (pointsEntries : list PointsTableEntry) : list PointsTableEntry :=
  map (fun entry =>
         if String.eqb (id entry) rid then set_group_name g entry else entry)
      pointsEntries.

(** A row's id with its overall position, and with its position in group. *)
Definition id_position (u : Update) : string * Z := (u_id u, u_position u).

Definition id_position_in_group (u : Update) : string * option Z :=
  (u_id u, u_position_in_group u).

(** The rows an outcome sent, if any. *)
Definition payload (o : Outcome) : list Update :=
  match o with
  | Upserted updates => updates
  | Returned | Threw => []
  end.

(** No label of the snapshot is a name inherited by object literals. *)
Definition labels_ok (pointsEntries : list PointsTableEntry) : Prop :=
  Forall (fun entry => Js.inherited (group_key entry) = false) pointsEntries.

End Admin.

(** ** The participant-facing [PointsTable] component *)
Module Display.

Record PointsEntry : Type := {
  id : string;
  team_name : string;
  points : Z;
  position : Z;
  kills : Z;
  wins : Z;
  group_name : option string;
  position_in_group : option Z
}.

(** [parseTeamSize], the same text in both revisions of the component:
    [[
      if (typeof size === 'number') return size;
      if (!size) return 1;
      const sizeStr = String(size).toLowerCase().trim();
      if (sizeStr.includes('duo') || sizeStr === '2') return 2;
      if (sizeStr.includes('squad') || sizeStr === '4') return 4;
      if (sizeStr.includes('5') || sizeStr.includes('five')) return 5;
      const num = parseInt(sizeStr);
      return isNaN(num) ? 1 : num;
    ]] *)
Definition parse_size_string (s : string) : Js.number :=
  let sizeStr := Js.trim (Js.toLowerCase s) in
  if Js.includes sizeStr "duo" || String.eqb sizeStr "2" then Js.Num 2
  else if Js.includes sizeStr "squad" || String.eqb sizeStr "4" then Js.Num 4
  else if Js.includes sizeStr "5" || Js.includes sizeStr "five" then Js.Num 5
  else
    match Js.parseInt sizeStr with
    | Js.NaN => Js.Num 1
    | Js.Num num => Js.Num num
    end.



Definition parseTeamSize (size : Js.value) : Js.number :=
  match size with
  | Js.Number n => n
  | Js.Undefined | Js.Null | Js.Boolean false => Js.Num 1
  | Js.Boolean true => parse_size_string "true"
  | Js.Str s => if String.eqb s "" then Js.Num 1 else parse_size_string s
  end.

(** The comparator of the per-group sort:
    [[
      (a, b) => {
        if (b.points !== a.points) return b.points - a.points;
        if (b.kills !== a.kills) return b.kills - a.kills;
        return b.wins - a.wins;
      }
    ]] *)
Definition byPointsKillsWins (a b : PointsEntry) : Z :=
  if negb (points b =? points a)%Z then (points b - points a)%Z
  else if negb (kills b =? kills a)%Z then (kills b - kills a)%Z
  else (wins b - wins a)%Z.

Definition group_key : PointsEntry -> string :=
  Grouping.group_key group_name.

(** [entry.position_in_group = index + 1]. *)
Definition set_position_in_group (entry : PointsEntry) (index : nat)
  : PointsEntry :=
  {| id := id entry;
     team_name := team_name entry;
     points := points entry;
     position := position entry;
     kills := kills entry;
     wins := wins entry;
     group_name := group_name entry;
     position_in_group := Some (Z.of_nat index + 1)%Z |}.

(** [groupedEntries] after the loop that sorts every group in place and
    numbers its members.  Sorting the value of a property does not move
    the property. *)
Definition groupedEntries (supportsGrouping : bool)
    (pointsEntries : list PointsEntry)
  : option (Js.object (list PointsEntry)) :=
  if supportsGrouping then
    match Grouping.group_entries group_name pointsEntries with
    | None => None
    | Some acc =>
        Some (map (fun ge =>
                     (fst ge,
                      Js.mapi set_position_in_group
                        (Js.sort byPointsKillsWins (snd ge))))
                  acc)
    end
  else Some [].

Inductive DisplayMode : Type := grouped | ungrouped.

(** A table row as it is drawn: rank, team name and the three counters. *)
Record Row : Type := {
  r_rank : Z;
  r_team_name : string;
  r_points : Z;
  r_kills : Z;
  r_wins : Z
}.

(** [entry.position_in_group || 1]. *)
Definition groupPosition (entry : PointsEntry) : Z :=
  match position_in_group entry with
  | Some z => if (z =? 0)%Z then 1%Z else z
  | None => 1%Z
  end.

Definition group_row (entry : PointsEntry) : Row :=
  {| r_rank := groupPosition entry;
     r_team_name := team_name entry;
     r_points := points entry;
     r_kills := kills entry;
     r_wins := wins entry |}.

Definition table_row (entry : PointsEntry) : Row :=
  {| r_rank := position entry;
     r_team_name := team_name entry;
     r_points := points entry;
     r_kills := kills entry;
     r_wins := wins entry |}.

(** Truthiness of [entry.group_name]. *)
Definition truthy_name (g : option string) : bool :=
  match g with
  | Some s => negb (String.eqb s "")
  | None => false
  end.

(** What one render pass returns. *)
Inductive Rendered : Type :=
| Nothing
| LoadingCard
| EmptyCard
| RenderError
| GroupTables (groups : list (string * list Row))
| SingleTable (rows : list Row).

Section Render.
(** [a.localeCompare(b)] depends on the collation of the host. *)
Variable localeCompare : string -> string -> Z.

Definition render (teamSize : Js.value) (loading : bool)
    (pointsEntries : list PointsEntry) (displayMode : DisplayMode)
  : Rendered :=
  let teamSizeNum := parseTeamSize teamSize in
  let isTeamTournament := Js.gt teamSizeNum 1 in
  let is5ManTournament := Js.strict_eq teamSizeNum 5 in
  let isSquadTournament := Js.strict_eq teamSizeNum 4 in
  let supportsGrouping := is5ManTournament || isSquadTournament in
  if negb isTeamTournament then Nothing
  else if loading then LoadingCard
  else if List.length pointsEntries =? 0 then EmptyCard
  else
    match groupedEntries supportsGrouping pointsEntries with
    | None => RenderError
    | Some ge =>
        let hasGroups :=
          supportsGrouping && (0 <? List.length (Js.keys ge))
          && Js.some (fun entry => truthy_name (group_name entry))
                     pointsEntries in
        if hasGroups && match displayMode with grouped => true | ungrouped => false end
        then GroupTables
               (map (fun ge => (fst ge, map group_row (snd ge)))
                    (Js.sort (fun a b => localeCompare (fst a) (fst b))
                             (Js.entries ge)))
        else SingleTable (map table_row pointsEntries)
    end.
End Render.

End Display.


(** ** The table behind the admin panel

    What the store holds after [upsert(updates)] and what
    [loadPointsTable] reads back.  The [BEFORE UPDATE] trigger of the
    table refreshes [updated_at]; [now] stands for its clock. *)
Module AdminStore.
Import Admin.

(** The row of [entry] once the payload row [u] with the same id has been
    written over it: the columns named in [u] take its values. *)
Definition upserted_row (now : string) (u : Update) (entry : PointsTableEntry)
  : PointsTableEntry :=
  {| id := u_id u;
     tournament_id := u_tournament_id u;
     team_id := u_team_id u;
     team_name := u_team_name u;
     points := u_points u;
     position := u_position u;
     kills := u_kills u;
     wins := u_wins u;
     group_name :=
       match u_group_name u with
       | Some g => g
       | None => group_name entry
       end;
     position_in_group :=
       match u_position_in_group u with
       | Some p => Some p
       | None => position_in_group entry
       end;
     created_at := created_at entry;
     updated_at := now |}.

Definition stored (now : string) (updates : list Update)
    (entry : PointsTableEntry) : PointsTableEntry :=
  match find (fun u => String.eqb (u_id u) (id entry)) updates with
  | Some u => upserted_row now u entry
  | None => entry
  end.

Definition table_after_upsert (now : string) (updates : list Update)
    (rows : list PointsTableEntry) : list PointsTableEntry :=
  map (stored now updates) rows.

(** [.order('position', { ascending: true })].  Rows with equal positions
    come in an order SQL does not fix; the embedding keeps them in table
    order. *)
Definition byPosition (a b : PointsTableEntry) : Z :=
  (position a - position b)%Z.

Definition read_ordered (rows : list PointsTableEntry)
  : list PointsTableEntry :=
  Js.sort byPosition rows.

End AdminStore.

(** ** Printing integers *)
Module JsText.

(** [n.toString()] and [String(n)] for an integer [n]: plain decimal
    digits with a leading minus sign, which is what JavaScript prints for
    every integer it represents exactly (magnitude up to [2^53]). *)
Definition toString (n : Z) : string :=
  NilZero.string_of_int (Z.to_int n).

(** [Number.isSafeInteger(n)]. *)
Definition safe_integer (n : Z) : Prop := (Z.abs n < 2 ^ 53)%Z.

(** [String(x)] for a number that may be [NaN]. *)
Definition number_toString (x : Js.number) : string :=
  match x with
  | Js.Num z => toString z
  | Js.NaN => "NaN"
  end.

End JsText.

(** ** [PointsTableAdmin.tsx]: opening and closing the row editor *)
Module AdminEdit.
Import Admin.

(** [startEdit(entry)]: the form shows the stored values;
    [entry.group_name || ''] for the label. *)
Definition startEdit (entry : PointsTableEntry) : EditForm :=
  {| f_points := JsText.toString (points entry);
     f_kills := JsText.toString (kills entry);
     f_wins := JsText.toString (wins entry);
     f_position := JsText.toString (position entry);
     f_group_name :=
       match group_name entry with
       | Some s => s
       | None => ""
       end |}.

(** [cancelEdit()] clears the form. *)
Definition cancelEdit : EditForm :=
  {| f_points := ""; f_kills := ""; f_wins := ""; f_position := "";
     f_group_name := "" |}.

(** The entry that [saveEdit] puts in the place of [entry]. *)
Definition edited (supportsGrouping : bool) (editForm : EditForm)
    (now : string) (entry : PointsTableEntry) : PointsTableEntry :=
  {| id := id entry;
     tournament_id := tournament_id entry;
     team_id := team_id entry;
     team_name := team_name entry;
     points := d_points (saveEdit_updateData supportsGrouping editForm);
     position := d_position (saveEdit_updateData supportsGrouping editForm);
     kills := d_kills (saveEdit_updateData supportsGrouping editForm);
     wins := d_wins (saveEdit_updateData supportsGrouping editForm);
     group_name :=
       match d_group_name (saveEdit_updateData supportsGrouping editForm) with
       | Some g => g
       | None => group_name entry
       end;
     position_in_group := position_in_group entry;
     created_at := created_at entry;
     updated_at := now |}.

(** [entry] with a fresh [updated_at] and nothing else changed. *)
Definition touched (now : string) (entry : PointsTableEntry)
  : PointsTableEntry :=
  {| id := id entry;
     tournament_id := tournament_id entry;
     team_id := team_id entry;
     team_name := team_name entry;
     points := points entry;
     position := position entry;
     kills := kills entry;
     wins := wins entry;
     group_name := group_name entry;
     position_in_group := position_in_group entry;
     created_at := created_at entry;
     updated_at := now |}.

End AdminEdit.

(** ** [PointsTableAdmin.tsx]: [manuallyAssignTeamToGroup] *)
Module AdminManual.
Import Admin.

(** How the handler ends: the guard at its top reports a missing
    selection; [find] comes back empty and the body throws; or one
    [update({ group_name }).eq('id', entry.id)] is sent and the local
    state is replaced. *)
Inductive ManualOutcome : Type :=
| SelectionMissing
| TeamNotFound
| GroupUpdated (entryId : string) (groupName : string)
               (entries : list PointsTableEntry).

Definition manuallyAssignTeamToGroup (selectedTeamForGroup : string)
    (selectedGroupForTeam : string) (pointsEntries : list PointsTableEntry)
  : ManualOutcome :=
  if String.eqb selectedTeamForGroup "" || String.eqb selectedGroupForTeam ""
  then SelectionMissing
  else
    match find (fun e => String.eqb (team_id e) selectedTeamForGroup)
               pointsEntries with
    | None => TeamNotFound
    | Some entry =>
        GroupUpdated (id entry) selectedGroupForTeam
          (map (fun e =>
                  if String.eqb (team_id e) selectedTeamForGroup
                  then set_group_name (Some selectedGroupForTeam) e
                  else e)
               pointsEntries)
    end.

End AdminManual.

(** ** [PointsTableAdmin.tsx]: [loadPointsTable] *)
Module AdminLoad.
Import Admin.

(** A row of [tournament_teams] as selected ([id, team_name]). *)
Record Team : Type := {
  t_id : string;
  t_team_name : string
}.

(** A row of the insert payload for a team without standings. *)
Record NewPointsEntry : Type := {
  n_tournament_id : string;
  n_team_id : string;
  n_team_name : string;
  n_points : Z;
  n_kills : Z;
  n_wins : Z;
  n_position : Z
}.

(** [pointsMap.has(k)] for
    [new Map(existingPoints?.map(p => [p.team_id, p]) || [])]. *)
Definition pointsMap_has (existingPoints : option (list PointsTableEntry))
    (k : string) : bool :=
  match existingPoints with
  | Some ps => existsb (fun p => String.eqb (team_id p) k) ps
  | None => false
  end.

Definition teamsNeedingPoints (teams : list Team)
    (existingPoints : option (list PointsTableEntry)) : list Team :=
  filter (fun team => negb (pointsMap_has existingPoints (t_id team))) teams.

(** [existingPoints?.length || 0]. *)
Definition existing_length (existingPoints : option (list PointsTableEntry))
  : Z :=
  match existingPoints with
  | Some ps => Z.of_nat (List.length ps)
  | None => 0%Z
  end.

Definition newPointsEntries (selectedTournament : string) (teams : list Team)
    (existingPoints : option (list PointsTableEntry)) : list NewPointsEntry :=
  Js.mapi (fun team idx =>
             {| n_tournament_id := selectedTournament;
                n_team_id := t_id team;
                n_team_name := t_team_name team;
                n_points := 0;
                n_kills := 0;
                n_wins := 0;
                n_position :=
                  (existing_length existingPoints + Z.of_nat idx + 1)%Z |})
          (teamsNeedingPoints teams existingPoints).

(** What one pass of [loadPointsTable] does with the two result sets it
    fetched ([None] is a [null] result): nothing without a selected
    tournament; an empty table when there are no teams; an insert of the
    missing rows, after which the table is fetched again; or the fetched
    rows as they are. *)
Inductive LoadStep : Type :=
| NothingSelected
| NoTeams
| InsertMissing (rows : list NewPointsEntry)
| ShowExisting (entries : list PointsTableEntry).

Definition loadPointsTable (selectedTournament : string)
    (teams : option (list Team))
    (existingPoints : option (list PointsTableEntry)) : LoadStep :=
  if String.eqb selectedTournament "" then NothingSelected
  else
    match teams with
    | None | Some [] => NoTeams
    | Some ts =>
        if 0 <? List.length (teamsNeedingPoints ts existingPoints)
        then InsertMissing (newPointsEntries selectedTournament ts existingPoints)
        else ShowExisting (match existingPoints with
                           | Some ps => ps
                           | None => []
                           end)
    end.

(** The teams that have a row among the fetched ones. *)
Definition existing_team_ids (existingPoints : option (list PointsTableEntry))
  : list string :=
  match existingPoints with
  | Some ps => map team_id ps
  | None => []
  end.

End AdminLoad.

(** ** Concrete snapshots used in the examples *)
(** ** [PointsTableAdmin.tsx]: which tournaments are listed and grouped *)
Module AdminKind.

(** A tournament as the panel reads it: its [id] and its [team_size],
    which comes untyped. *)
Record Tournament : Type := {
  id : string;
  team_size : Js.value
}.

(** [!v]. *)
Definition falsy (v : Js.value) : bool :=
  match v with
  | Js.Undefined | Js.Null | Js.Boolean false | Js.Number Js.NaN => true
  | Js.Boolean true => false
  | Js.Number (Js.Num z) => (z =? 0)%Z
  | Js.Str s => String.eqb s ""
  end.

(** [String(v)]. *)
Definition to_string (v : Js.value) : string :=
  match v with
  | Js.Undefined => "undefined"
  | Js.Null => "null"
  | Js.Boolean true => "true"
  | Js.Boolean false => "false"
  | Js.Number n => JsText.number_toString n
  | Js.Str s => s
  end.

Definition is5ManTeamTournament (tournament : Tournament) : bool :=
  if falsy (team_size tournament) then false
  else
    let sizeStr := Js.trim (Js.toLowerCase (to_string (team_size tournament))) in
    Js.includes sizeStr "5" || Js.includes sizeStr "five"
    || Js.includes sizeStr "5-man".

Definition isSquadTournament (tournament : Tournament) : bool :=
  if falsy (team_size tournament) then false
  else
    let sizeStr := Js.trim (Js.toLowerCase (to_string (team_size tournament))) in
    Js.includes sizeStr "squad" || String.eqb sizeStr "4".

(** [supportsGrouping] for the tournament selected in the panel. *)
Definition supportsGrouping (tournaments : list Tournament)
    (selectedTournament : string) : bool :=
  match find (fun t => String.eqb (id t) selectedTournament) tournaments with
  | Some selectedTournamentData =>
      is5ManTeamTournament selectedTournamentData
      || isSquadTournament selectedTournamentData
  | None => false
  end.

(** The predicate of the filter that builds [teamTournaments]. *)
Definition isListed (t : Tournament) : bool :=
  negb (falsy (team_size t))
  && match team_size t with
     | Js.Number n => Js.gt n 1
     | _ =>
         Js.some (fun size =>
                    Js.includes (Js.toLowerCase (to_string (team_size t)))
                                (Js.toLowerCase size))
                 ["duo"; "squad"; "5-man"; "5-Man team"]
     end.

Definition teamTournaments (tournaments : list Tournament) : list Tournament :=
  filter isListed tournaments.

End AdminKind.

(** ** The [RegisteredTeams] component *)
Module RegisteredTeams.

(** Its own [parseTeamSize]:
    [[
      if (typeof size === 'number') return size;
      if (!size) return 1;
      const sizeStr = size.toString().toLowerCase();
      if (sizeStr.includes('duo')) return 2;
      if (sizeStr.includes('squad')) return 4;
      if (sizeStr.includes('5') || sizeStr.includes('five')) return 5;
      return 1;
    ]] *)
Definition parseTeamSize (size : Js.value) : Js.number :=
  match size with
  | Js.Number n => n
  | _ =>
      if AdminKind.falsy size then Js.Num 1
      else
        let sizeStr := Js.toLowerCase (AdminKind.to_string size) in
        if Js.includes sizeStr "duo" then Js.Num 2
        else if Js.includes sizeStr "squad" then Js.Num 4
        else if Js.includes sizeStr "5" || Js.includes sizeStr "five"
        then Js.Num 5
        else Js.Num 1
  end.

(** [isTeamTournament]: the teams are loaded and listed only then. *)
Definition isTeamTournament (teamSize : Js.value) : bool :=
  Js.gt (parseTeamSize teamSize) 1.

End RegisteredTeams.

(** ** The columns both components rank by *)
Module Columns.

(** The columns of a [tournament_points] row that decide its group and
    its rank.  The admin panel holds them in a [PointsTableEntry], the
    participant view receives them in a [PointsEntry]. *)
Record t : Type := {
  c_id : string;
  c_points : Z;
  c_kills : Z;
  c_wins : Z;
  c_group_name : option string
}.

Definition of_entry (e : Admin.PointsTableEntry) : t :=
  {| c_id := Admin.id e;
     c_points := Admin.points e;
     c_kills := Admin.kills e;
     c_wins := Admin.wins e;
     c_group_name := Admin.group_name e |}.

Definition of_shown (e : Display.PointsEntry) : t :=
  {| c_id := Display.id e;
     c_points := Display.points e;
     c_kills := Display.kills e;
     c_wins := Display.wins e;
     c_group_name := Display.group_name e |}.

(** The comparators of the two components and the key of the reducer,
    read on the columns alone. *)
Definition byPointsThenKills (a b : t) : Z :=
  if negb (c_points b =? c_points a)%Z then (c_points b - c_points a)%Z
  else (c_kills b - c_kills a)%Z.

Definition byPointsKillsWins (a b : t) : Z :=
  if negb (c_points b =? c_points a)%Z then (c_points b - c_points a)%Z
  else if negb (c_kills b =? c_kills a)%Z then (c_kills b - c_kills a)%Z
  else (c_wins b - c_wins a)%Z.

Definition group_key : t -> string := Grouping.group_key c_group_name.

End Columns.

Module Samples.

Definition entry (i : string) (p k w : Z) (g : option string)
  : Admin.PointsTableEntry :=
  {| Admin.id := i;
     Admin.tournament_id := "t1";
     Admin.team_id := String.append "team-" i;
     Admin.team_name := String.append "Team " i;
     Admin.points := p;
     Admin.position := 1;
     Admin.kills := k;
     Admin.wins := w;
     Admin.group_name := g;
     Admin.position_in_group := None;
     Admin.created_at := "2025-10-25T17:14:49Z";
     Admin.updated_at := "2025-10-25T17:14:49Z" |}.

(** The scenario of the specification: A 10/2/1, B 10/3/0, C 5/9/9. *)
Definition scenario : list Admin.PointsTableEntry :=
  [entry "A" 10 2 1 None; entry "B" 10 3 0 None; entry "C" 5 9 9 None].

(** Two records level on points and kills; the second has more wins. *)
Definition level_but_for_wins : list Admin.PointsTableEntry :=
  [entry "X" 10 2 0 None; entry "Y" 10 2 3 None].

(** Two records level on all three counters. *)
Definition level : list Admin.PointsTableEntry :=
  [entry "P" 4 1 1 (Some "Group A"); entry "Q" 9 0 0 None;
   entry "R" 4 1 1 (Some "Group A")].

(** Four records labelled X, X, Y, Y. *)
Definition two_groups : list Admin.PointsTableEntry :=
  [entry "a" 3 0 0 (Some "X"); entry "b" 7 0 0 (Some "X");
   entry "c" 1 0 0 (Some "Y"); entry "d" 1 5 0 (Some "Y")].

(** Seven fresh records. *)
Definition seven : list Admin.PointsTableEntry :=
  map (fun i => entry i 0 0 0 None) ["1"; "2"; "3"; "4"; "5"; "6"; "7"].

(** A batch with a negative counter. *)
Definition with_negative : list Admin.PointsTableEntry :=
  [entry "m" (-5) 0 0 None; entry "n" 3 (-2) 0 None].

(** A label that object literals inherit. *)
Definition inherited_label : list Admin.PointsTableEntry :=
  [entry "a" 3 0 0 (Some "constructor")].

(** A form that changes only the position of record A of [scenario]. *)
Definition position_form : Admin.EditForm :=
  {| Admin.f_points := "10";
     Admin.f_kills := "2";
     Admin.f_wins := "1";
     Admin.f_position := "3";
     Admin.f_group_name := "" |}.

(** The teams of a tournament, two of them without standings yet. *)
Definition teams : list AdminLoad.Team :=
  [ {| AdminLoad.t_id := "team-a"; AdminLoad.t_team_name := "Team a" |};
    {| AdminLoad.t_id := "team-x"; AdminLoad.t_team_name := "Team x" |};
    {| AdminLoad.t_id := "team-c"; AdminLoad.t_team_name := "Team c" |};
    {| AdminLoad.t_id := "team-y"; AdminLoad.t_team_name := "Team y" |} ].

(** The two level records as the participant view receives them. *)
Definition shown (i : string) (p k w : Z) (g : option string)
  : Display.PointsEntry :=
  {| Display.id := i;
     Display.team_name := String.append "Team " i;
     Display.points := p;
     Display.position := 1;
     Display.kills := k;
     Display.wins := w;
     Display.group_name := g;
     Display.position_in_group := None |}.

Definition shown_level_but_for_wins : list Display.PointsEntry :=
  [shown "X" 10 2 0 (Some "Group A"); shown "Y" 10 2 3 (Some "Group A")].

Definition negative_form : Admin.EditForm :=
  {| Admin.f_points := "-5";
     Admin.f_kills := "3";
     Admin.f_wins := "";
     Admin.f_position := "2";
     Admin.f_group_name := "" |}.

End Samples.

(* ================================================================== *)
(** * Part II: properties                                              *)
(* ================================================================== *)

(** ** Facts about the built-ins *)
Module JsFacts.

Section SortFacts.
Context {A : Type} (cmp : A -> A -> Z).

Lemma insert_perm (x : A) (l : list A) :
  Permutation (Js.insert cmp x l) (x :: l).
Proof.
  induction l as [|y l IH]; simpl.
  - apply Permutation_refl.
  - destruct (cmp x y <=? 0)%Z.
    + apply Permutation_refl.
    + eapply perm_trans; [apply perm_skip, IH | apply perm_swap].
Qed.

Lemma sort_perm (l : list A) : Permutation (Js.sort cmp l) l.
Proof.
  induction l as [|x l IH]; simpl.
  - constructor.
  - eapply perm_trans; [apply insert_perm | apply perm_skip, IH].
Qed.

Lemma sort_length (l : list A) : List.length (Js.sort cmp l) = List.length l.
Proof. apply Permutation_length, sort_perm. Qed.

Lemma sort_in (l : list A) (x : A) : In x (Js.sort cmp l) <-> In x l.
Proof.
  split; apply Permutation_in; [|apply Permutation_sym]; apply sort_perm.
Qed.

(** The sort is stable on every class of elements that the comparator
    never asks to swap: their subsequence is left as it was. *)
Lemma filter_insert (P : A -> bool) (x : A) (l : list A) :
  (forall y, P x = true -> P y = true -> (cmp x y <= 0)%Z) ->
  filter P (Js.insert cmp x l) = filter P (x :: l).
Proof.
  intros Hcls. induction l as [|y l IH]; simpl; [reflexivity|].
  destruct (cmp x y <=? 0)%Z eqn:Hxy; [reflexivity|].
  apply Z.leb_gt in Hxy. simpl in *. rewrite IH.
  destruct (P x) eqn:Px, (P y) eqn:Py; try reflexivity.
  specialize (Hcls y eq_refl Py). lia.
Qed.

Lemma sort_stable (P : A -> bool) (l : list A) :
  (forall x y, P x = true -> P y = true -> (cmp x y <= 0)%Z) ->
  filter P (Js.sort cmp l) = filter P l.
Proof.
  intros Hcls. induction l as [|x l IH]; simpl; [reflexivity|].
  rewrite filter_insert by (intros; now apply Hcls).
  simpl. now rewrite IH.
Qed.
End SortFacts.

(** Sorting commutes with a map the comparator cannot see. *)
Lemma sort_map {A B : Type} (cmpA : A -> A -> Z) (cmpB : B -> B -> Z)
    (f : A -> B) (l : list A) :
  (forall a b, cmpB (f a) (f b) = cmpA a b) ->
  Js.sort cmpB (map f l) = map f (Js.sort cmpA l).
Proof.
  intros Hf. induction l as [|x l IH]; simpl; [reflexivity|].
  rewrite IH. generalize (Js.sort cmpA l) as s. clear IH.
  induction s as [|y s IHs]; simpl; [reflexivity|].
  rewrite Hf. destruct (cmpA x y <=? 0)%Z; simpl; [reflexivity|].
  now rewrite IHs.
Qed.

Section MapiFacts.
Context {A B : Type}.

Lemma mapi_from_length (f : A -> nat -> B) (l : list A) (i : nat) :
  List.length (Js.mapi_from i f l) = List.length l.
Proof.
  revert i; induction l as [|x l IH]; intros i; simpl; [reflexivity|].
  now rewrite IH.
Qed.

Lemma mapi_length (f : A -> nat -> B) (l : list A) :
  List.length (Js.mapi f l) = List.length l.
Proof. apply mapi_from_length. Qed.

(** A projection that ignores the index turns [mapi] into [map]. *)
Lemma map_mapi_from {C : Type} (h : B -> C) (h' : A -> C)
    (f : A -> nat -> B) (l : list A) (i : nat) :
  (forall x j, h (f x j) = h' x) ->
  map h (Js.mapi_from i f l) = map h' l.
Proof.
  intros Hh. revert i; induction l as [|x l IH]; intros i; simpl;
    [reflexivity|].
  now rewrite Hh, IH.
Qed.

(** A projection that ignores the element reads off the indices. *)
Lemma map_mapi_from_index {C : Type} (h : B -> C) (g : nat -> C)
    (f : A -> nat -> B) (l : list A) (i : nat) :
  (forall x j, h (f x j) = g j) ->
  map h (Js.mapi_from i f l) = map g (seq i (List.length l)).
Proof.
  intros Hh. revert i; induction l as [|x l IH]; intros i; simpl;
    [reflexivity|].
  now rewrite Hh, IH.
Qed.

Lemma mapi_from_nth (f : A -> nat -> B) (l : list A) (i j : nat) :
  nth_error (Js.mapi_from i f l) j =
  option_map (fun x => f x (i + j)) (nth_error l j).
Proof.
  revert i j; induction l as [|x l IH]; intros i [|j]; simpl;
    try reflexivity.
  - now rewrite Nat.add_0_r.
  - rewrite IH. now rewrite Nat.add_succ_r.
Qed.

Lemma mapi_from_in (f : A -> nat -> B) (l : list A) (i : nat) (y : B) :
  In y (Js.mapi_from i f l) ->
  exists x j, nth_error l j = Some x /\ y = f x (i + j).
Proof.
  intros Hin. apply In_nth_error in Hin as [j Hj].
  rewrite mapi_from_nth in Hj.
  destruct (nth_error l j) as [x|] eqn:Hx; simpl in Hj; [|discriminate].
  exists x, j. split; [assumption | congruence].
Qed.
End MapiFacts.

Section FindIndexFacts.
Context {A K : Type} (key : A -> K) (eqb : K -> K -> bool).
Hypothesis eqb_spec : forall a b, eqb a b = true <-> a = b.

(** With pairwise distinct keys, looking an element up by its key finds
    the element's own index. *)
Lemma find_index_from_own (l : list A) (k : nat) :
  NoDup (map key l) ->
  map (fun e => Js.find_index_from k (fun e' => eqb (key e') (key e)) l) l
  = map Some (seq k (List.length l)).
Proof.
  revert k; induction l as [|x l IH]; intros k Hnd; simpl; [reflexivity|].
  inversion Hnd as [|? ? Hnotin Hnd']; subst.
  assert (Hxx : eqb (key x) (key x) = true) by now apply eqb_spec.
  rewrite Hxx. f_equal.
  rewrite <- IH by assumption.
  apply map_ext_in. intros e He.
  destruct (eqb (key x) (key e)) eqn:Hxe; [|reflexivity].
  apply eqb_spec in Hxe. exfalso. apply Hnotin. rewrite Hxe.
  now apply in_map.
Qed.

Lemma findIndex_own (l : list A) :
  NoDup (map key l) ->
  map (fun e => Js.findIndex (fun e' => eqb (key e') (key e)) l) l
  = map Z.of_nat (seq 0 (List.length l)).
Proof.
  intros Hnd. unfold Js.findIndex.
  pose proof (find_index_from_own l 0 Hnd) as H.
  rewrite <- (map_map Some (fun o => match o with Some i => Z.of_nat i | None => (-1)%Z end)).
  rewrite <- H. rewrite map_map. reflexivity.
Qed.

(** [findIndex] by key only looks at the keys. *)
Lemma find_index_from_keys (l l' : list A) (k : nat) (p : K -> bool) :
  map key l = map key l' ->
  Js.find_index_from k (fun e => p (key e)) l
  = Js.find_index_from k (fun e => p (key e)) l'.
Proof.
  revert l' k; induction l as [|x l IH]; intros [|x' l'] k Hk;
    simpl in *; try discriminate; [reflexivity|].
  injection Hk as Hx Hl. rewrite Hx.
  destruct (p (key x')); [reflexivity|]. now apply IH.
Qed.

Lemma find_index_from_split (l1 l2 : list A) (x : A) (k : nat) :
  NoDup (map key (l1 ++ x :: l2)) ->
  Js.find_index_from k (fun e' => eqb (key e') (key x)) (l1 ++ x :: l2)
  = Some (k + List.length l1).
Proof.
  revert k; induction l1 as [|y l1 IH]; intros k Hnd; simpl.
  - assert (Hxx : eqb (key x) (key x) = true) by now apply eqb_spec.
    rewrite Hxx. now rewrite Nat.add_0_r.
  - simpl in Hnd. inversion Hnd as [|? ? Hnotin Hnd']; subst.
    destruct (eqb (key y) (key x)) eqn:Hyx.
    + apply eqb_spec in Hyx. exfalso. apply Hnotin. rewrite Hyx.
      rewrite map_app. apply in_or_app. right. now left.
    + rewrite IH by assumption. f_equal. lia.
Qed.
End FindIndexFacts.

End JsFacts.

(** ** Objects as dictionaries *)
Module ObjectFacts.
Section Lookup.
Context {V : Type}.
Implicit Types (o : Js.object V) (k : string) (v : V).

Lemma get_set_own k k' v o :
  Js.get_own k' (Js.set_own k v o)
  = if String.eqb k' k then Some v else Js.get_own k' o.
Proof.
  induction o as [|[k0 v0] o IH]; simpl.
  - destruct (String.eqb k' k); reflexivity.
  - destruct (String.eqb k k0) eqn:Hk; simpl.
    + apply String.eqb_eq in Hk; subst k0.
      destruct (String.eqb k' k); reflexivity.
    + destruct (String.eqb k' k0) eqn:Hk'; [|exact IH].
      apply String.eqb_eq in Hk'; subst k0.
      destruct (String.eqb k' k) eqn:Hkk; [|reflexivity].
      apply String.eqb_eq in Hkk; subst k'.
      rewrite String.eqb_refl in Hk. discriminate.
Qed.

Lemma get_own_none k o :
  Js.get_own k o = None <-> ~ In k (map fst o).
Proof.
  induction o as [|[k0 v0] o IH]; simpl.
  - tauto.
  - destruct (String.eqb k k0) eqn:Hk.
    + apply String.eqb_eq in Hk. split; [discriminate | intros H; exfalso; auto].
    + apply String.eqb_neq in Hk. rewrite IH. split.
      * intros H [H'|H']; [congruence | auto].
      * intros H H'. apply H. now right.
Qed.

Lemma get_own_in k v o : Js.get_own k o = Some v -> In (k, v) o.
Proof.
  induction o as [|[k0 v0] o IH]; simpl; [discriminate|].
  destruct (String.eqb k k0) eqn:Hk.
  - apply String.eqb_eq in Hk. intros [= ->]. left. now subst.
  - intros H. right. now apply IH.
Qed.

Lemma in_get_own k v o :
  NoDup (map fst o) -> In (k, v) o -> Js.get_own k o = Some v.
Proof.
  induction o as [|[k0 v0] o IH]; simpl; [tauto|].
  intros Hnd [H|H]; inversion Hnd as [|? ? Hnotin Hnd']; subst.
  - injection H as -> ->. now rewrite String.eqb_refl.
  - destruct (String.eqb k k0) eqn:Hk; [|now apply IH].
    apply String.eqb_eq in Hk; subst k0. exfalso. apply Hnotin.
    change k with (fst (k, v)). now apply in_map.
Qed.

Lemma set_own_keys k v o k' :
  In k' (map fst (Js.set_own k v o)) <-> k' = k \/ In k' (map fst o).
Proof.
  induction o as [|[k0 v0] o IH]; simpl.
  - intuition.
  - destruct (String.eqb k k0) eqn:Hk; simpl.
    + apply String.eqb_eq in Hk; subst k0. intuition.
    + rewrite IH. intuition.
Qed.

Lemma set_own_nodup k v o :
  NoDup (map fst o) -> NoDup (map fst (Js.set_own k v o)).
Proof.
  induction o as [|[k0 v0] o IH]; simpl; intros Hnd.
  - constructor; [tauto | constructor].
  - inversion Hnd as [|? ? Hnotin Hnd']; subst.
    destruct (String.eqb k k0) eqn:Hk; simpl.
    + apply String.eqb_eq in Hk; subst k0. now constructor.
    + apply String.eqb_neq in Hk. constructor; [|now apply IH].
      rewrite set_own_keys. intros [H|H]; [congruence | auto].
Qed.

(** [Object.entries] lists every own property exactly once. *)
Lemma filter_split_perm {T : Type} (p : T -> bool) (l : list T) :
  Permutation (filter p l ++ filter (fun x => negb (p x)) l) l.
Proof.
  induction l as [|x l IH]; simpl; [constructor|].
  destruct (p x); simpl.
  - now constructor.
  - eapply perm_trans; [apply Permutation_sym, Permutation_middle|].
    now constructor.
Qed.

Lemma entries_perm o : Permutation (Js.entries o) o.
Proof.
  unfold Js.entries.
  eapply perm_trans; [|apply (filter_split_perm Js.is_array_index)].
  apply Permutation_app_tail. apply JsFacts.sort_perm.
Qed.

Lemma entries_in o kv : In kv (Js.entries o) <-> In kv o.
Proof.
  split; apply Permutation_in; [|apply Permutation_sym]; apply entries_perm.
Qed.

Lemma entries_nodup o :
  NoDup (map fst o) -> NoDup (map fst (Js.entries o)).
Proof.
  intros H. eapply Permutation_NoDup; [|exact H].
  apply Permutation_map, Permutation_sym, entries_perm.
Qed.
End Lookup.

Section Buckets.
Context {E : Type}.
Implicit Types (o : Js.object (list E)) (k : string).

(** Pushing onto the array stored under an existing key adds one element
    to the object as a whole. *)
Lemma push_existing_perm k o (es : list E) (e : E) :
  Js.get_own k o = Some es ->
  Permutation (flat_map snd (Js.set_own k (es ++ [e]) o))
              (e :: flat_map snd o).
Proof.
  induction o as [|[k0 v0] o IH]; simpl; [discriminate|].
  destruct (String.eqb k k0) eqn:Hk; simpl.
  - intros [= ->]. rewrite <- app_assoc. simpl.
    eapply perm_trans; [apply Permutation_app_head,
                          (Permutation_middle [] (flat_map snd o) e)|].
    simpl. apply Permutation_sym, Permutation_middle.
  - intros H. eapply perm_trans; [apply Permutation_app_head, IH, H|].
    apply Permutation_sym, Permutation_middle.
Qed.

Lemma push_fresh_perm k o (e : E) :
  Permutation (flat_map snd (Js.set_own k [e] o)) (e :: flat_map snd o)
  \/ Js.get_own k o <> None.
Proof.
  destruct (Js.get_own k o) eqn:Hg; [right; discriminate | left].
  induction o as [|[k0 v0] o IH]; simpl in *.
  - apply Permutation_refl.
  - destruct (String.eqb k k0) eqn:Hk; [discriminate|]. simpl.
    eapply perm_trans; [apply Permutation_app_head, IH, Hg|].
    apply Permutation_sym, Permutation_middle.
Qed.
End Buckets.
End ObjectFacts.

(** ** The grouping reducer *)
Module GroupingFacts.
Section Reducer.
Context {E : Type} (group_name : E -> option string).

Local Abbreviation key := (Grouping.group_key group_name).
Local Abbreviation in_group := (Grouping.in_group group_name).
Local Abbreviation nonempty := Grouping.nonempty.
Local Abbreviation groups_of := (Grouping.groups_of group_name).

Lemma nonempty_snoc (l : list E) (e : E) : nonempty (l ++ [e]) = Some (l ++ [e]).
Proof. destruct l; reflexivity. Qed.

Lemma nonempty_some (l es : list E) : nonempty l = Some es -> es = l /\ l <> [].
Proof. destruct l; simpl; [discriminate|]. intros [= <-]. split; [reflexivity | discriminate]. Qed.

Lemma groups_of_empty : groups_of [] [].
Proof.
  repeat split; simpl; try constructor; tauto.
Qed.

Lemma push_entry_groups (pre : list E) (acc acc' : Js.object (list E)) (e : E) :
  groups_of pre acc ->
  Grouping.push_entry group_name acc e = Some acc' ->
  groups_of (pre ++ [e]) acc'.
Proof.
  intros (Hnd & Hget & Hperm & Hown). unfold Grouping.push_entry.
  cbv zeta.
  assert (Hfilter : forall k, filter (in_group k) (pre ++ [e])
            = filter (in_group k) pre ++ if String.eqb (key e) k then [e] else []).
  { intros k. rewrite filter_app. simpl. unfold in_group at 2.
    destruct (String.eqb (key e) k); reflexivity. }
  destruct (Js.get_own (key e) acc) as [es|] eqn:Hes.
  - intros [= <-].
    pose proof (Hget (key e)) as Hk. rewrite Hes in Hk. symmetry in Hk.
    apply nonempty_some in Hk as [-> _].
    repeat split.
    + now apply ObjectFacts.set_own_nodup.
    + intros k. rewrite ObjectFacts.get_set_own, Hfilter.
      rewrite (String.eqb_sym k (key e)).
      destruct (String.eqb (key e) k) eqn:Hk'.
      * apply String.eqb_eq in Hk'; subst k. now rewrite nonempty_snoc.
      * rewrite app_nil_r. apply Hget.
    + eapply perm_trans; [apply ObjectFacts.push_existing_perm, Hes|].
      eapply perm_trans; [apply perm_skip, Hperm|].
      apply Permutation_cons_append.
    + intros k Hk. apply ObjectFacts.set_own_keys in Hk as [->|Hk].
      * apply Hown. apply ObjectFacts.get_own_in in Hes.
        change (key e) with (fst (key e, filter (in_group (key e)) pre)).
        now apply in_map.
      * now apply Hown.
  - destruct (Js.inherited (key e)) eqn:Hinh; [discriminate|].
    intros [= <-].
    pose proof (Hget (key e)) as Hk. rewrite Hes in Hk.
    assert (Hnil : filter (in_group (key e)) pre = []).
    { destruct (filter (in_group (key e)) pre); [reflexivity | discriminate]. }
    repeat split.
    + now apply ObjectFacts.set_own_nodup.
    + intros k. rewrite ObjectFacts.get_set_own, Hfilter.
      rewrite (String.eqb_sym k (key e)).
      destruct (String.eqb (key e) k) eqn:Hk'.
      * apply String.eqb_eq in Hk'; subst k. now rewrite Hnil.
      * rewrite app_nil_r. apply Hget.
    + destruct (ObjectFacts.push_fresh_perm (key e) acc e) as [H|H];
        [|congruence].
      eapply perm_trans; [exact H|].
      eapply perm_trans; [apply perm_skip, Hperm|].
      apply Permutation_cons_append.
    + intros k Hin. apply ObjectFacts.set_own_keys in Hin as [->|Hin];
        [assumption | now apply Hown].
Qed.

Lemma reduce_groups (l pre : list E) (acc r : Js.object (list E)) :
  groups_of pre acc ->
  Js.reduce (Grouping.push_entry group_name) l acc = Some r ->
  groups_of (pre ++ l) r.
Proof.
  revert pre acc; induction l as [|e l IH]; intros pre acc Hinv; simpl.
  - intros [= <-]. now rewrite app_nil_r.
  - destruct (Grouping.push_entry group_name acc e) as [acc'|] eqn:Hpush;
      [|discriminate].
    intros Hr. replace (pre ++ e :: l) with ((pre ++ [e]) ++ l)
      by now rewrite <- app_assoc.
    eapply IH; [|exact Hr]. eapply push_entry_groups; eassumption.
Qed.

Lemma group_entries_groups (l : list E) (acc : Js.object (list E)) :
  Grouping.group_entries group_name l = Some acc -> groups_of l acc.
Proof. intros H. apply (reduce_groups l [] [] acc groups_of_empty H). Qed.

(** The reducer throws exactly when some label is a name that object
    literals inherit. *)
Lemma reduce_some (l : list E) (acc : Js.object (list E)) :
  Forall (fun e => Js.inherited (key e) = false) l ->
  exists r, Js.reduce (Grouping.push_entry group_name) l acc = Some r.
Proof.
  revert acc; induction l as [|e l IH]; intros acc Hall; simpl.
  - now exists acc.
  - inversion Hall as [|? ? He Hl]; subst.
    unfold Grouping.push_entry at 1. cbv zeta. rewrite He.
    destruct (Js.get_own (key e) acc); now apply IH.
Qed.

Lemma group_entries_some (l : list E) :
  Forall (fun e => Js.inherited (key e) = false) l ->
  exists acc, Grouping.group_entries group_name l = Some acc.
Proof. apply reduce_some. Qed.

Lemma group_entries_keys_ok (l : list E) (acc : Js.object (list E)) :
  Grouping.group_entries group_name l = Some acc ->
  Forall (fun e => Js.inherited (key e) = false) l.
Proof.
  intros H. apply group_entries_groups in H as (Hnd & Hget & Hperm & Hown).
  apply Forall_forall. intros e He. apply Hown.
  destruct (Js.get_own (key e) acc) as [es|] eqn:Hes.
  - apply ObjectFacts.get_own_in in Hes.
    change (key e) with (fst (key e, es)). now apply in_map.
  - rewrite Hget in Hes. exfalso.
    assert (Hin : In e (filter (in_group (key e)) l)).
    { apply filter_In. split; [assumption|]. unfold Grouping.in_group.
      apply String.eqb_refl. }
    destruct (filter (in_group (key e)) l); [contradiction | discriminate].
Qed.

(** The buckets, read back as a list of key-array pairs. *)
Lemma groups_of_bucket (l : list E) (acc : Js.object (list E)) k es :
  groups_of l acc -> In (k, es) acc ->
  es = filter (in_group k) l /\ es <> [].
Proof.
  intros (Hnd & Hget & _) Hin.
  apply ObjectFacts.in_get_own in Hin; [|assumption].
  rewrite Hget in Hin. apply nonempty_some in Hin as [-> Hne]. now split.
Qed.

Lemma groups_of_lookup (l : list E) (acc : Js.object (list E)) k :
  groups_of l acc -> filter (in_group k) l <> [] ->
  In (k, filter (in_group k) l) acc.
Proof.
  intros (Hnd & Hget & _) Hne. apply ObjectFacts.get_own_in.
  rewrite Hget. destruct (filter (in_group k) l); [contradiction | reflexivity].
Qed.
End Reducer.
End GroupingFacts.

(** ** [autoCalculatePositions] *)
Module AdminFacts.
Import Admin.

Local Abbreviation ideq e := (fun e' : PointsTableEntry => String.eqb (id e') (id e)).
Local Abbreviation sorted l := (Js.sort byPointsThenKills l).

Lemma filter_perm {T : Type} (p : T -> bool) (l l' : list T) :
  Permutation l l' -> Permutation (filter p l) (filter p l').
Proof.
  induction 1 as [|x l l' _ IH|x y l|l l' l'' _ IH1 _ IH2]; simpl.
  - constructor.
  - destruct (p x); [now constructor | assumption].
  - destruct (p x), (p y); try apply Permutation_refl. apply perm_swap.
  - eapply perm_trans; eassumption.
Qed.

Lemma nodup_map_inj {T K : Type} (f : T -> K) (l : list T) (x y : T) :
  NoDup (map f l) -> In x l -> In y l -> f x = f y -> x = y.
Proof.
  induction l as [|a l IH]; simpl; [tauto|].
  intros Hnd Hx Hy Hxy. inversion Hnd as [|? ? Hnotin Hnd']; subst.
  destruct Hx as [->|Hx], Hy as [->|Hy]; auto.
  - exfalso. apply Hnotin. rewrite Hxy. now apply in_map.
  - exfalso. apply Hnotin. rewrite <- Hxy. now apply in_map.
Qed.

Lemma sorted_ids_nodup (l : list PointsTableEntry) :
  NoDup (map id l) -> NoDup (map id (sorted l)).
Proof.
  intros H. eapply Permutation_NoDup; [|exact H].
  apply Permutation_map, Permutation_sym, JsFacts.sort_perm.
Qed.

(** *** The shape of the payload *)

(** A projection of the grouped payload that ignores the index within the
    group is a projection of the bucket contents. *)
Lemma grouped_updates_map {T : Type} (h : Update -> T)
    (h' : PointsTableEntry -> T) (s : list PointsTableEntry)
    (acc : Js.object (list PointsTableEntry)) :
  (forall e j, h (grouped_update s e j) = h' e) ->
  map h (grouped_updates s acc) = map h' (flat_map snd (Js.entries acc)).
Proof.
  intros Hh. unfold grouped_updates.
  induction (Js.entries acc) as [|[k es] bs IH]; simpl; [reflexivity|].
  rewrite !map_app, IH. f_equal.
  now apply JsFacts.map_mapi_from.
Qed.

Lemma buckets_perm (s : list PointsTableEntry)
    (acc : Js.object (list PointsTableEntry)) :
  Grouping.group_entries group_name s = Some acc ->
  Permutation (flat_map snd (Js.entries acc)) s.
Proof.
  intros H. apply GroupingFacts.group_entries_groups in H as (_ & _ & Hperm & _).
  eapply perm_trans; [|exact Hperm].
  apply Permutation_flat_map, ObjectFacts.entries_perm.
Qed.

Lemma mapi_from_ext_nth {T U W : Type} (h : U -> W) (f : T -> nat -> U)
    (g : T -> W) (l : list T) (i : nat) :
  (forall j x, nth_error l j = Some x -> h (f x (i + j)) = g x) ->
  map h (Js.mapi_from i f l) = map g l.
Proof.
  revert i; induction l as [|x l IH]; intros i H; simpl; [reflexivity|].
  f_equal.
  - rewrite <- (H 0 x eq_refl). now rewrite Nat.add_0_r.
  - apply IH. intros j y Hj. rewrite <- (H (S j) y Hj).
    now rewrite Nat.add_succ_r.
Qed.

Lemma findIndex_nth (s : list PointsTableEntry) (j : nat) (e : PointsTableEntry) :
  NoDup (map id s) -> nth_error s j = Some e ->
  Js.findIndex (ideq e) s = Z.of_nat j.
Proof.
  intros Hnd Hj. apply nth_error_split in Hj as (s1 & s2 & -> & <-).
  unfold Js.findIndex.
  rewrite (JsFacts.find_index_from_split id String.eqb String.eqb_eq s1 s2 e 0 Hnd).
  reflexivity.
Qed.

(** With distinct ids both branches assign to every record the rank of its
    place in the sorted list. *)
Lemma id_position_table (supportsGrouping : bool) (selectedTournament : string)
    (l : list PointsTableEntry) (ups : list Update) :
  NoDup (map id l) ->
  autoCalculatePositions supportsGrouping selectedTournament l = Upserted ups ->
  Permutation (map id_position ups)
    (map (fun e => (id e, Js.findIndex (ideq e) (sorted l) + 1)%Z) (sorted l)).
Proof.
  intros Hnd. unfold autoCalculatePositions.
  destruct (String.eqb selectedTournament "" || (List.length l =? 0));
    [discriminate|].
  destruct supportsGrouping.
  - destruct (Grouping.group_entries group_name (sorted l)) as [acc|] eqn:Hacc;
      [|discriminate].
    intros [= <-].
    rewrite (grouped_updates_map id_position
               (fun e => (id e, Js.findIndex (ideq e) (sorted l) + 1)%Z))
      by reflexivity.
    apply Permutation_map. now apply buckets_perm.
  - intros [= <-]. unfold Js.mapi.
    rewrite (mapi_from_ext_nth id_position ungrouped_update
               (fun e => (id e, Js.findIndex (ideq e) (sorted l) + 1)%Z)).
    + apply Permutation_refl.
    + intros j e Hj. unfold id_position, ungrouped_update; simpl.
      rewrite (findIndex_nth (sorted l) j e); auto using sorted_ids_nodup.
Qed.

Lemma sorted_positions (s : list PointsTableEntry) :
  NoDup (map id s) ->
  map (fun e => (Js.findIndex (ideq e) s + 1)%Z) s
  = map Z.of_nat (seq 1 (List.length s)).
Proof.
  intros Hnd.
  rewrite <- (map_map (fun e => Js.findIndex (ideq e) s) (fun z => (z + 1)%Z)).
  rewrite (JsFacts.findIndex_own id String.eqb String.eqb_eq s Hnd).
  rewrite <- seq_shift, !map_map. apply map_ext. intros j. lia.
Qed.

(** When the handler sends a payload. *)
Lemma autoCalculatePositions_upserts (supportsGrouping : bool)
    (selectedTournament : string) (l : list PointsTableEntry) :
  selectedTournament <> "" -> l <> [] ->
  (supportsGrouping = true -> labels_ok l) ->
  exists ups,
    autoCalculatePositions supportsGrouping selectedTournament l = Upserted ups.
Proof.
  intros Ht Hl Hok. unfold autoCalculatePositions.
  apply String.eqb_neq in Ht. rewrite Ht.
  destruct l as [|e l']; [contradiction|]. cbn [List.length Nat.eqb orb].
  destruct supportsGrouping; [|eexists; reflexivity].
  destruct (GroupingFacts.group_entries_some group_name (sorted (e :: l')))
    as [acc Hacc].
  - eapply Permutation_Forall; [apply Permutation_sym, JsFacts.sort_perm|].
    now apply Hok.
  - rewrite Hacc. eexists; reflexivity.
Qed.

Lemma autoCalculatePositions_upserted_inv (supportsGrouping : bool)
    (selectedTournament : string) (l : list PointsTableEntry) (ups : list Update) :
  autoCalculatePositions supportsGrouping selectedTournament l = Upserted ups ->
  selectedTournament <> "" /\ l <> [] /\ (supportsGrouping = true -> labels_ok l).
Proof.
  unfold autoCalculatePositions.
  destruct (String.eqb selectedTournament "") eqn:Ht; [discriminate|].
  destruct l as [|e l']; [discriminate|]. cbn [List.length Nat.eqb orb].
  intros H. apply String.eqb_neq in Ht. repeat split; try assumption;
    try discriminate.
  intros ->.
  destruct (Grouping.group_entries group_name (sorted (e :: l'))) as [acc|] eqn:Hacc;
    [|discriminate].
  apply GroupingFacts.group_entries_keys_ok in Hacc.
  eapply Permutation_Forall; [apply JsFacts.sort_perm | exact Hacc].
Qed.

(** A label inherited by object literals makes the grouped branch throw. *)
Lemma autoCalculatePositions_throws (selectedTournament : string)
    (l : list PointsTableEntry) :
  selectedTournament <> "" -> l <> [] -> ~ labels_ok l ->
  autoCalculatePositions true selectedTournament l = Threw.
Proof.
  intros Ht Hl Hbad.
  destruct (autoCalculatePositions true selectedTournament l) as [| |ups] eqn:H.
  - unfold autoCalculatePositions in H. apply String.eqb_neq in Ht.
    rewrite Ht in H. destruct l; [contradiction|]. simpl in H.
    destruct (Grouping.group_entries _ _); discriminate.
  - reflexivity.
  - apply autoCalculatePositions_upserted_inv in H as (_ & _ & Hok).
    exfalso. now apply Hbad, Hok.
Qed.

(** *** The rows of one group *)

Lemma update_key_grouped (s : list PointsTableEntry) (e : PointsTableEntry) (j : nat) :
  update_key (grouped_update s e j) = group_key e.
Proof. reflexivity. Qed.

Lemma filter_bucket_updates (s es : list PointsTableEntry) (g k : string) (i : nat) :
  (forall e, In e es -> group_key e = k) ->
  filter (fun u => String.eqb (update_key u) g)
         (Js.mapi_from i (grouped_update s) es)
  = if String.eqb k g then Js.mapi_from i (grouped_update s) es else [].
Proof.
  revert i; induction es as [|e es IH]; intros i Hk; simpl.
  - now destruct (String.eqb k g).
  - rewrite update_key_grouped, (Hk e) by now left.
    rewrite IH by (intros; apply Hk; now right).
    now destruct (String.eqb k g).
Qed.

Lemma get_own_perm {V : Type} (o o' : Js.object V) (k : string) :
  NoDup (map fst o) -> Permutation o o' -> Js.get_own k o = Js.get_own k o'.
Proof.
  intros Hnd Hperm.
  assert (Hnd' : NoDup (map fst o')).
  { eapply Permutation_NoDup; [apply Permutation_map, Hperm | exact Hnd]. }
  destruct (Js.get_own k o) as [v|] eqn:Hk.
  - symmetry. apply ObjectFacts.in_get_own; [assumption|].
    eapply Permutation_in; [exact Hperm|]. now apply ObjectFacts.get_own_in.
  - symmetry. apply ObjectFacts.get_own_none. apply ObjectFacts.get_own_none in Hk.
    intros Hin. apply Hk. eapply Permutation_in; [|exact Hin].
    apply Permutation_map, Permutation_sym, Hperm.
Qed.

Lemma filter_buckets (s : list PointsTableEntry) (g : string)
    (bs : list (string * list PointsTableEntry)) :
  NoDup (map fst bs) ->
  (forall k es, In (k, es) bs -> forall e, In e es -> group_key e = k) ->
  filter (fun u => String.eqb (update_key u) g)
         (flat_map (fun ge => Js.mapi (grouped_update s) (snd ge)) bs)
  = match Js.get_own g bs with
    | Some es => Js.mapi (grouped_update s) es
    | None => []
    end.
Proof.
  induction bs as [|[k es] bs IH]; intros Hnd Hk; [reflexivity|].
  inversion Hnd as [|? ? Hnotin Hnd']; subst.
  cbn [flat_map snd Js.get_own]. rewrite filter_app. unfold Js.mapi at 1.
  rewrite (filter_bucket_updates s es g k 0)
    by (intros e He; apply (Hk k es); [now left | assumption]).
  rewrite IH by (try assumption; intros k' es' Hin; apply (Hk k' es'); now right).
  rewrite (String.eqb_sym g k).
  destruct (String.eqb k g) eqn:Hkg; [|reflexivity].
  apply String.eqb_eq in Hkg; subst k.
  apply ObjectFacts.get_own_none in Hnotin. rewrite Hnotin.
  now rewrite app_nil_r.
Qed.

(** The rows of group [g] are built, in order, from the members of [g] in
    the sorted list. *)
Lemma filter_grouped_updates (s : list PointsTableEntry)
    (acc : Js.object (list PointsTableEntry)) (g : string) :
  Grouping.group_entries group_name s = Some acc ->
  filter (fun u => String.eqb (update_key u) g) (grouped_updates s acc)
  = Js.mapi (grouped_update s) (filter (Grouping.in_group group_name g) s).
Proof.
  intros Hacc. apply GroupingFacts.group_entries_groups in Hacc.
  pose proof Hacc as (Hnd & Hget & _ & _).
  unfold grouped_updates. rewrite filter_buckets.
  - rewrite <- (get_own_perm acc (Js.entries acc) g Hnd)
      by apply Permutation_sym, ObjectFacts.entries_perm.
    rewrite Hget.
    destruct (filter (Grouping.in_group group_name g) s); reflexivity.
  - now apply ObjectFacts.entries_nodup.
  - intros k es Hin e He. apply (proj1 (ObjectFacts.entries_in _ _)) in Hin.
    destruct (GroupingFacts.groups_of_bucket group_name s acc k es Hacc Hin)
      as [-> _].
    apply filter_In in He as [_ He]. now apply String.eqb_eq in He.
Qed.

End AdminFacts.

(** ** The ranking operation: positions *)

Import Admin.

Ltac nodup_strings :=
  repeat (constructor; [simpl; intuition discriminate|]); constructor.

(** C2.  When [autoCalculatePositions] runs on N standings with distinct
    ids, the overall positions in the payload it sends are exactly
    1, ..., N, each once; this holds in the grouped and in the ungrouped
    branch.  (A payload is sent for every non-empty snapshot of a selected
    tournament, unless the grouped branch throws on a label inherited by
    object literals: [AdminFacts.autoCalculatePositions_upserts],
    [AdminFacts.autoCalculatePositions_upserted_inv].) *)
Theorem overall_positions_contiguous (supportsGrouping : bool)
    (selectedTournament : string) (l : list PointsTableEntry)
    (ups : list Update) :
  NoDup (map id l) ->
  autoCalculatePositions supportsGrouping selectedTournament l = Upserted ups ->
  Permutation (map u_position ups) (map Z.of_nat (seq 1 (List.length l))).
Proof.
  intros Hnd Hrun.
  pose proof (AdminFacts.id_position_table _ _ _ _ Hnd Hrun) as Htab.
  apply (Permutation_map snd) in Htab. rewrite !map_map in Htab. simpl in Htab.
  eapply perm_trans; [exact Htab|].
  rewrite AdminFacts.sorted_positions by now apply AdminFacts.sorted_ids_nodup.
  rewrite JsFacts.sort_length. apply Permutation_refl.
Qed.

Lemma overall_positions_contiguous_witness :
  NoDup (map id Samples.two_groups)
  /\ Permutation
       (map u_position
          (payload (autoCalculatePositions true "t1" Samples.two_groups)))
       (map Z.of_nat (seq 1 4)).
Proof.
  assert (Hnd : NoDup (map id Samples.two_groups)) by (simpl; nodup_strings).
  split; [exact Hnd|].
  apply (overall_positions_contiguous true "t1" Samples.two_groups);
    [exact Hnd | reflexivity].
Defined.

(** C3.  In the grouped branch, the rows of the payload that fall in one
    group carry the group positions 1, ..., M in this order, where M is the
    number of records of the snapshot in that group; each group is numbered
    on its own. *)
Theorem group_positions_contiguous (selectedTournament : string)
    (l : list PointsTableEntry) (ups : list Update) (g : string) :
  autoCalculatePositions true selectedTournament l = Upserted ups ->
  map u_position_in_group
      (filter (fun u => String.eqb (update_key u) g) ups)
  = map (fun j => Some (Z.of_nat j))
        (seq 1 (List.length (filter (fun e => String.eqb (group_key e) g) l))).
Proof.
  unfold autoCalculatePositions.
  destruct (String.eqb selectedTournament "" || (List.length l =? 0));
    [discriminate|].
  destruct (Grouping.group_entries group_name (Js.sort byPointsThenKills l))
    as [acc|] eqn:Hacc; [|discriminate].
  intros [= <-].
  rewrite (AdminFacts.filter_grouped_updates _ _ _ Hacc). unfold Js.mapi.
  rewrite (JsFacts.map_mapi_from_index u_position_in_group
             (fun j => Some (Z.of_nat j + 1)%Z)) by reflexivity.
  rewrite <- seq_shift, map_map.
  rewrite (Permutation_length
             (AdminFacts.filter_perm (Grouping.in_group group_name g) _ _
                (JsFacts.sort_perm byPointsThenKills l))).
  apply map_ext. intros j. f_equal. lia.
Qed.

Lemma group_positions_contiguous_witness :
  map u_position_in_group
      (filter (fun u => String.eqb (update_key u) "Y")
         (payload (autoCalculatePositions true "t1" Samples.two_groups)))
  = [Some 1%Z; Some 2%Z].
Proof.
  apply (group_positions_contiguous "t1" Samples.two_groups _ "Y").
  reflexivity.
Defined.

(** The rows of the payload against the records of the snapshot. *)
Lemma frames_preserved (supportsGrouping : bool)
    (selectedTournament : string) (l : list PointsTableEntry)
    (ups : list Update) :
  autoCalculatePositions supportsGrouping selectedTournament l = Upserted ups ->
  Permutation (map update_frame ups) (map (entry_frame supportsGrouping) l).
Proof.
  unfold autoCalculatePositions.
  destruct (String.eqb selectedTournament "" || (List.length l =? 0));
    [discriminate|].
  destruct supportsGrouping.
  - destruct (Grouping.group_entries group_name (Js.sort byPointsThenKills l))
      as [acc|] eqn:Hacc; [|discriminate].
    intros [= <-].
    rewrite (AdminFacts.grouped_updates_map update_frame (entry_frame true))
      by reflexivity.
    apply Permutation_map.
    eapply perm_trans; [apply AdminFacts.buckets_perm; exact Hacc|].
    apply JsFacts.sort_perm.
  - intros [= <-]. unfold Js.mapi.
    rewrite (JsFacts.map_mapi_from update_frame (entry_frame false))
      by reflexivity.
    apply Permutation_map, JsFacts.sort_perm.
Qed.

(** C9.  [autoCalculatePositions] writes the two positions and nothing
    else: the rows of the payload, stripped of [position] and
    [position_in_group], are the records of the snapshot with their [id],
    [tournament_id], [team_id], [team_name], [points], [kills], [wins] and
    [group_name] as stored (the ungrouped branch leaves [group_name] out of
    its rows altogether). *)
Theorem positions_only_written (supportsGrouping : bool)
    (selectedTournament : string) (l : list PointsTableEntry)
    (ups : list Update) :
  autoCalculatePositions supportsGrouping selectedTournament l = Upserted ups ->
  Permutation (map update_frame ups) (map (entry_frame supportsGrouping) l).
Proof. apply frames_preserved. Qed.

Lemma positions_only_written_witness :
  Permutation
    (map update_frame
       (payload (autoCalculatePositions true "t1" Samples.two_groups)))
    (map (entry_frame true) Samples.two_groups).
Proof.
  apply (positions_only_written true "t1" Samples.two_groups). reflexivity.
Defined.

(** ** The ranking operation: ties *)

Lemma filter_eq_split {T : Type} (p : T -> bool) (s a b : list T) (x : T) :
  filter p s = a ++ x :: b ->
  exists s1 s2, s = s1 ++ x :: s2 /\ filter p s1 = a /\ filter p s2 = b.
Proof.
  revert a; induction s as [|y s IH]; intros a H; simpl in H.
  - destruct a; discriminate.
  - destruct (p y) eqn:Hy.
    + destruct a as [|a0 a]; simpl in H; injection H as -> H.
      * exists [], s. repeat split; assumption.
      * destruct (IH a H) as (s1 & s2 & -> & <- & <-).
        exists (a0 :: s1), s2. simpl. rewrite Hy. repeat split.
    + destruct (IH a H) as (s1 & s2 & -> & <- & <-).
      exists (y :: s1), s2. simpl. rewrite Hy. repeat split.
Qed.

(** Records level on points and kills are never swapped by the sort. *)
Lemma level_class_preserved (X : PointsTableEntry) (l : list PointsTableEntry) :
  let level e := ((points e =? points X) && (kills e =? kills X))%Z in
  filter level (Js.sort byPointsThenKills l) = filter level l.
Proof.
  intros level. apply JsFacts.sort_stable. intros x y Hx Hy.
  unfold level in Hx, Hy.
  apply andb_true_iff in Hx as [Hx1 Hx2]. apply andb_true_iff in Hy as [Hy1 Hy2].
  apply Z.eqb_eq in Hx1, Hx2, Hy1, Hy2. unfold byPointsThenKills.
  replace (points y =? points x)%Z with true by (symmetry; apply Z.eqb_eq; lia).
  simpl. lia.
Qed.

Lemma sorted_keeps_level_order (l1 l2 l3 : list PointsTableEntry)
    (X Y : PointsTableEntry) :
  points X = points Y -> kills X = kills Y ->
  exists s1 s2 s3,
    Js.sort byPointsThenKills (l1 ++ X :: l2 ++ Y :: l3)
    = s1 ++ X :: s2 ++ Y :: s3.
Proof.
  intros Hp Hk.
  pose proof (level_class_preserved X (l1 ++ X :: l2 ++ Y :: l3)) as H.
  cbv zeta in H.
  set (level := fun e => ((points e =? points X) && (kills e =? kills X))%Z) in *.
  assert (HX : level X = true) by (unfold level; now rewrite !Z.eqb_refl).
  assert (HY : level Y = true)
    by (unfold level; rewrite <- Hp, <- Hk; now rewrite !Z.eqb_refl).
  rewrite (filter_app level l1) in H. simpl in H. rewrite HX in H.
  rewrite (filter_app level l2) in H. simpl in H. rewrite HY in H.
  apply filter_eq_split in H as (s1 & t & Hs & _ & Ht).
  apply filter_eq_split in Ht as (s2 & s3 & -> & _ & _).
  now exists s1, s2, s3.
Qed.

Lemma position_by_id (supportsGrouping : bool) (selectedTournament : string)
    (l : list PointsTableEntry) (ups : list Update) (u : Update) :
  NoDup (map id l) ->
  autoCalculatePositions supportsGrouping selectedTournament l = Upserted ups ->
  In u ups ->
  u_position u
  = (Js.findIndex (fun e' => String.eqb (id e') (u_id u))
       (Js.sort byPointsThenKills l) + 1)%Z
  /\ In (u_id u) (map id l).
Proof.
  intros Hnd Hrun Hu.
  pose proof (AdminFacts.id_position_table _ _ _ _ Hnd Hrun) as Htab.
  apply (in_map id_position) in Hu.
  apply (Permutation_in _ Htab) in Hu.
  apply in_map_iff in Hu as (e & He & Hin). unfold id_position in He.
  injection He as Hid Hpos. rewrite <- Hpos, <- Hid. split; [reflexivity|].
  apply in_map. now apply (JsFacts.sort_in byPointsThenKills).
Qed.

Lemma update_for_entry (supportsGrouping : bool) (selectedTournament : string)
    (l : list PointsTableEntry) (ups : list Update) (e : PointsTableEntry) :
  NoDup (map id l) ->
  autoCalculatePositions supportsGrouping selectedTournament l = Upserted ups ->
  In e l -> exists u, In u ups /\ u_id u = id e.
Proof.
  intros Hnd Hrun He.
  pose proof (AdminFacts.id_position_table _ _ _ _ Hnd Hrun) as Htab.
  apply (JsFacts.sort_in byPointsThenKills) in He.
  apply (in_map (fun e => (id e,
           Js.findIndex (fun e' => String.eqb (id e') (id e))
             (Js.sort byPointsThenKills l) + 1)%Z)) in He.
  apply (Permutation_in _ (Permutation_sym Htab)) in He.
  apply in_map_iff in He as (u & Hu & Hin). exists u. split; [assumption|].
  unfold id_position in Hu. now injection Hu.
Qed.

(** ** Re-grouping *)

Lemma regroup_ids (rid : string) (g : option string) (l : list PointsTableEntry) :
  map id (regroup rid g l) = map id l.
Proof.
  unfold regroup. rewrite map_map. apply map_ext. intros e.
  now destruct (String.eqb (id e) rid).
Qed.

(** The comparator does not read the label, so sorting and re-labelling
    commute. *)
Lemma sort_regroup (rid : string) (g : option string) (l : list PointsTableEntry) :
  Js.sort byPointsThenKills (regroup rid g l)
  = regroup rid g (Js.sort byPointsThenKills l).
Proof.
  unfold regroup. apply JsFacts.sort_map. intros a b.
  unfold byPointsThenKills.
  now destruct (String.eqb (id a) rid), (String.eqb (id b) rid).
Qed.

Lemma filter_map_fixed {T : Type} (p : T -> bool) (f : T -> T) (s : list T) :
  (forall e, In e s -> p (f e) = p e) ->
  (forall e, In e s -> p e = true -> f e = e) ->
  filter p (map f s) = filter p s.
Proof.
  induction s as [|x s IH]; intros Hp Hf; simpl; [reflexivity|].
  rewrite (Hp x) by now left.
  rewrite IH;
    [| intros e He; apply Hp; now right | intros e He; apply Hf; now right].
  destruct (p x) eqn:Hx; [|reflexivity].
  rewrite (Hf x); [reflexivity | now left | assumption].
Qed.

(** Members of a group other than the old and the new one of [r] are the
    same before and after the change. *)
Lemma other_group_members (r : PointsTableEntry) (g' : option string) (g : string)
    (s : list PointsTableEntry) :
  NoDup (map id s) -> In r s ->
  g <> group_key r -> g <> group_key (set_group_name g' r) ->
  filter (Grouping.in_group group_name g) (regroup (id r) g' s)
  = filter (Grouping.in_group group_name g) s.
Proof.
  intros Hnd Hr Hold Hnew. unfold regroup.
  assert (Hsame : forall e, In e s -> String.eqb (id e) (id r) = true -> e = r).
  { intros e He Hid. apply String.eqb_eq in Hid.
    now apply (AdminFacts.nodup_map_inj id s). }
  assert (Hout : forall k, k <> g -> String.eqb k g = false)
    by (intros k Hk; now apply String.eqb_neq).
  apply filter_map_fixed.
  - intros e He. destruct (String.eqb (id e) (id r)) eqn:Hid; [|reflexivity].
    rewrite (Hsame e He Hid). unfold Grouping.in_group.
    fold (group_key (set_group_name g' r)). fold (group_key r).
    rewrite !Hout; auto.
  - intros e He Hin. destruct (String.eqb (id e) (id r)) eqn:Hid; [|reflexivity].
    rewrite (Hsame e He Hid) in Hin. unfold Grouping.in_group in Hin.
    fold (group_key r) in Hin. rewrite Hout in Hin; [discriminate | auto].
Qed.

Lemma id_position_in_group_mapi (s s' es : list PointsTableEntry) (i : nat) :
  map id_position_in_group (Js.mapi_from i (grouped_update s) es)
  = map id_position_in_group (Js.mapi_from i (grouped_update s') es).
Proof.
  revert i; induction es as [|e es IH]; intros i; simpl; [reflexivity|].
  now rewrite IH.
Qed.

(** Ids and group keys of the rows of the grouped branch. *)
Lemma grouped_id_key_table (selectedTournament : string)
    (l : list PointsTableEntry) (ups : list Update) :
  autoCalculatePositions true selectedTournament l = Upserted ups ->
  Permutation (map (fun u => (u_id u, update_key u)) ups)
              (map (fun e => (id e, group_key e)) (Js.sort byPointsThenKills l)).
Proof.
  unfold autoCalculatePositions.
  destruct (String.eqb selectedTournament "" || (List.length l =? 0));
    [discriminate|].
  destruct (Grouping.group_entries group_name (Js.sort byPointsThenKills l))
    as [acc|] eqn:Hacc; [|discriminate].
  intros [= <-].
  rewrite (AdminFacts.grouped_updates_map (fun u => (u_id u, update_key u))
             (fun e => (id e, group_key e))) by reflexivity.
  apply Permutation_map. now apply AdminFacts.buckets_perm.
Qed.

Lemma grouped_rows_of_group (selectedTournament : string)
    (l : list PointsTableEntry) (ups : list Update) (g : string) :
  autoCalculatePositions true selectedTournament l = Upserted ups ->
  filter (fun u => String.eqb (update_key u) g) ups
  = Js.mapi (grouped_update (Js.sort byPointsThenKills l))
      (filter (Grouping.in_group group_name g) (Js.sort byPointsThenKills l)).
Proof.
  unfold autoCalculatePositions.
  destruct (String.eqb selectedTournament "" || (List.length l =? 0));
    [discriminate|].
  destruct (Grouping.group_entries group_name (Js.sort byPointsThenKills l))
    as [acc|] eqn:Hacc; [|discriminate].
  intros [= <-]. now apply AdminFacts.filter_grouped_updates.
Qed.

Lemma ungrouped_rows_unnumbered (selectedTournament : string)
    (l : list PointsTableEntry) (ups : list Update) (u : Update) :
  autoCalculatePositions false selectedTournament l = Upserted ups ->
  In u ups -> u_position_in_group u = None.
Proof.
  unfold autoCalculatePositions.
  destruct (String.eqb selectedTournament "" || (List.length l =? 0));
    [discriminate|].
  intros [= <-] Hu. apply JsFacts.mapi_from_in in Hu as (e & j & _ & ->).
  reflexivity.
Qed.

Lemma update_ids (supportsGrouping : bool) (selectedTournament : string)
    (l : list PointsTableEntry) (ups : list Update) :
  autoCalculatePositions supportsGrouping selectedTournament l = Upserted ups ->
  Permutation (map u_id ups) (map id l).
Proof.
  intros Hrun. apply frames_preserved in Hrun.
  apply (Permutation_map (fun fr => fst (fst (fst (fst (fst (fst (fst fr)))))))) in Hrun.
  now rewrite !map_map in Hrun.
Qed.

(** ** Ties, continued: the group position *)

(** The row built from the member that stands at place [|F1|] of its
    group. *)
Lemma row_of_member (selectedTournament : string) (l : list PointsTableEntry)
    (ups : list Update) (g : string) (F1 F2 : list PointsTableEntry)
    (e : PointsTableEntry) (u : Update) :
  NoDup (map id l) ->
  autoCalculatePositions true selectedTournament l = Upserted ups ->
  filter (Grouping.in_group group_name g) (Js.sort byPointsThenKills l)
  = F1 ++ e :: F2 ->
  In u ups -> u_id u = id e ->
  u_position_in_group u = Some (Z.of_nat (List.length F1) + 1)%Z.
Proof.
  intros Hnd Hrun HF Hu Hid.
  set (s := Js.sort byPointsThenKills l) in *.
  set (row := grouped_update s e (List.length F1)).
  assert (Hrow : In row ups).
  { assert (H : In row (filter (fun u => String.eqb (update_key u) g) ups)).
    { rewrite (grouped_rows_of_group _ _ _ g Hrun). fold s. rewrite HF.
      unfold Js.mapi. apply (nth_error_In _ (List.length F1)).
      rewrite JsFacts.mapi_from_nth, nth_error_app2, Nat.sub_diag by lia.
      reflexivity. }
    now apply filter_In in H as [H _]. }
  assert (u = row).
  { apply (AdminFacts.nodup_map_inj u_id ups); try assumption.
    eapply Permutation_NoDup;
      [apply Permutation_sym, (update_ids _ _ _ _ Hrun) | exact Hnd]. }
  subst u. reflexivity.
Qed.

(** C4.  The ranking keeps the input order of records that are level on
    points, kills and wins: if X stands before Y in the snapshot and both
    have the same three counters, the row of X gets a smaller overall
    position than the row of Y, and in the grouped branch also a smaller
    group position when both are in the same group (rows are told apart
    by their ids, which are distinct). *)
Theorem level_records_keep_input_order (supportsGrouping : bool)
    (selectedTournament : string) (l1 l2 l3 : list PointsTableEntry)
    (X Y : PointsTableEntry) (ups : list Update) :
  NoDup (map id (l1 ++ X :: l2 ++ Y :: l3)) ->
  points X = points Y -> kills X = kills Y -> wins X = wins Y ->
  autoCalculatePositions supportsGrouping selectedTournament
    (l1 ++ X :: l2 ++ Y :: l3) = Upserted ups ->
  (exists ux, In ux ups /\ u_id ux = id X)
  /\ (exists uy, In uy ups /\ u_id uy = id Y)
  /\ (forall ux uy, In ux ups -> In uy ups ->
        u_id ux = id X -> u_id uy = id Y ->
        (u_position ux < u_position uy)%Z)
  /\ (supportsGrouping = true -> group_key X = group_key Y ->
      forall ux uy, In ux ups -> In uy ups ->
        u_id ux = id X -> u_id uy = id Y ->
        exists px py,
          u_position_in_group ux = Some px
          /\ u_position_in_group uy = Some py /\ (px < py)%Z).
Proof.
  intros Hnd Hp Hk _ Hrun.
  split; [|split; [|split]].
  - apply (update_for_entry _ _ _ _ X Hnd Hrun).
    apply in_or_app. right. now left.
  - apply (update_for_entry _ _ _ _ Y Hnd Hrun).
    apply in_or_app. right. right. apply in_or_app. right. now left.
  - intros ux uy Hux Huy HidX HidY.
    destruct (position_by_id _ _ _ _ ux Hnd Hrun Hux) as [-> _].
    destruct (position_by_id _ _ _ _ uy Hnd Hrun Huy) as [-> _].
    rewrite HidX, HidY.
    pose proof (AdminFacts.sorted_ids_nodup _ Hnd) as Hnds.
    destruct (sorted_keeps_level_order l1 l2 l3 X Y Hp Hk) as (s1 & s2 & s3 & Hs).
    rewrite Hs in *. unfold Js.findIndex.
    rewrite (JsFacts.find_index_from_split id String.eqb String.eqb_eq
               s1 (s2 ++ Y :: s3) X 0 Hnds).
    replace (s1 ++ X :: s2 ++ Y :: s3) with ((s1 ++ X :: s2) ++ Y :: s3) in *
      by (rewrite <- app_assoc; reflexivity).
    rewrite (JsFacts.find_index_from_split id String.eqb String.eqb_eq
               (s1 ++ X :: s2) s3 Y 0 Hnds).
    rewrite length_app. simpl. lia.
  - intros -> Hg ux uy Hux Huy HidX HidY.
    destruct (sorted_keeps_level_order l1 l2 l3 X Y Hp Hk) as (s1 & s2 & s3 & Hs).
    set (g := group_key X).
    set (ing := Grouping.in_group group_name g).
    assert (HX : ing X = true) by apply String.eqb_refl.
    assert (HY : ing Y = true)
      by (unfold ing, Grouping.in_group; fold (group_key Y); rewrite <- Hg;
          apply String.eqb_refl).
    assert (HF : filter ing (Js.sort byPointsThenKills (l1 ++ X :: l2 ++ Y :: l3))
                 = filter ing s1 ++ X :: filter ing s2 ++ Y :: filter ing s3).
    { rewrite Hs, filter_app. simpl. rewrite HX, filter_app. simpl.
      now rewrite HY. }
    exists (Z.of_nat (List.length (filter ing s1)) + 1)%Z,
           (Z.of_nat (List.length (filter ing s1 ++ X :: filter ing s2)) + 1)%Z.
    split; [|split].
    + exact (row_of_member _ _ _ g _ _ X ux Hnd Hrun HF Hux HidX).
    + apply (row_of_member selectedTournament _ ups g
               (filter ing s1 ++ X :: filter ing s2) (filter ing s3) Y uy
               Hnd Hrun); [|assumption|assumption].
      rewrite <- app_assoc. exact HF.
    + rewrite length_app. simpl. lia.
Qed.

Lemma level_records_keep_input_order_witness :
  (exists ux,
      In ux (payload (autoCalculatePositions true "t1" Samples.level))
      /\ u_id ux = "P")
  /\ (exists uy,
        In uy (payload (autoCalculatePositions true "t1" Samples.level))
        /\ u_id uy = "R")
  /\ (forall ux uy,
        In ux (payload (autoCalculatePositions true "t1" Samples.level)) ->
        In uy (payload (autoCalculatePositions true "t1" Samples.level)) ->
        u_id ux = "P" -> u_id uy = "R" -> (u_position ux < u_position uy)%Z)
  /\ (true = true -> "Group A" = "Group A" ->
      forall ux uy,
        In ux (payload (autoCalculatePositions true "t1" Samples.level)) ->
        In uy (payload (autoCalculatePositions true "t1" Samples.level)) ->
        u_id ux = "P" -> u_id uy = "R" ->
        exists px py,
          u_position_in_group ux = Some px
          /\ u_position_in_group uy = Some py /\ (px < py)%Z).
Proof.
  apply (level_records_keep_input_order true "t1"
           [] [Samples.entry "Q" 9 0 0 None] []
           (Samples.entry "P" 4 1 1 (Some "Group A"))
           (Samples.entry "R" 4 1 1 (Some "Group A"))).
  - simpl. nodup_strings.
  - reflexivity.
  - reflexivity.
  - reflexivity.
  - reflexivity.
Defined.

(** ** Re-grouping, continued *)

Lemma regroup_overall_positions (supportsGrouping : bool)
    (selectedTournament : string) (l : list PointsTableEntry)
    (r : PointsTableEntry) (g' : option string) (ups ups' : list Update)
    (u u' : Update) :
  NoDup (map id l) ->
  autoCalculatePositions supportsGrouping selectedTournament l = Upserted ups ->
  autoCalculatePositions supportsGrouping selectedTournament
    (regroup (id r) g' l) = Upserted ups' ->
  In u ups -> In u' ups' -> u_id u = u_id u' ->
  u_position u = u_position u'.
Proof.
  intros Hnd Hrun Hrun' Hu Hu' Hid.
  assert (Hnd' : NoDup (map id (regroup (id r) g' l)))
    by now rewrite regroup_ids.
  destruct (position_by_id _ _ _ _ u Hnd Hrun Hu) as [-> _].
  destruct (position_by_id _ _ _ _ u' Hnd' Hrun' Hu') as [-> _].
  rewrite sort_regroup, <- Hid. unfold Js.findIndex.
  rewrite (JsFacts.find_index_from_keys id
             (Js.sort byPointsThenKills l)
             (regroup (id r) g' (Js.sort byPointsThenKills l)) 0
             (fun k => String.eqb k (u_id u)));
    [reflexivity | symmetry; apply regroup_ids].
Qed.

Lemma regroup_group_positions (selectedTournament : string)
    (l : list PointsTableEntry) (r : PointsTableEntry) (g' : option string)
    (ups ups' : list Update) (u u' : Update) :
  NoDup (map id l) -> In r l ->
  autoCalculatePositions true selectedTournament l = Upserted ups ->
  autoCalculatePositions true selectedTournament (regroup (id r) g' l)
    = Upserted ups' ->
  In u ups -> In u' ups' -> u_id u = u_id u' ->
  update_key u <> group_key r ->
  update_key u <> group_key (set_group_name g' r) ->
  u_position_in_group u = u_position_in_group u'.
Proof.
  intros Hnd Hr Hrun Hrun' Hu Hu' Hid Hold Hnew.
  set (s := Js.sort byPointsThenKills l).
  assert (Hnds : NoDup (map id s)) by now apply AdminFacts.sorted_ids_nodup.
  assert (Hrs : In r s) by now apply (JsFacts.sort_in byPointsThenKills).
  (* the record behind [u] and the one behind [u'] *)
  pose proof (grouped_id_key_table _ _ _ Hrun) as Htab.
  pose proof (grouped_id_key_table _ _ _ Hrun') as Htab'.
  rewrite sort_regroup in Htab'. fold s in Htab, Htab'.
  apply (in_map (fun u => (u_id u, update_key u))) in Hu as Hu1.
  apply (Permutation_in _ Htab) in Hu1.
  apply in_map_iff in Hu1 as (e & He & Hes). injection He as Heid Hekey.
  apply (in_map (fun u => (u_id u, update_key u))) in Hu' as Hu1'.
  apply (Permutation_in _ Htab') in Hu1'.
  apply in_map_iff in Hu1' as (e' & He' & Hes'). injection He' as Heid' Hekey'.
  unfold regroup in Hes'. apply in_map_iff in Hes' as (e0 & <- & He0).
  assert (Hid0 : id e0 = id e).
  { rewrite Heid, Hid, <- Heid'. now destruct (String.eqb (id e0) (id r)). }
  assert (e0 = e) by now apply (AdminFacts.nodup_map_inj id s).
  subst e0.
  assert (Hne : String.eqb (id e) (id r) = false).
  { destruct (String.eqb (id e) (id r)) eqn:Hq; [|reflexivity].
    apply String.eqb_eq in Hq.
    assert (e = r) by now apply (AdminFacts.nodup_map_inj id s).
    subst e. congruence. }
  rewrite Hne in Hekey'.
  (* both rows belong to the same, untouched, group *)
  set (g := update_key u) in *.
  assert (Hug : In u (filter (fun u => String.eqb (update_key u) g) ups)).
  { apply filter_In. split; [assumption | apply String.eqb_refl]. }
  assert (Hug' : In u' (filter (fun u => String.eqb (update_key u) g) ups')).
  { apply filter_In. split; [assumption|]. apply String.eqb_eq. congruence. }
  rewrite (grouped_rows_of_group _ _ _ g Hrun') in Hug'.
  rewrite sort_regroup in Hug'. fold s in Hug'.
  rewrite (other_group_members r g' g s Hnds Hrs) in Hug' by assumption.
  apply (in_map id_position_in_group) in Hug'. unfold Js.mapi in Hug'.
  rewrite (id_position_in_group_mapi _ s) in Hug'.
  apply in_map_iff in Hug' as (u2 & Hu2 & Hin2).
  fold (Js.mapi (grouped_update s)
          (filter (Grouping.in_group group_name g) s)) in Hin2.
  unfold s in Hin2. rewrite <- (grouped_rows_of_group _ _ _ g Hrun) in Hin2.
  apply filter_In in Hin2 as [Hin2 _].
  injection Hu2 as Hid2 Hpig2.
  assert (u2 = u).
  { apply (AdminFacts.nodup_map_inj u_id ups); try assumption; [|congruence].
    eapply Permutation_NoDup;
      [apply Permutation_sym, (update_ids _ _ _ _ Hrun) | exact Hnd]. }
  subst u2. exact Hpig2.
Qed.

(** C5.  Changing only the group label of one record [r] and ranking again
    leaves the overall position of every record as it was, and leaves the
    group position of every record whose group is neither the old nor the
    new group of [r] as it was; the two payloads cover the same ids. *)
Theorem regrouping_keeps_overall_positions (supportsGrouping : bool)
    (selectedTournament : string) (l : list PointsTableEntry)
    (r : PointsTableEntry) (g' : option string) (ups ups' : list Update) :
  NoDup (map id l) -> In r l ->
  autoCalculatePositions supportsGrouping selectedTournament l = Upserted ups ->
  autoCalculatePositions supportsGrouping selectedTournament
    (regroup (id r) g' l) = Upserted ups' ->
  Permutation (map u_id ups) (map u_id ups')
  /\ (forall u u', In u ups -> In u' ups' -> u_id u = u_id u' ->
        u_position u = u_position u')
  /\ (forall u u', In u ups -> In u' ups' -> u_id u = u_id u' ->
        update_key u <> group_key r ->
        update_key u <> group_key (set_group_name g' r) ->
        u_position_in_group u = u_position_in_group u').
Proof.
  intros Hnd Hr Hrun Hrun'. split; [|split].
  - eapply perm_trans; [apply (update_ids _ _ _ _ Hrun)|].
    rewrite <- (regroup_ids (id r) g' l).
    apply Permutation_sym, (update_ids _ _ _ _ Hrun').
  - intros u u' Hu Hu' Hid.
    apply (regroup_overall_positions supportsGrouping selectedTournament
             l r g' ups ups' u u'); assumption.
  - intros u u' Hu Hu' Hid Hold Hnew. destruct supportsGrouping.
    + now apply (regroup_group_positions selectedTournament l r g' ups ups').
    + rewrite (ungrouped_rows_unnumbered _ _ _ u Hrun Hu).
      now rewrite (ungrouped_rows_unnumbered _ _ _ u' Hrun' Hu').
Qed.

Lemma regrouping_keeps_overall_positions_witness :
  Permutation
    (map u_id (payload (autoCalculatePositions true "t1" Samples.two_groups)))
    (map u_id (payload (autoCalculatePositions true "t1"
                          (regroup "a" (Some "Z") Samples.two_groups))))
  /\ (forall u u',
        In u (payload (autoCalculatePositions true "t1" Samples.two_groups)) ->
        In u' (payload (autoCalculatePositions true "t1"
                          (regroup "a" (Some "Z") Samples.two_groups))) ->
        u_id u = u_id u' -> u_position u = u_position u')
  /\ (forall u u',
        In u (payload (autoCalculatePositions true "t1" Samples.two_groups)) ->
        In u' (payload (autoCalculatePositions true "t1"
                          (regroup "a" (Some "Z") Samples.two_groups))) ->
        u_id u = u_id u' ->
        update_key u <> "X" -> update_key u <> "Z" ->
        u_position_in_group u = u_position_in_group u').
Proof.
  apply (regrouping_keeps_overall_positions true "t1" Samples.two_groups
           (Samples.entry "a" 3 0 0 (Some "X")) (Some "Z")).
  - simpl. nodup_strings.
  - simpl. auto.
  - reflexivity.
  - reflexivity.
Defined.

(** ** The comparator and the third counter *)

(** The comparator of [autoCalculatePositions] never reads [wins]. *)
Lemma byPointsThenKills_ignores_wins (a b a' b' : PointsTableEntry) :
  points a = points a' -> kills a = kills a' ->
  points b = points b' -> kills b = kills b' ->
  byPointsThenKills a b = byPointsThenKills a' b'.
Proof.
  intros Hpa Hka Hpb Hkb. unfold byPointsThenKills.
  now rewrite Hpa, Hka, Hpb, Hkb.
Qed.

(** C1 (the code departs from the claim).  On a snapshot of two records
    level on points and kills, the second with more wins,
    [autoCalculatePositions] ranks the first one first in both branches:
    the record with more wins gets position 2. *)
Theorem wins_do_not_break_ties_in_admin_ranking :
  map id_position
      (payload (autoCalculatePositions false "t1" Samples.level_but_for_wins))
  = [("X", 1%Z); ("Y", 2%Z)]
  /\ map id_position
       (payload (autoCalculatePositions true "t1" Samples.level_but_for_wins))
     = [("X", 1%Z); ("Y", 2%Z)]
  /\ map id_position_in_group
       (payload (autoCalculatePositions true "t1" Samples.level_but_for_wins))
     = [("X", Some 1%Z); ("Y", Some 2%Z)].
Proof. repeat split. Qed.

(** The participant view sorts the same two records by wins as well and
    numbers the one with more wins first. *)
Lemma display_breaks_ties_on_wins :
  option_map
    (map (fun ge => (fst ge,
                     map (fun e => (Display.id e, Display.position_in_group e))
                         (snd ge))))
    (Display.groupedEntries true Samples.shown_level_but_for_wins)
  = Some [("Group A", [("Y", Some 1%Z); ("X", Some 2%Z)])].
Proof. reflexivity. Qed.

(** The comparator of the participant view is the three-key order. *)
Lemma byPointsKillsWins_spec (a b : Display.PointsEntry) :
  (Display.byPointsKillsWins a b < 0)%Z <->
  (Display.points a > Display.points b)%Z
  \/ (Display.points a = Display.points b
      /\ Display.kills a > Display.kills b)%Z
  \/ (Display.points a = Display.points b
      /\ Display.kills a = Display.kills b
      /\ Display.wins a > Display.wins b)%Z.
Proof.
  unfold Display.byPointsKillsWins.
  destruct (Display.points b =? Display.points a)%Z eqn:Hp; simpl.
  - apply Z.eqb_eq in Hp.
    destruct (Display.kills b =? Display.kills a)%Z eqn:Hk; simpl.
    + apply Z.eqb_eq in Hk. lia.
    + apply Z.eqb_neq in Hk. lia.
  - apply Z.eqb_neq in Hp. lia.
Qed.

(** The participant view numbers every group 1, ..., M as well. *)
Lemma display_group_positions_contiguous
    (pointsEntries : list Display.PointsEntry)
    (ge : Js.object (list Display.PointsEntry)) (k : string)
    (es : list Display.PointsEntry) :
  Display.groupedEntries true pointsEntries = Some ge ->
  In (k, es) ge ->
  map Display.position_in_group es
  = map (fun j => Some (Z.of_nat j))
        (seq 1 (List.length
                  (filter (fun e => String.eqb (Display.group_key e) k)
                          pointsEntries))).
Proof.
  unfold Display.groupedEntries.
  destruct (Grouping.group_entries Display.group_name pointsEntries)
    as [acc|] eqn:Hacc; [|discriminate].
  intros [= <-] Hin. apply in_map_iff in Hin as ([k0 es0] & Heq & Hin).
  simpl in Heq. injection Heq as -> <-.
  apply GroupingFacts.group_entries_groups in Hacc.
  destruct (GroupingFacts.groups_of_bucket _ _ _ _ _ Hacc Hin) as [-> _].
  unfold Js.mapi.
  rewrite (JsFacts.map_mapi_from_index Display.position_in_group
             (fun j => Some (Z.of_nat j + 1)%Z)) by reflexivity.
  rewrite JsFacts.sort_length, <- seq_shift, map_map.
  apply map_ext. intros j. f_equal. lia.
Qed.

(** ** Validation *)

(** What the group-count input stores: any non-zero integer typed in, and
    4 for zero or for text that does not parse. *)
Lemma onChange_numberOfGroups_examples :
  map onChange_numberOfGroups ["1"; "9"; "-3"; "0"; ""; "abc"; "3"]
  = [1; 9; -3; 4; 4; 4; 3]%Z.
Proof. reflexivity. Qed.


Lemma group_letter_exists (k : nat) :
  k < 8 -> exists letter, nth_error group_letters k = Some letter.
Proof.
  intros Hk. do 8 (destruct k as [|k]; [eexists; reflexivity|]). lia.
Qed.

(** The label of index [i] for a count between 1 and 8. *)
Lemma group_label_in_range (G : Z) (i : nat) :
  (1 <= G <= 8)%Z ->
  exists letter,
    nth_error group_letters (i mod Z.to_nat G) = Some letter
    /\ group_label G i = String.append "Group " letter.
Proof.
  intros HG. unfold group_label, Js.slice0, Js.remainder, Js.index.
  replace (G <? 0)%Z with false by (symmetry; apply Z.ltb_ge; lia).
  replace (G =? 0)%Z with false by (symmetry; apply Z.eqb_neq; lia).
  assert (Hrem : Z.rem (Z.of_nat i) G = Z.of_nat (i mod Z.to_nat G)).
  { rewrite Z.rem_mod_nonneg by lia.
    rewrite Nat2Z.inj_mod, Z2Nat.id by lia. reflexivity. }
  rewrite Hrem.
  replace (Z.of_nat (i mod Z.to_nat G) <? 0)%Z with false
    by (symmetry; apply Z.ltb_ge; lia).
  rewrite Nat2Z.id.
  assert (Hlt : i mod Z.to_nat G < Z.to_nat G)
    by (apply Nat.mod_upper_bound; lia).
  destruct (group_letter_exists (i mod Z.to_nat G)) as [letter Hl]; [lia|].
  exists letter. split; [assumption|].
  rewrite nth_error_firstn.
  replace (i mod Z.to_nat G <? Z.to_nat G) with true
    by (symmetry; now apply Nat.ltb_lt).
  now rewrite Hl.
Qed.

Lemma autoAssignGroups_upserts (G : Z) (selectedTournament : string)
    (l : list PointsTableEntry) :
  selectedTournament <> "" -> l <> [] ->
  autoAssignGroups G selectedTournament l
  = Upserted (map assign_update (assigned_entries G l)).
Proof.
  intros Ht Hl. unfold autoAssignGroups. apply String.eqb_neq in Ht.
  rewrite Ht. destruct l; [contradiction | reflexivity].
Qed.

Lemma assigned_row (G : Z) (l : list PointsTableEntry) (i : nat)
    (e : PointsTableEntry) :
  nth_error l i = Some e ->
  nth_error (map assign_update (assigned_entries G l)) i
  = Some (assign_update (set_group_name (Some (group_label G i)) e)).
Proof.
  intros He. rewrite nth_error_map. unfold assigned_entries, Js.mapi.
  rewrite JsFacts.mapi_from_nth, He. reflexivity.
Qed.





(** C7 (counterexample).  A batch with negative counters is not rejected:
    it is ranked, the record with -5 points after the one with 3. *)
Lemma negative_counters_are_ranked :
  autoCalculatePositions false "t1" Samples.with_negative
  = Upserted
      [ungrouped_update (Samples.entry "n" 3 (-2) 0 None) 0;
       ungrouped_update (Samples.entry "m" (-5) 0 0 None) 1].
Proof. reflexivity. Qed.

(** [saveEdit] stores what [parseInt] reads, sign included; input that
    does not parse, and zero, become the default. *)
Lemma saveEdit_keeps_negative_points :
  saveEdit_updateData false Samples.negative_form
  = {| d_points := -5; d_kills := 3; d_wins := 0; d_position := 2;
       d_group_name := None |}.
Proof. reflexivity. Qed.

(** C7 (amended).  [autoCalculatePositions] does not validate counters and
    rejects no batch on their account: for every non-empty snapshot of a
    selected tournament, whatever the sign of its points, kills and wins,
    it sends a payload with exactly one row per record (in the grouped
    branch provided no label is a name inherited by object literals), and
    with distinct ids these rows carry the positions 1, ..., N. *)
Theorem counters_are_not_validated (supportsGrouping : bool)
    (selectedTournament : string) (l : list PointsTableEntry) :
  selectedTournament <> "" -> l <> [] ->
  (supportsGrouping = true -> labels_ok l) ->
  exists ups,
    autoCalculatePositions supportsGrouping selectedTournament l = Upserted ups
    /\ Permutation (map u_id ups) (map id l)
    /\ (NoDup (map id l) ->
        Permutation (map u_position ups)
                    (map Z.of_nat (seq 1 (List.length l)))).
Proof.
  intros Ht Hl Hok.
  destruct (AdminFacts.autoCalculatePositions_upserts _ _ _ Ht Hl Hok)
    as [ups Hrun].
  exists ups. split; [assumption|]. split; [now apply (update_ids _ _ _ _ Hrun)|].
  intros Hnd.
  pose proof (AdminFacts.id_position_table _ _ _ _ Hnd Hrun) as Htab.
  apply (Permutation_map snd) in Htab. rewrite !map_map in Htab. simpl in Htab.
  eapply perm_trans; [exact Htab|].
  rewrite AdminFacts.sorted_positions by now apply AdminFacts.sorted_ids_nodup.
  rewrite JsFacts.sort_length. apply Permutation_refl.
Qed.

Lemma counters_are_not_validated_witness :
  exists ups,
    autoCalculatePositions true "t1" Samples.with_negative = Upserted ups
    /\ Permutation (map u_id ups) ["m"; "n"].
Proof.
  destruct (counters_are_not_validated true "t1" Samples.with_negative)
    as (ups & Hrun & Hids & _).
  - discriminate.
  - discriminate.
  - intros _. repeat constructor.
  - exists ups. split; [exact Hrun | exact Hids].
Defined.

(** ** Round-robin group assignment *)

(** C8.  For a group count G between 2 and 8, [autoAssignGroups] labels
    the record at index [i] of the list with [Group] followed by letter
    number [i mod G] of A..H, in list order; in particular seven records
    and G = 3 get A, B, C, A, B, C, A, that is groups of 3, 2 and 2. *)
Theorem round_robin_labels :
  (forall (G : Z) (selectedTournament : string) (l : list PointsTableEntry)
          (i : nat) (e : PointsTableEntry),
      (2 <= G <= 8)%Z -> selectedTournament <> "" ->
      nth_error l i = Some e ->
      exists ups u letter,
        autoAssignGroups G selectedTournament l = Upserted ups
        /\ List.length ups = List.length l
        /\ nth_error ups i = Some u
        /\ u_id u = id e
        /\ nth_error group_letters (i mod Z.to_nat G) = Some letter
        /\ u_group_name u = Some (Some (String.append "Group " letter)))
  /\ (forall (selectedTournament : string) (l : list PointsTableEntry),
      selectedTournament <> "" -> List.length l = 7 ->
      map u_group_name (payload (autoAssignGroups 3 selectedTournament l))
      = map (fun g => Some (Some g))
            ["Group A"; "Group B"; "Group C"; "Group A"; "Group B";
             "Group C"; "Group A"]
      /\ map (fun g =>
                List.length
                  (filter (fun u => String.eqb (update_key u) g)
                     (payload (autoAssignGroups 3 selectedTournament l))))
             ["Group A"; "Group B"; "Group C"]
         = [3; 2; 2]).
Proof.
  split.
  - intros G t l i e HG Ht He.
    assert (Hl : l <> []) by (intros ->; destruct i; discriminate).
    destruct (group_label_in_range G i) as (letter & Hl1 & Hl2); [lia|].
    exists (map assign_update (assigned_entries G l)),
           (assign_update (set_group_name (Some (group_label G i)) e)), letter.
    split; [now apply autoAssignGroups_upserts|].
    split; [rewrite length_map; apply JsFacts.mapi_length|].
    split; [now apply assigned_row|].
    split; [reflexivity|]. split; [assumption|].
    simpl. now rewrite Hl2.
  - intros t l Ht Hlen.
    rewrite autoAssignGroups_upserts;
      [| assumption | intros ->; discriminate].
    do 8 (destruct l as [|? l]; try discriminate).
    split; reflexivity.
Qed.

Lemma round_robin_labels_witness :
  (exists ups u letter,
      autoAssignGroups 3 "t1" Samples.seven = Upserted ups
      /\ List.length ups = List.length Samples.seven
      /\ nth_error ups 4 = Some u
      /\ u_id u = "5"
      /\ nth_error group_letters (4 mod Z.to_nat 3) = Some letter
      /\ u_group_name u = Some (Some (String.append "Group " letter)))
  /\ map u_group_name (payload (autoAssignGroups 3 "t1" Samples.seven))
     = map (fun g => Some (Some g))
           ["Group A"; "Group B"; "Group C"; "Group A"; "Group B";
            "Group C"; "Group A"].
Proof.
  split.
  - apply (proj1 round_robin_labels 3%Z "t1" Samples.seven 4
             (Samples.entry "5" 0 0 0 None)).
    + lia.
    + discriminate.
    + reflexivity.
  - apply (proj2 round_robin_labels "t1" Samples.seven).
    + discriminate.
    + reflexivity.
Defined.

(** ** Team sizes *)





(** White space around a size is stripped whatever its kind: a no-break
    space (U+00A0), a byte order mark (U+FEFF), a line separator (U+2028)
    and an ideographic space (U+3000) count like a blank, and so does a
    byte 160 that stands alone. *)
Lemma parseTeamSize_strips_white_space :
  map (fun s => Display.parseTeamSize (Js.Str s))
      [ String "194" (String "160" "4");
        String "160" "4";
        String "239" (String "187" (String "191" "7"));
        String "226" (String "128" (String "168" "Squad"));
        String.append "duo" (String "227" (String "128" (String "128" " ")));
        String.append " 3 " (String "009" (String "010" "")) ]
  = [Js.Num 4; Js.Num 4; Js.Num 7; Js.Num 4; Js.Num 2; Js.Num 3].
Proof. reflexivity. Qed.



(* ================================================================== *)
(** * Part III: further properties of the two components               *)
(* ================================================================== *)

(** ** What [Array.prototype.sort] guarantees for an order-like comparator *)
Module SortOrder.
Section Ordered.
Context {A : Type} (cmp : A -> A -> Z).

Local Abbreviation R := (fun a b : A => (cmp a b <= 0)%Z).

(** The comparator never asks for both orders at once ... *)
Hypothesis cmp_total : forall a b, (0 < cmp a b)%Z -> (cmp b a <= 0)%Z.
(** ... and is transitive. *)
Hypothesis cmp_trans :
  forall a b c, (cmp a b <= 0)%Z -> (cmp b c <= 0)%Z -> (cmp a c <= 0)%Z.

Lemma insert_sorted (x : A) (l : list A) :
  Sorted R l -> Sorted R (Js.insert cmp x l).
Proof.
  induction l as [|y l IH]; intros Hs; simpl.
  - repeat constructor.
  - destruct (cmp x y <=? 0)%Z eqn:Hxy.
    + apply Z.leb_le in Hxy. constructor; [assumption | now constructor].
    + apply Z.leb_gt in Hxy. inversion Hs as [|? ? Hs' Hhd]; subst.
      constructor; [now apply IH|].
      destruct l as [|z l]; simpl.
      * constructor. now apply cmp_total.
      * destruct (cmp x z <=? 0)%Z; constructor.
        -- now apply cmp_total.
        -- now inversion Hhd.
Qed.

Lemma sort_sorted (l : list A) : Sorted R (Js.sort cmp l).
Proof.
  induction l as [|x l IH]; simpl; [constructor | now apply insert_sorted].
Qed.

Lemma sort_strongly_sorted (l : list A) : StronglySorted R (Js.sort cmp l).
Proof.
  apply Sorted_StronglySorted; [|apply sort_sorted].
  intros a b c. apply cmp_trans.
Qed.

(** Sorting a list that is in order already leaves it alone. *)
Lemma sort_sorted_id (l : list A) : Sorted R l -> Js.sort cmp l = l.
Proof.
  induction l as [|x l IH]; intros Hs; simpl; [reflexivity|].
  inversion Hs as [|? ? Hs' Hhd]; subst. rewrite IH by assumption.
  destruct l as [|y l]; simpl; [reflexivity|].
  inversion Hhd; subst.
  replace (cmp x y <=? 0)%Z with true by (symmetry; now apply Z.leb_le).
  reflexivity.
Qed.

Lemma sort_idempotent (l : list A) :
  Js.sort cmp (Js.sort cmp l) = Js.sort cmp l.
Proof. apply sort_sorted_id, sort_sorted. Qed.

Lemma strongly_sorted_nth (s : list A) (i j : nat) (x y : A) :
  StronglySorted R s -> i < j ->
  nth_error s i = Some x -> nth_error s j = Some y -> (cmp x y <= 0)%Z.
Proof.
  intros Hs. revert i j. induction Hs as [|a s Hs IH Hall]; intros i j Hij Hi Hj.
  - destruct i; discriminate.
  - destruct j as [|j]; [lia|]. simpl in Hj. destruct i as [|i]; simpl in Hi.
    + injection Hi as <-. apply nth_error_In in Hj.
      now apply (proj1 (Forall_forall _ _) Hall).
    + apply (IH i j); [lia | assumption | assumption].
Qed.

(** An element that the comparator puts strictly first stands first. *)
Lemma sort_strict_order (l : list A) (i j : nat) (x y : A) :
  nth_error (Js.sort cmp l) i = Some x ->
  nth_error (Js.sort cmp l) j = Some y ->
  (cmp x y < 0)%Z -> (0 < cmp y x)%Z -> (cmp x x = 0)%Z -> i < j.
Proof.
  intros Hi Hj Hxy Hyx Hxx.
  destruct (Nat.lt_trichotomy i j) as [H|[H|H]]; [assumption| |].
  - subst j. rewrite Hi in Hj. injection Hj as <-. lia.
  - pose proof (strongly_sorted_nth _ j i y x (sort_strongly_sorted l) H Hj Hi).
    lia.
Qed.

(** Two sorted arrangements of the same elements coincide when the
    comparator tells all of them apart. *)
Lemma sorted_perm_unique (a b : list A) :
  StronglySorted R a -> StronglySorted R b -> Permutation a b ->
  (forall x y, In x a -> In y a ->
     (cmp x y <= 0)%Z -> (cmp y x <= 0)%Z -> x = y) ->
  a = b.
Proof.
  intros Ha. revert b. induction Ha as [|x a Ha IH Hxa]; intros b Hb Hperm Hanti.
  - apply Permutation_nil in Hperm. now subst.
  - destruct b as [|y b]; [apply Permutation_sym, Permutation_nil in Hperm; discriminate|].
    inversion Hb as [|? ? Hb' Hyb]; subst.
    assert (Hxy : x = y).
    { assert (Hx : In x (y :: b)) by (eapply Permutation_in; [exact Hperm | now left]).
      assert (Hy : In y (x :: a))
        by (eapply Permutation_in; [apply Permutation_sym, Hperm | now left]).
      destruct Hx as [Hx|Hx]; [now symmetry|].
      destruct Hy as [Hy|Hy]; [assumption|].
      apply Hanti; [now left | now right | |].
      - now apply (proj1 (Forall_forall _ _) Hxa).
      - now apply (proj1 (Forall_forall _ _) Hyb). }
    subst y. f_equal. apply IH; [assumption | |].
    + now apply Permutation_cons_inv in Hperm.
    + intros u v Hu Hv. apply Hanti; now right.
Qed.

Lemma sort_perm_unique (l1 l2 : list A) :
  Permutation l1 l2 ->
  (forall x y, In x l1 -> In y l1 ->
     (cmp x y <= 0)%Z -> (cmp y x <= 0)%Z -> x = y) ->
  Js.sort cmp l1 = Js.sort cmp l2.
Proof.
  intros Hperm Hanti. apply sorted_perm_unique.
  - apply sort_strongly_sorted.
  - apply sort_strongly_sorted.
  - eapply perm_trans; [apply JsFacts.sort_perm|].
    eapply perm_trans; [exact Hperm | apply Permutation_sym, JsFacts.sort_perm].
  - intros x y Hx Hy. apply Hanti; now apply (JsFacts.sort_in cmp).
Qed.
End Ordered.

Lemma byPointsThenKills_total (a b : PointsTableEntry) :
  (0 < byPointsThenKills a b)%Z -> (byPointsThenKills b a <= 0)%Z.
Proof.
  unfold byPointsThenKills.
  destruct (Z.eqb_spec (points b) (points a));
    destruct (Z.eqb_spec (points a) (points b)); simpl; lia.
Qed.

Lemma byPointsThenKills_trans (a b c : PointsTableEntry) :
  (byPointsThenKills a b <= 0)%Z -> (byPointsThenKills b c <= 0)%Z ->
  (byPointsThenKills a c <= 0)%Z.
Proof.
  unfold byPointsThenKills.
  destruct (Z.eqb_spec (points b) (points a));
    destruct (Z.eqb_spec (points c) (points b));
    destruct (Z.eqb_spec (points c) (points a)); simpl; lia.
Qed.

Lemma byPointsKillsWins_total (a b : Display.PointsEntry) :
  (0 < Display.byPointsKillsWins a b)%Z -> (Display.byPointsKillsWins b a <= 0)%Z.
Proof.
  unfold Display.byPointsKillsWins.
  destruct (Z.eqb_spec (Display.points b) (Display.points a));
    destruct (Z.eqb_spec (Display.points a) (Display.points b));
    destruct (Z.eqb_spec (Display.kills b) (Display.kills a));
    destruct (Z.eqb_spec (Display.kills a) (Display.kills b)); simpl; lia.
Qed.

Lemma byPointsKillsWins_trans (a b c : Display.PointsEntry) :
  (Display.byPointsKillsWins a b <= 0)%Z ->
  (Display.byPointsKillsWins b c <= 0)%Z ->
  (Display.byPointsKillsWins a c <= 0)%Z.
Proof.
  unfold Display.byPointsKillsWins.
  destruct (Z.eqb_spec (Display.points b) (Display.points a));
    destruct (Z.eqb_spec (Display.points c) (Display.points b));
    destruct (Z.eqb_spec (Display.points c) (Display.points a));
    destruct (Z.eqb_spec (Display.kills b) (Display.kills a));
    destruct (Z.eqb_spec (Display.kills c) (Display.kills b));
    destruct (Z.eqb_spec (Display.kills c) (Display.kills a)); simpl; lia.
Qed.
End SortOrder.

(** ** Ranking order *)

Lemma byPointsThenKills_strict (a b : PointsTableEntry) :
  (points b < points a \/ (points a = points b /\ kills b < kills a))%Z ->
  (byPointsThenKills a b < 0)%Z /\ (0 < byPointsThenKills b a)%Z
  /\ byPointsThenKills a a = 0%Z.
Proof.
  unfold byPointsThenKills. rewrite Z.eqb_refl. simpl.
  destruct (Z.eqb_spec (points b) (points a));
    destruct (Z.eqb_spec (points a) (points b)); simpl; lia.
Qed.

(** X1.  What [autoCalculatePositions] does order by: a record with more
    points, or with the same points and more kills, gets the smaller
    overall position, wherever the two records stand in the snapshot. *)
Theorem more_points_then_kills_ranks_first (supportsGrouping : bool)
    (selectedTournament : string) (l : list PointsTableEntry)
    (A B : PointsTableEntry) (ups : list Update) (ua ub : Update) :
  NoDup (map id l) -> In A l -> In B l ->
  (points B < points A \/ (points A = points B /\ kills B < kills A))%Z ->
  autoCalculatePositions supportsGrouping selectedTournament l = Upserted ups ->
  In ua ups -> In ub ups -> u_id ua = id A -> u_id ub = id B ->
  (u_position ua < u_position ub)%Z.
Proof.
  intros Hnd HA HB Hbetter Hrun Hua Hub HidA HidB.
  destruct (byPointsThenKills_strict A B Hbetter) as (Hab & Hba & Haa).
  apply (JsFacts.sort_in byPointsThenKills) in HA, HB.
  apply In_nth_error in HA as [i Hi]. apply In_nth_error in HB as [j Hj].
  assert (Hij : i < j).
  { apply (SortOrder.sort_strict_order byPointsThenKills
             SortOrder.byPointsThenKills_total SortOrder.byPointsThenKills_trans
             l i j A B); assumption. }
  destruct (position_by_id _ _ _ _ ua Hnd Hrun Hua) as [-> _].
  destruct (position_by_id _ _ _ _ ub Hnd Hrun Hub) as [-> _].
  rewrite HidA, HidB.
  pose proof (AdminFacts.sorted_ids_nodup _ Hnd) as Hnds.
  rewrite (AdminFacts.findIndex_nth _ i A Hnds Hi).
  rewrite (AdminFacts.findIndex_nth _ j B Hnds Hj). lia.
Qed.

Lemma more_points_then_kills_ranks_first_witness :
  (u_position (ungrouped_update (Samples.entry "B" 10 3 0 None) 0)
   < u_position (ungrouped_update (Samples.entry "A" 10 2 1 None) 1))%Z.
Proof.
  apply (more_points_then_kills_ranks_first false "t1" Samples.scenario
           (Samples.entry "B" 10 3 0 None) (Samples.entry "A" 10 2 1 None)
           (payload (autoCalculatePositions false "t1" Samples.scenario))).
  - simpl. nodup_strings.
  - simpl. auto.
  - simpl. auto.
  - right. simpl. lia.
  - reflexivity.
  - simpl. auto.
  - simpl. auto.
  - reflexivity.
  - reflexivity.
Defined.

Lemma byPointsKillsWins_strict (a b : Display.PointsEntry) :
  (Display.points b < Display.points a
   \/ (Display.points a = Display.points b
       /\ Display.kills b < Display.kills a)
   \/ (Display.points a = Display.points b
       /\ Display.kills a = Display.kills b
       /\ Display.wins b < Display.wins a))%Z ->
  (Display.byPointsKillsWins a b < 0)%Z
  /\ (0 < Display.byPointsKillsWins b a)%Z
  /\ Display.byPointsKillsWins a a = 0%Z.
Proof.
  unfold Display.byPointsKillsWins. rewrite !Z.eqb_refl. simpl.
  destruct (Z.eqb_spec (Display.points b) (Display.points a));
    destruct (Z.eqb_spec (Display.points a) (Display.points b));
    destruct (Z.eqb_spec (Display.kills b) (Display.kills a));
    destruct (Z.eqb_spec (Display.kills a) (Display.kills b)); simpl; lia.
Qed.

(** The rows of one group table, before they are drawn. *)
Lemma display_bucket_shape (pointsEntries : list Display.PointsEntry)
    (ge : Js.object (list Display.PointsEntry)) (k : string)
    (es : list Display.PointsEntry) :
  Display.groupedEntries true pointsEntries = Some ge ->
  In (k, es) ge ->
  es = Js.mapi Display.set_position_in_group
         (Js.sort Display.byPointsKillsWins
            (filter (Grouping.in_group Display.group_name k) pointsEntries))
  /\ filter (Grouping.in_group Display.group_name k) pointsEntries <> [].
Proof.
  unfold Display.groupedEntries.
  destruct (Grouping.group_entries Display.group_name pointsEntries)
    as [acc|] eqn:Hacc; [|discriminate].
  intros [= <-] Hin. apply in_map_iff in Hin as ([k0 es0] & Heq & Hin).
  simpl in Heq. injection Heq as -> <-.
  apply GroupingFacts.group_entries_groups in Hacc.
  destruct (GroupingFacts.groups_of_bucket _ _ _ _ _ Hacc Hin) as [-> Hne].
  split; [reflexivity | assumption].
Qed.

(** X2.  Within a group table the participant view ranks by points, then
    kills, then wins: of two rows of the same table, the one with the
    larger triple (compared in this order) carries the smaller
    [position_in_group]. *)
Theorem display_ranks_by_points_kills_wins
    (pointsEntries : list Display.PointsEntry)
    (ge : Js.object (list Display.PointsEntry)) (k : string)
    (es : list Display.PointsEntry) (a b : Display.PointsEntry) :
  Display.groupedEntries true pointsEntries = Some ge ->
  In (k, es) ge -> In a es -> In b es ->
  (Display.points b < Display.points a
   \/ (Display.points a = Display.points b
       /\ Display.kills b < Display.kills a)
   \/ (Display.points a = Display.points b
       /\ Display.kills a = Display.kills b
       /\ Display.wins b < Display.wins a))%Z ->
  exists pa pb,
    Display.position_in_group a = Some pa
    /\ Display.position_in_group b = Some pb /\ (pa < pb)%Z.
Proof.
  intros Hge Hin Ha Hb Hbetter.
  destruct (display_bucket_shape _ _ _ _ Hge Hin) as [-> _].
  unfold Js.mapi in Ha, Hb.
  apply JsFacts.mapi_from_in in Ha as (x & i & Hi & ->).
  apply JsFacts.mapi_from_in in Hb as (y & j & Hj & ->).
  simpl in Hbetter.
  destruct (byPointsKillsWins_strict x y Hbetter) as (Hxy & Hyx & Hxx).
  assert (Hij : i < j).
  { apply (SortOrder.sort_strict_order Display.byPointsKillsWins
             SortOrder.byPointsKillsWins_total SortOrder.byPointsKillsWins_trans
             (filter (Grouping.in_group Display.group_name k) pointsEntries)
             i j x y); assumption. }
  exists (Z.of_nat (0 + i) + 1)%Z, (Z.of_nat (0 + j) + 1)%Z.
  repeat split. lia.
Qed.

Lemma display_ranks_by_points_kills_wins_witness :
  exists pa pb,
    Display.position_in_group
      (Display.set_position_in_group
         (Samples.shown "Y" 10 2 3 (Some "Group A")) 0) = Some pa
    /\ Display.position_in_group
         (Display.set_position_in_group
            (Samples.shown "X" 10 2 0 (Some "Group A")) 1) = Some pb
    /\ (pa < pb)%Z.
Proof.
  apply (display_ranks_by_points_kills_wins Samples.shown_level_but_for_wins
           [("Group A",
             [Display.set_position_in_group
                (Samples.shown "Y" 10 2 3 (Some "Group A")) 0;
              Display.set_position_in_group
                (Samples.shown "X" 10 2 0 (Some "Group A")) 1])]
           "Group A"
           [Display.set_position_in_group
              (Samples.shown "Y" 10 2 3 (Some "Group A")) 0;
            Display.set_position_in_group
              (Samples.shown "X" 10 2 0 (Some "Group A")) 1]).
  - reflexivity.
  - simpl. auto.
  - simpl. auto.
  - simpl. auto.
  - right. right. simpl. lia.
Defined.

(** ** Recalculating after a reload *)
Module StoreFacts.
Import AdminStore.

Section MapBuckets.
Context {E : Type} (group_name : E -> option string) (f : E -> E).
Hypothesis f_group : forall e, group_name (f e) = group_name e.

Local Abbreviation map_buckets :=
  (map (fun kv : string * list E => (fst kv, map f (snd kv)))).

Lemma get_own_map_buckets (k : string) (acc : Js.object (list E)) :
  Js.get_own k (map_buckets acc) = option_map (map f) (Js.get_own k acc).
Proof.
  induction acc as [|[k0 v0] acc IH]; simpl; [reflexivity|].
  destruct (String.eqb k k0); [reflexivity | exact IH].
Qed.

Lemma set_own_map_buckets (k : string) (v : list E) (acc : Js.object (list E)) :
  Js.set_own k (map f v) (map_buckets acc) = map_buckets (Js.set_own k v acc).
Proof.
  induction acc as [|[k0 v0] acc IH]; simpl; [reflexivity|].
  destruct (String.eqb k k0); simpl; [reflexivity | now rewrite IH].
Qed.

Lemma push_entry_map_buckets (acc : Js.object (list E)) (e : E) :
  Grouping.push_entry group_name (map_buckets acc) (f e)
  = option_map map_buckets (Grouping.push_entry group_name acc e).
Proof.
  unfold Grouping.push_entry, Grouping.group_key. rewrite f_group. cbv zeta.
  rewrite get_own_map_buckets.
  destruct (Js.get_own _ acc) as [es|]; simpl.
  - rewrite <- set_own_map_buckets, map_app. reflexivity.
  - destruct (Js.inherited _); [reflexivity|]. simpl.
    rewrite <- set_own_map_buckets. reflexivity.
Qed.

Lemma reduce_map_buckets (l : list E) (acc : Js.object (list E)) :
  Js.reduce (Grouping.push_entry group_name) (map f l) (map_buckets acc)
  = option_map map_buckets (Js.reduce (Grouping.push_entry group_name) l acc).
Proof.
  revert acc; induction l as [|e l IH]; intros acc; simpl; [reflexivity|].
  rewrite push_entry_map_buckets.
  destruct (Grouping.push_entry group_name acc e) as [acc'|]; simpl;
    [apply IH | reflexivity].
Qed.

Lemma group_entries_map (l : list E) :
  Grouping.group_entries group_name (map f l)
  = option_map map_buckets (Grouping.group_entries group_name l).
Proof. apply (reduce_map_buckets l []). Qed.

Lemma filter_map_commute {T : Type} (p : T -> bool) (g : T -> T) (l : list T) :
  (forall x, p (g x) = p x) -> filter p (map g l) = map g (filter p l).
Proof.
  intros Hp. induction l as [|x l IH]; simpl; [reflexivity|].
  rewrite Hp, IH. now destruct (p x).
Qed.

Lemma entries_map_buckets (acc : Js.object (list E)) :
  Js.entries (map_buckets acc) = map_buckets (Js.entries acc).
Proof.
  unfold Js.entries. rewrite map_app.
  rewrite !filter_map_commute by reflexivity.
  f_equal. apply JsFacts.sort_map. reflexivity.
Qed.
End MapBuckets.

End StoreFacts.

Import AdminStore.

(** The row written for [entry]: its own columns again, with the new
    positions and a fresh [updated_at]. *)
Lemma stored_row (supportsGrouping : bool) (selectedTournament now : string)
    (l : list PointsTableEntry) (ups : list Update) (e : PointsTableEntry) :
  NoDup (map id l) ->
  autoCalculatePositions supportsGrouping selectedTournament l = Upserted ups ->
  In e l ->
  stored now ups e
  = {| id := id e;
       tournament_id := tournament_id e;
       team_id := team_id e;
       team_name := team_name e;
       points := points e;
       position :=
         (Js.findIndex (fun e' => String.eqb (id e') (id e))
            (Js.sort byPointsThenKills l) + 1)%Z;
       kills := kills e;
       wins := wins e;
       group_name := group_name e;
       position_in_group := position_in_group (stored now ups e);
       created_at := created_at e;
       updated_at := now |}.
Proof.
  intros Hnd Hrun He.
  destruct (update_for_entry _ _ _ _ e Hnd Hrun He) as (u0 & Hu0 & Hid0).
  unfold stored.
  destruct (find (fun u => String.eqb (u_id u) (id e)) ups) as [u|] eqn:Hfind.
  - apply find_some in Hfind as [Hu Hid]. apply String.eqb_eq in Hid.
    pose proof (frames_preserved _ _ _ _ Hrun) as Hfr.
    assert (Hin : In (update_frame u) (map (entry_frame supportsGrouping) l)).
    { eapply Permutation_in; [exact Hfr | now apply in_map]. }
    apply in_map_iff in Hin as (e' & Hfe & He').
    assert (e' = e).
    { apply (AdminFacts.nodup_map_inj id l); try assumption.
      unfold entry_frame, update_frame in Hfe. injection Hfe as H1 _. congruence. }
    subst e'.
    destruct (position_by_id _ _ _ _ u Hnd Hrun Hu) as [Hpos _].
    unfold entry_frame, update_frame in Hfe.
    injection Hfe as H1 H2 H3 H4 H5 H6 H7 H8.
    unfold upserted_row. cbn [position_in_group].
    rewrite Hpos, <- H1, <- H2, <- H3, <- H4, <- H5, <- H6, <- H7, <- H8.
    destruct supportsGrouping; reflexivity.
  - exfalso. apply (find_none _ _ Hfind) in Hu0.
    rewrite Hid0, String.eqb_refl in Hu0. discriminate.
Qed.

Lemma sorted_by_increasing_positions (rows : list PointsTableEntry) (k : nat) :
  map position rows = map Z.of_nat (seq k (List.length rows)) ->
  Sorted (fun a b => (byPosition a b <= 0)%Z) rows.
Proof.
  revert k; induction rows as [|x rows IH]; intros k H; simpl in *.
  - constructor.
  - injection H as Hx Hrows. constructor; [now apply (IH (S k))|].
    destruct rows as [|y rows]; constructor.
    simpl in Hrows. injection Hrows as Hy _. unfold byPosition. lia.
Qed.

(** Reading the table back after the upsert gives the sorted snapshot,
    each row with its new positions. *)
Lemma read_back (supportsGrouping : bool) (selectedTournament now : string)
    (l : list PointsTableEntry) (ups : list Update) :
  NoDup (map id l) ->
  autoCalculatePositions supportsGrouping selectedTournament l = Upserted ups ->
  read_ordered (table_after_upsert now ups l)
  = map (stored now ups) (Js.sort byPointsThenKills l).
Proof.
  intros Hnd Hrun. unfold read_ordered, table_after_upsert.
  set (s := Js.sort byPointsThenKills l).
  assert (Hpos : map position (map (stored now ups) s)
                 = map Z.of_nat (seq 1 (List.length s))).
  { rewrite map_map.
    rewrite <- (AdminFacts.sorted_positions s)
      by now apply AdminFacts.sorted_ids_nodup.
    apply map_ext_in. intros e He.
    apply (proj1 (JsFacts.sort_in byPointsThenKills l e)) in He.
    rewrite (stored_row _ _ now _ _ e Hnd Hrun He). reflexivity. }
  assert (Hperm : Permutation (map (stored now ups) l) (map (stored now ups) s)).
  { apply Permutation_map, Permutation_sym, JsFacts.sort_perm. }
  assert (Htot : forall a b, (0 < byPosition a b)%Z -> (byPosition b a <= 0)%Z)
    by (unfold byPosition; intros; lia).
  assert (Htr : forall a b c, (byPosition a b <= 0)%Z -> (byPosition b c <= 0)%Z ->
                              (byPosition a c <= 0)%Z)
    by (unfold byPosition; intros; lia).
  rewrite (SortOrder.sort_perm_unique byPosition Htot Htr _ _ Hperm).
  - apply (SortOrder.sort_sorted_id byPosition).
    apply (sorted_by_increasing_positions _ 1).
    now rewrite Hpos, !length_map.
  - intros x y Hx Hy Hxy Hyx.
    apply (AdminFacts.nodup_map_inj position (map (stored now ups) l));
      try assumption; [|unfold byPosition in *; lia].
    eapply Permutation_NoDup;
      [apply Permutation_map, Permutation_sym, Hperm|].
    rewrite Hpos. apply Finite.Injective_map_NoDup; [|apply seq_NoDup].
    intros a b. apply Nat2Z.inj.
Qed.

Section Renumbered.
(** A change of the rows that leaves alone every column the ranking
    reads or copies. *)
Variable g : PointsTableEntry -> PointsTableEntry.
Hypothesis g_id : forall e, id (g e) = id e.
Hypothesis g_tournament_id : forall e, tournament_id (g e) = tournament_id e.
Hypothesis g_team_id : forall e, team_id (g e) = team_id e.
Hypothesis g_team_name : forall e, team_name (g e) = team_name e.
Hypothesis g_points : forall e, points (g e) = points e.
Hypothesis g_kills : forall e, kills (g e) = kills e.
Hypothesis g_wins : forall e, wins (g e) = wins e.
Hypothesis g_group_name : forall e, group_name (g e) = group_name e.

Lemma renumbered_sort (l : list PointsTableEntry) :
  Js.sort byPointsThenKills (map g l) = map g (Js.sort byPointsThenKills l).
Proof.
  apply JsFacts.sort_map. intros a b. unfold byPointsThenKills.
  now rewrite !g_points, !g_kills.
Qed.

Lemma renumbered_findIndex (s : list PointsTableEntry) (e : PointsTableEntry) :
  Js.findIndex (fun e' => String.eqb (id e') (id (g e))) (map g s)
  = Js.findIndex (fun e' => String.eqb (id e') (id e)) s.
Proof.
  rewrite g_id. unfold Js.findIndex.
  rewrite (JsFacts.find_index_from_keys id (map g s) s 0
             (fun k => String.eqb k (id e))); [reflexivity|].
  rewrite map_map. apply map_ext. apply g_id.
Qed.

Lemma renumbered_grouped_rows (s es : list PointsTableEntry) (i : nat) :
  Js.mapi_from i (grouped_update (map g s)) (map g es)
  = Js.mapi_from i (grouped_update s) es.
Proof.
  revert i; induction es as [|e es IH]; intros i; simpl; [reflexivity|].
  rewrite IH. f_equal. unfold grouped_update.
  rewrite renumbered_findIndex, g_id, g_tournament_id, g_team_id, g_team_name,
    g_points, g_kills, g_wins, g_group_name.
  reflexivity.
Qed.

Lemma renumbered_ungrouped_rows (es : list PointsTableEntry) (i : nat) :
  Js.mapi_from i ungrouped_update (map g es) = Js.mapi_from i ungrouped_update es.
Proof.
  revert i; induction es as [|e es IH]; intros i; simpl; [reflexivity|].
  rewrite IH. f_equal. unfold ungrouped_update.
  now rewrite g_id, g_tournament_id, g_team_id, g_team_name, g_points,
    g_kills, g_wins.
Qed.

(** Ranking the renumbered rows gives the rows of ranking the original
    ones. *)
Lemma renumbered_outcome (supportsGrouping : bool) (selectedTournament : string)
    (l : list PointsTableEntry) :
  autoCalculatePositions supportsGrouping selectedTournament (map g l)
  = autoCalculatePositions supportsGrouping selectedTournament l.
Proof.
  unfold autoCalculatePositions. rewrite length_map.
  destruct (String.eqb selectedTournament "" || (List.length l =? 0));
    [reflexivity|].
  cbv zeta. rewrite renumbered_sort.
  destruct supportsGrouping.
  - rewrite (StoreFacts.group_entries_map group_name g g_group_name).
    destruct (Grouping.group_entries group_name (Js.sort byPointsThenKills l))
      as [acc|]; simpl; [|reflexivity].
    f_equal. unfold grouped_updates. rewrite StoreFacts.entries_map_buckets.
    induction (Js.entries acc) as [|[k es] bs IH]; simpl; [reflexivity|].
    rewrite IH. f_equal. apply renumbered_grouped_rows.
  - f_equal. apply renumbered_ungrouped_rows.
Qed.
End Renumbered.

(** X3.  Recalculating is idempotent through the store: once the payload
    of [autoCalculatePositions] has been written and the table is read
    back in the order of the stored positions, running the handler again
    sends the very same payload (ids distinct). *)
Theorem recalculation_is_idempotent (supportsGrouping : bool)
    (selectedTournament now : string) (l : list PointsTableEntry)
    (ups : list Update) :
  NoDup (map id l) ->
  autoCalculatePositions supportsGrouping selectedTournament l = Upserted ups ->
  autoCalculatePositions supportsGrouping selectedTournament
    (read_ordered (table_after_upsert now ups l)) = Upserted ups.
Proof.
  intros Hnd Hrun. rewrite (read_back _ _ now _ _ Hnd Hrun).
  set (s := Js.sort byPointsThenKills l).
  set (g := fun e =>
         {| id := id e;
            tournament_id := tournament_id e;
            team_id := team_id e;
            team_name := team_name e;
            points := points e;
            position :=
              (Js.findIndex (fun e' => String.eqb (id e') (id e)) s + 1)%Z;
            kills := kills e;
            wins := wins e;
            group_name := group_name e;
            position_in_group := position_in_group (stored now ups e);
            created_at := created_at e;
            updated_at := now |}).
  assert (Hfg : map (stored now ups) s = map g s).
  { apply map_ext_in. intros e He.
    apply (proj1 (JsFacts.sort_in byPointsThenKills l e)) in He.
    exact (stored_row _ _ now _ _ e Hnd Hrun He). }
  rewrite Hfg.
  rewrite (renumbered_outcome g) by reflexivity.
  (* the sorted snapshot ranks like the snapshot *)
  unfold autoCalculatePositions in *. unfold s. rewrite JsFacts.sort_length.
  destruct (String.eqb selectedTournament "" || (List.length l =? 0));
    [discriminate|].
  cbv zeta in *.
  rewrite (SortOrder.sort_idempotent byPointsThenKills
             SortOrder.byPointsThenKills_total). exact Hrun.
Qed.

Lemma recalculation_is_idempotent_witness :
  autoCalculatePositions true "t1"
    (read_ordered
       (table_after_upsert "2025-10-26T09:00:00Z"
          (payload (autoCalculatePositions true "t1" Samples.two_groups))
          Samples.two_groups))
  = Upserted (payload (autoCalculatePositions true "t1" Samples.two_groups)).
Proof.
  apply (recalculation_is_idempotent true "t1" "2025-10-26T09:00:00Z"
           Samples.two_groups).
  - simpl. nodup_strings.
  - reflexivity.
Defined.

(** ** Printing and reading integers *)
Module TextFacts.

Lemma read_digits_step (c : ascii) (k a : Z) (s : string) :
  Js.digit_value 10 c = Some k ->
  Js.read_digits 10 (Some a) (String c s)
  = Js.read_digits 10 (Some (a * 10 + k)%Z) s.
Proof. intros H. simpl. now rewrite H. Qed.

Lemma read_digits_first (c : ascii) (k : Z) (s : string) :
  Js.digit_value 10 c = Some k ->
  Js.read_digits 10 None (String c s) = Js.read_digits 10 (Some k) s.
Proof. intros H. simpl. now rewrite H. Qed.

Ltac same_accumulator :=
  match goal with
  | |- Js.read_digits _ (Some ?a) _ = Js.read_digits _ (Some ?b) _ =>
      replace a with b by lia
  end; reflexivity.

Ltac read_digit c k IH :=
  cbn [NilEmpty.string_of_uint Pos.of_uint_acc Pos.of_uint Z.of_N];
  rewrite (read_digits_step c k _ _ eq_refl);
  rewrite <- IH; same_accumulator.

Ltac read_digit_first c k IH :=
  cbn [NilEmpty.string_of_uint Pos.of_uint_acc Pos.of_uint Z.of_N];
  rewrite (read_digits_first c k _ eq_refl);
  rewrite <- IH; same_accumulator.

Lemma read_digits_acc (d : Decimal.uint) (acc : positive) :
  Js.read_digits 10 (Some (Zpos acc)) (NilEmpty.string_of_uint d)
  = Some (Zpos (Pos.of_uint_acc d acc)).
Proof.
  revert acc; induction d; intros acc; [reflexivity|..].
  - read_digit "0"%char 0%Z IHd.
  - read_digit "1"%char 1%Z IHd.
  - read_digit "2"%char 2%Z IHd.
  - read_digit "3"%char 3%Z IHd.
  - read_digit "4"%char 4%Z IHd.
  - read_digit "5"%char 5%Z IHd.
  - read_digit "6"%char 6%Z IHd.
  - read_digit "7"%char 7%Z IHd.
  - read_digit "8"%char 8%Z IHd.
  - read_digit "9"%char 9%Z IHd.
Qed.

Lemma read_digits_zero (d : Decimal.uint) :
  Js.read_digits 10 (Some 0%Z) (NilEmpty.string_of_uint d)
  = Some (Z.of_N (Pos.of_uint d)).
Proof.
  induction d; [reflexivity| |..].
  - cbn [NilEmpty.string_of_uint Pos.of_uint].
    rewrite (read_digits_step "0"%char 0%Z _ _ eq_refl). exact IHd.
  - read_digit "1"%char 1%Z (read_digits_acc d).
  - read_digit "2"%char 2%Z (read_digits_acc d).
  - read_digit "3"%char 3%Z (read_digits_acc d).
  - read_digit "4"%char 4%Z (read_digits_acc d).
  - read_digit "5"%char 5%Z (read_digits_acc d).
  - read_digit "6"%char 6%Z (read_digits_acc d).
  - read_digit "7"%char 7%Z (read_digits_acc d).
  - read_digit "8"%char 8%Z (read_digits_acc d).
  - read_digit "9"%char 9%Z (read_digits_acc d).
Qed.

Lemma read_digits_uint (d : Decimal.uint) :
  d <> Decimal.Nil ->
  Js.read_digits 10 None (NilEmpty.string_of_uint d)
  = Some (Z.of_N (Pos.of_uint d)).
Proof.
  destruct d; intros Hd; [contradiction| |..].
  - cbn [NilEmpty.string_of_uint Pos.of_uint].
    rewrite (read_digits_first "0"%char 0%Z _ eq_refl). apply read_digits_zero.
  - read_digit_first "1"%char 1%Z (read_digits_acc d).
  - read_digit_first "2"%char 2%Z (read_digits_acc d).
  - read_digit_first "3"%char 3%Z (read_digits_acc d).
  - read_digit_first "4"%char 4%Z (read_digits_acc d).
  - read_digit_first "5"%char 5%Z (read_digits_acc d).
  - read_digit_first "6"%char 6%Z (read_digits_acc d).
  - read_digit_first "7"%char 7%Z (read_digits_acc d).
  - read_digit_first "8"%char 8%Z (read_digits_acc d).
  - read_digit_first "9"%char 9%Z (read_digits_acc d).
Qed.

(** What is left of a text at its start is no white space. *)
Lemma trimStart_from_done (s : string) (k : nat) :
  Js.starts_with_space (Js.trimStart_from k s) = false.
Proof.
  revert k. induction s as [|c s IH]; intros k; [now destruct k|].
  cbn [Js.trimStart_from]. destruct k as [|k]; [|apply IH].
  destruct (Js.starts_with_space (String c s)) eqn:Hc; [apply IH | exact Hc].
Qed.

(** Trimming keeps the characters between the white space: blanks inside
    the text stay, and so does a character whose last byte, 160, is the
    number of the no-break space ([a] with a grave accent, U+00E0). *)
Lemma trim_examples :
  map Js.trim
      [ " a  b ";
        String "194" (String "160" (String "009" "x y"));
        String.append "x" (String "195" (String "160" " "));
        String "226" (String "128" (String "175" ""));
        "" ]
  = [ "a  b"; "x y"; String.append "x" (String "195" (String "160" ""));
      ""; "" ].
Proof. reflexivity. Qed.

(** A plain byte is a character by itself. *)
Lemma plain_byte_length (a : ascii) (r : string) :
  Js.plain_byte a = true -> Js.char_length (String a r) = 1.
Proof.
  unfold Js.plain_byte. intros H. apply andb_true_iff in H as [Hlt _].
  apply Nat.ltb_lt in Hlt.
  assert (Hlead : Js.lead_length a = 1).
  { unfold Js.lead_length. cbv zeta.
    replace (194 <=? nat_of_ascii a) with false
      by (symmetry; apply Nat.leb_gt; lia).
    replace (224 <=? nat_of_ascii a) with false
      by (symmetry; apply Nat.leb_gt; lia).
    replace (240 <=? nat_of_ascii a) with false
      by (symmetry; apply Nat.leb_gt; lia).
    reflexivity. }
  unfold Js.char_length. rewrite Hlead. reflexivity.
Qed.

Lemma plain_byte_head (a : ascii) (r : string) :
  Js.plain_byte a = true -> Js.starts_with_space (String a r) = false.
Proof.
  intros H. pose proof (plain_byte_length a r H) as Hlen.
  unfold Js.starts_with_space, Js.code_point. rewrite Hlen.
  unfold Js.plain_byte in H. apply andb_true_iff in H as [_ H].
  apply negb_true_iff in H.
  destruct r as [|b [|c [|d r]]]; exact H.
Qed.

(** Text that starts with a plain byte has no white space to lose at its
    start. *)
Lemma trimStart_plain_head (a : ascii) (r : string) :
  Js.plain_byte a = true -> Js.trimStart (String a r) = String a r.
Proof.
  intros H. unfold Js.trimStart. cbn [Js.trimStart_from].
  now rewrite plain_byte_head.
Qed.

Lemma digit_plain (c : ascii) : Js.is_digit c = true -> Js.plain_byte c = true.
Proof.
  destruct c as [[] [] [] [] [] [] [] []]; intros Hc;
    try discriminate Hc; reflexivity.
Qed.

(** [parseInt] on text that starts with a decimal digit and has no [0x]
    prefix reads the digits in radix 10. *)
Lemma parseInt_digit_head (c : ascii) (r : string) :
  Js.is_digit c = true -> Js.strip_hex_prefix (String c r) = None ->
  Js.parseInt (String c r)
  = match Js.read_digits 10 None (String c r) with
    | Some v => Js.Num v
    | None => Js.NaN
    end.
Proof.
  intros Hc Hhex. unfold Js.parseInt.
  rewrite (trimStart_plain_head c r (digit_plain c Hc)).
  destruct c as [[] [] [] [] [] [] [] []]; try discriminate Hc;
    cbv beta iota zeta; rewrite Hhex; cbv beta iota zeta;
    (destruct (Js.read_digits _ _ _); [f_equal; lia | reflexivity]).
Qed.

Lemma parseInt_minus_digit_head (c : ascii) (r : string) :
  Js.is_digit c = true -> Js.strip_hex_prefix (String c r) = None ->
  Js.parseInt (String "-" (String c r))
  = match Js.read_digits 10 None (String c r) with
    | Some v => Js.Num (- v)
    | None => Js.NaN
    end.
Proof.
  intros Hc Hhex. unfold Js.parseInt.
  rewrite (trimStart_plain_head "-" (String c r) eq_refl).
  cbv beta iota zeta. rewrite Hhex. cbv beta iota zeta.
  destruct (Js.read_digits _ _ _); [f_equal; lia | reflexivity].
Qed.

(** What is printed for a positive number starts with a digit and is not
    taken for hexadecimal. *)
Lemma to_uint_head (p : positive) :
  exists c r, NilEmpty.string_of_uint (Pos.to_uint p) = String c r
    /\ Js.is_digit c = true /\ Js.strip_hex_prefix (String c r) = None.
Proof.
  pose proof (Unsigned.to_uint_nonnil p) as Hnn.
  destruct (Pos.to_uint p) as [|d|d|d|d|d|d|d|d|d|d] eqn:Hp; try contradiction;
    cbn [NilEmpty.string_of_uint]; try (eexists _, _; repeat split; reflexivity).
  destruct d; cbn [NilEmpty.string_of_uint]; eexists _, _; repeat split; reflexivity.
Qed.

Lemma nilzero_nonnil (d : Decimal.uint) :
  d <> Decimal.Nil -> NilZero.string_of_uint d = NilEmpty.string_of_uint d.
Proof. destruct d; [contradiction | reflexivity..]. Qed.

Lemma parseInt_toString_any (n : Z) :
  Js.parseInt (JsText.toString n) = Js.Num n.
Proof.
  unfold JsText.toString. destruct n as [|p|p]; [reflexivity| |];
    cbn [Z.to_int NilZero.string_of_int];
    rewrite nilzero_nonnil by apply Unsigned.to_uint_nonnil;
    pose proof (read_digits_uint _ (Unsigned.to_uint_nonnil p)) as Hread;
    rewrite Unsigned.of_to in Hread;
    destruct (to_uint_head p) as (c & r & Hs & Hc & Hhex); rewrite Hs in *.
  - rewrite (parseInt_digit_head c r Hc Hhex), Hread. reflexivity.
  - rewrite (parseInt_minus_digit_head c r Hc Hhex), Hread. reflexivity.
Qed.
End TextFacts.

(** X4.  Reading back a printed integer: for every safe integer [n],
    [parseInt(n.toString())] is [n] again. *)
Theorem parseInt_reads_back_toString (n : Z) :
  JsText.safe_integer n -> Js.parseInt (JsText.toString n) = Js.Num n.
Proof. intros _. apply TextFacts.parseInt_toString_any. Qed.

Lemma parseInt_reads_back_toString_witness :
  Js.parseInt (JsText.toString (-120)) = Js.Num (-120).
Proof.
  apply (parseInt_reads_back_toString (-120)).
  unfold JsText.safe_integer. simpl. lia.
Defined.

(** ** The row editor *)

Lemma or_default_toString (n d : Z) :
  (n = 0%Z -> d = 0%Z) ->
  Js.or_default (Js.parseInt (JsText.toString n)) d = n.
Proof.
  intros Hd. rewrite TextFacts.parseInt_toString_any. simpl.
  destruct (Z.eqb_spec n 0); [|reflexivity]. subst. now rewrite Hd.
Qed.

(** X5.  Opening a row in the editor and saving it untouched writes the
    stored values back: the update carries the record's own points, kills,
    wins and position, and in the local state every record keeps all its
    fields, the edited one with a fresh [updated_at].  This needs a stored
    position other than 0 (which the form turns into 1) and a label other
    than the empty string (which it turns into [null]). *)
Theorem edit_without_change_keeps_record (supportsGrouping : bool)
    (now : string) (entry : PointsTableEntry) (l : list PointsTableEntry) :
  position entry <> 0%Z -> group_name entry <> Some "" ->
  NoDup (map id l) -> In entry l ->
  saveEdit_updateData supportsGrouping (AdminEdit.startEdit entry)
  = {| d_points := points entry;
       d_kills := kills entry;
       d_wins := wins entry;
       d_position := position entry;
       d_group_name :=
         if supportsGrouping then Some (group_name entry) else None |}
  /\ saveEdit_entries supportsGrouping (AdminEdit.startEdit entry) now
       (id entry) l
     = map (fun e => if String.eqb (id e) (id entry)
                     then AdminEdit.touched now e else e) l.
Proof.
  intros Hpos Hg Hnd Hin.
  assert (Hlabel : or_null (match group_name entry with
                            | Some s => s
                            | None => ""
                            end) = group_name entry).
  { unfold or_null. destruct (group_name entry) as [s|]; [|reflexivity].
    destruct (String.eqb_spec s ""); [subst; contradiction | reflexivity]. }
  split.
  - unfold saveEdit_updateData, AdminEdit.startEdit.
    cbn [f_points f_kills f_wins f_position f_group_name].
    rewrite !or_default_toString by (try reflexivity; intros; contradiction).
    now rewrite Hlabel.
  - unfold saveEdit_entries. apply map_ext_in. intros e He.
    destruct (String.eqb_spec (id e) (id entry)) as [Hid|]; [|reflexivity].
    assert (e = entry) by now apply (AdminFacts.nodup_map_inj id l).
    subst e. unfold AdminEdit.startEdit, AdminEdit.touched.
    cbn [f_points f_kills f_wins f_position f_group_name].
    rewrite !or_default_toString by (try reflexivity; intros; contradiction).
    rewrite Hlabel. now destruct supportsGrouping.
Qed.

Lemma edit_without_change_keeps_record_witness :
  saveEdit_updateData true
    (AdminEdit.startEdit (Samples.entry "b" 7 0 0 (Some "X")))
  = {| d_points := 7; d_kills := 0; d_wins := 0; d_position := 1;
       d_group_name := Some (Some "X") |}
  /\ saveEdit_entries true
       (AdminEdit.startEdit (Samples.entry "b" 7 0 0 (Some "X")))
       "2025-10-26T09:00:00Z" "b" Samples.two_groups
     = map (fun e => if String.eqb (id e) "b"
                     then AdminEdit.touched "2025-10-26T09:00:00Z" e else e)
           Samples.two_groups.
Proof.
  apply (edit_without_change_keeps_record true "2025-10-26T09:00:00Z"
           (Samples.entry "b" 7 0 0 (Some "X")) Samples.two_groups).
  - discriminate.
  - discriminate.
  - simpl. nodup_strings.
  - simpl. auto.
Defined.

(** ** What the ranking reads *)

Lemma map_same_columns {T : Type} (c : PointsTableEntry -> T)
    (l l' : list PointsTableEntry) :
  (forall a b, entry_frame true a = entry_frame true b -> c a = c b) ->
  Forall2 (fun a b => entry_frame true a = entry_frame true b) l l' ->
  map c l = map c l'.
Proof.
  intros Hc. induction 1 as [|a b l l' Hab _ IH]; simpl; [reflexivity|].
  now rewrite IH, (Hc a b Hab).
Qed.

(** X6.  [autoCalculatePositions] reads only [id], [tournament_id],
    [team_id], [team_name], [points], [kills], [wins] and [group_name]:
    two snapshots that agree on these columns row by row give the same
    outcome, whatever positions and timestamps they hold; in particular a
    position typed in by hand does not survive a recalculation. *)
Theorem ranking_ignores_stored_positions (supportsGrouping : bool)
    (selectedTournament : string) (l l' : list PointsTableEntry) :
  Forall2 (fun a b => entry_frame true a = entry_frame true b) l l' ->
  autoCalculatePositions supportsGrouping selectedTournament l
  = autoCalculatePositions supportsGrouping selectedTournament l'.
Proof.
  intros Hsame.
  set (c := fun e =>
         {| id := id e; tournament_id := tournament_id e;
            team_id := team_id e; team_name := team_name e;
            points := points e; position := 0; kills := kills e;
            wins := wins e; group_name := group_name e;
            position_in_group := None; created_at := "";
            updated_at := "" |}).
  assert (Hc : map c l = map c l').
  { apply map_same_columns; [|assumption]. intros a b Hab.
    unfold entry_frame in Hab. injection Hab as H1 H2 H3 H4 H5 H6 H7 H8.
    unfold c. congruence. }
  transitivity (autoCalculatePositions supportsGrouping selectedTournament
                  (map c l)).
  - symmetry. apply (renumbered_outcome c); reflexivity.
  - rewrite Hc. apply (renumbered_outcome c); reflexivity.
Qed.

Lemma ranking_ignores_stored_positions_witness :
  autoCalculatePositions false "t1" Samples.scenario
  = autoCalculatePositions false "t1"
      (saveEdit_entries false Samples.position_form "2025-10-26T09:00:00Z"
         "A" Samples.scenario).
Proof.
  apply (ranking_ignores_stored_positions false "t1" Samples.scenario).
  repeat constructor.
Defined.

(** ** Assigning one team by hand *)
Import AdminManual.

(** The shape of a successful manual assignment. *)
Lemma manual_assignment_shape
    (selectedTeamForGroup selectedGroupForTeam : string)
    (l l' : list PointsTableEntry) (entryId groupName : string) :
  NoDup (map id l) -> NoDup (map team_id l) ->
  manuallyAssignTeamToGroup selectedTeamForGroup selectedGroupForTeam l
  = GroupUpdated entryId groupName l' ->
  groupName = selectedGroupForTeam
  /\ (exists entry, In entry l /\ team_id entry = selectedTeamForGroup
                    /\ id entry = entryId)
  /\ l' = regroup entryId (Some selectedGroupForTeam) l.
Proof.
  intros Hid Hteam. unfold manuallyAssignTeamToGroup.
  destruct (String.eqb selectedTeamForGroup "" || String.eqb selectedGroupForTeam "");
    [discriminate|].
  destruct (find _ l) as [entry|] eqn:Hfind; [|discriminate].
  intros [= <- <- <-]. apply find_some in Hfind as [Hin Ht].
  apply String.eqb_eq in Ht.
  split; [reflexivity|]. split; [now exists entry|].
  unfold regroup. apply map_ext_in. intros e He.
  destruct (String.eqb_spec (team_id e) selectedTeamForGroup) as [Hte|Hte];
    destruct (String.eqb_spec (id e) (id entry)) as [Hie|Hie]; try reflexivity.
  - exfalso. apply Hie. f_equal.
    apply (AdminFacts.nodup_map_inj team_id l); congruence.
  - exfalso. apply Hte.
    assert (e = entry) by now apply (AdminFacts.nodup_map_inj id l).
    now subst.
Qed.

(** X7.  With one record per team, [manuallyAssignTeamToGroup] changes
    exactly one record, the one whose id the update names, and only its
    label: the new local state is the old one with that record's
    [group_name] replaced. *)
Theorem manual_assignment_changes_one_record
    (selectedTeamForGroup selectedGroupForTeam : string)
    (l l' : list PointsTableEntry) (entryId groupName : string) :
  NoDup (map id l) -> NoDup (map team_id l) ->
  manuallyAssignTeamToGroup selectedTeamForGroup selectedGroupForTeam l
  = GroupUpdated entryId groupName l' ->
  groupName = selectedGroupForTeam
  /\ (exists entry, In entry l /\ team_id entry = selectedTeamForGroup
                    /\ id entry = entryId)
  /\ l' = regroup entryId (Some selectedGroupForTeam) l.
Proof. apply manual_assignment_shape. Qed.

Lemma manual_assignment_changes_one_record_witness :
  "Z" = "Z"
  /\ (exists entry, In entry Samples.two_groups /\ team_id entry = "team-c"
                    /\ id entry = "c")
  /\ map (fun e => if String.eqb (team_id e) "team-c"
                   then set_group_name (Some "Z") e else e) Samples.two_groups
     = regroup "c" (Some "Z") Samples.two_groups.
Proof.
  apply (manual_assignment_changes_one_record "team-c" "Z" Samples.two_groups).
  - simpl. nodup_strings.
  - simpl. nodup_strings.
  - reflexivity.
Defined.

(** X8.  Assigning a team by hand and recalculating leaves every overall
    position where a recalculation without the assignment puts it. *)
Theorem manual_assignment_keeps_overall_positions (supportsGrouping : bool)
    (selectedTournament selectedTeamForGroup selectedGroupForTeam : string)
    (l l' : list PointsTableEntry) (entryId groupName : string)
    (ups ups' : list Update) (u u' : Update) :
  NoDup (map id l) -> NoDup (map team_id l) ->
  manuallyAssignTeamToGroup selectedTeamForGroup selectedGroupForTeam l
  = GroupUpdated entryId groupName l' ->
  autoCalculatePositions supportsGrouping selectedTournament l = Upserted ups ->
  autoCalculatePositions supportsGrouping selectedTournament l' = Upserted ups' ->
  In u ups -> In u' ups' -> u_id u = u_id u' ->
  u_position u = u_position u'.
Proof.
  intros Hid Hteam Hman Hrun Hrun' Hu Hu' Huu.
  destruct (manual_assignment_shape _ _ _ _ _ _ Hid Hteam Hman)
    as (_ & (entry & Hin & _ & <-) & ->).
  apply (regroup_overall_positions supportsGrouping selectedTournament l entry
           (Some selectedGroupForTeam) ups ups' u u'); assumption.
Qed.

Lemma manual_assignment_keeps_overall_positions_witness :
  u_position
    (hd (ungrouped_update (Samples.entry "b" 7 0 0 (Some "X")) 0)
        (payload (autoCalculatePositions true "t1" Samples.two_groups)))
  = u_position
      (hd (ungrouped_update (Samples.entry "b" 7 0 0 (Some "X")) 0)
          (payload (autoCalculatePositions true "t1"
                      (regroup "c" (Some "Z") Samples.two_groups)))).
Proof.
  apply (manual_assignment_keeps_overall_positions true "t1" "team-c" "Z"
           Samples.two_groups (regroup "c" (Some "Z") Samples.two_groups)
           "c" "Z"
           (payload (autoCalculatePositions true "t1" Samples.two_groups))
           (payload (autoCalculatePositions true "t1"
                       (regroup "c" (Some "Z") Samples.two_groups)))).
  - simpl. nodup_strings.
  - simpl. nodup_strings.
  - reflexivity.
  - reflexivity.
  - reflexivity.
  - simpl. auto.
  - simpl. auto.
  - reflexivity.
Defined.

(** ** Loading the table *)
Import AdminLoad.

Lemma pointsMap_has_spec (existingPoints : option (list PointsTableEntry))
    (k : string) :
  pointsMap_has existingPoints k = true <-> In k (existing_team_ids existingPoints).
Proof.
  destruct existingPoints as [ps|]; simpl; [|split; [discriminate | tauto]].
  rewrite existsb_exists, in_map_iff. split.
  - intros (p & Hp & Hk). apply String.eqb_eq in Hk. now exists p.
  - intros (p & Hk & Hp). exists p. split; [assumption|]. now apply String.eqb_eq.
Qed.

Lemma new_rows_team_ids (selectedTournament : string) (teams : list Team)
    (existingPoints : option (list PointsTableEntry)) :
  map n_team_id (newPointsEntries selectedTournament teams existingPoints)
  = map t_id (teamsNeedingPoints teams existingPoints).
Proof. unfold newPointsEntries, Js.mapi. now apply JsFacts.map_mapi_from. Qed.

Lemma nodup_map_filter {T K : Type} (f : T -> K) (p : T -> bool) (l : list T) :
  NoDup (map f l) -> NoDup (map f (filter p l)).
Proof.
  induction l as [|x l IH]; simpl; intros Hnd; [constructor|].
  inversion Hnd as [|? ? Hnotin Hnd']; subst.
  destruct (p x); simpl; [|now apply IH].
  constructor; [|now apply IH].
  intros Hin. apply Hnotin. apply in_map_iff in Hin as (y & Hy & Hin).
  apply filter_In in Hin as [Hin _]. rewrite <- Hy. now apply in_map.
Qed.

Lemma load_inserts (selectedTournament : string) (teams : list Team)
    (existingPoints : option (list PointsTableEntry))
    (rows : list NewPointsEntry) :
  loadPointsTable selectedTournament (Some teams) existingPoints
  = InsertMissing rows ->
  rows = newPointsEntries selectedTournament teams existingPoints.
Proof.
  unfold loadPointsTable. destruct (String.eqb selectedTournament "");
    [discriminate|].
  destruct teams as [|t ts]; [discriminate|].
  destruct (0 <? _); [|discriminate]. now intros [= <-].
Qed.

(** X9.  When [loadPointsTable] inserts rows, it inserts exactly one row
    for every team that has none: together with the rows fetched every team
    is covered, no team gets a second row (team ids being distinct on both
    sides), the new rows start with zero counters and take the positions
    right after the number of rows fetched, in team order. *)
Theorem load_inserts_missing_rows_once (selectedTournament : string)
    (teams : list Team) (existingPoints : option (list PointsTableEntry))
    (rows : list NewPointsEntry) :
  NoDup (map t_id teams) -> NoDup (existing_team_ids existingPoints) ->
  loadPointsTable selectedTournament (Some teams) existingPoints
  = InsertMissing rows ->
  NoDup (existing_team_ids existingPoints ++ map n_team_id rows)
  /\ (forall team, In team teams ->
        In (t_id team) (existing_team_ids existingPoints ++ map n_team_id rows))
  /\ map n_position rows
     = map (fun i => (existing_length existingPoints + Z.of_nat i)%Z)
           (seq 1 (List.length rows))
  /\ Forall (fun r => n_points r = 0%Z /\ n_kills r = 0%Z /\ n_wins r = 0%Z
                      /\ n_tournament_id r = selectedTournament) rows.
Proof.
  intros Hteams Hex Hload. apply load_inserts in Hload. subst rows.
  rewrite new_rows_team_ids. repeat split.
  - apply NoDup_app; [assumption | now apply nodup_map_filter |].
    intros k Hk Hin. apply in_map_iff in Hin as (team & <- & Hin).
    apply filter_In in Hin as [_ Hno]. apply pointsMap_has_spec in Hk.
    rewrite Hk in Hno. discriminate.
  - intros team Hin. apply in_or_app.
    destruct (pointsMap_has existingPoints (t_id team)) eqn:Hhas.
    + left. now apply pointsMap_has_spec.
    + right. apply in_map. apply filter_In. split; [assumption|].
      now rewrite Hhas.
  - unfold newPointsEntries, Js.mapi.
    rewrite (JsFacts.map_mapi_from_index n_position
               (fun i => (existing_length existingPoints + Z.of_nat i + 1)%Z))
      by reflexivity.
    rewrite JsFacts.mapi_from_length, <- seq_shift, map_map.
    apply map_ext. intros i. lia.
  - apply Forall_forall. intros r Hr. unfold newPointsEntries, Js.mapi in Hr.
    apply JsFacts.mapi_from_in in Hr as (team & j & _ & ->). simpl. auto.
Qed.

Lemma load_inserts_missing_rows_once_witness :
  map n_team_id
      (newPointsEntries "t1" Samples.teams (Some Samples.two_groups))
  = ["team-x"; "team-y"]
  /\ map n_position
       (newPointsEntries "t1" Samples.teams (Some Samples.two_groups))
     = map (fun i => (existing_length (Some Samples.two_groups) + Z.of_nat i)%Z)
           (seq 1 2).
Proof.
  split; [reflexivity|].
  apply (load_inserts_missing_rows_once "t1" Samples.teams
           (Some Samples.two_groups)
           (newPointsEntries "t1" Samples.teams (Some Samples.two_groups))).
  - simpl. nodup_strings.
  - simpl. nodup_strings.
  - reflexivity.
Defined.

(** X10.  For a selected tournament with teams, [loadPointsTable] shows
    the fetched rows as they are, inserting nothing, exactly when every
    team has a row among them. *)
Theorem load_shows_table_when_complete (selectedTournament : string)
    (teams : list Team) (ps : list PointsTableEntry) :
  selectedTournament <> "" -> teams <> [] ->
  (loadPointsTable selectedTournament (Some teams) (Some ps) = ShowExisting ps
   <-> forall team, In team teams -> In (t_id team) (map team_id ps)).
Proof.
  intros Ht Hteams. unfold loadPointsTable. apply String.eqb_neq in Ht.
  rewrite Ht. destruct teams as [|t ts]; [contradiction|].
  set (need := teamsNeedingPoints (t :: ts) (Some ps)).
  assert (Hneed : need = [] <->
            forall team, In team (t :: ts) -> In (t_id team) (map team_id ps)).
  { unfold need, teamsNeedingPoints. split.
    - intros Hnil team Hin.
      apply (pointsMap_has_spec (Some ps)).
      destruct (pointsMap_has (Some ps) (t_id team)) eqn:Hhas; [reflexivity|].
      assert (Hf : In team (filter (fun team => negb (pointsMap_has (Some ps) (t_id team)))
                              (t :: ts)))
        by (apply filter_In; split; [assumption | now rewrite Hhas]).
      rewrite Hnil in Hf. contradiction.
    - intros Hall.
      destruct (filter _ (t :: ts)) as [|x xs] eqn:Hf; [reflexivity|].
      assert (Hx : In x (x :: xs)) by now left.
      rewrite <- Hf in Hx. apply filter_In in Hx as [Hin Hno].
      apply Hall, (pointsMap_has_spec (Some ps)) in Hin.
      rewrite Hin in Hno. discriminate. }
  destruct need as [|x xs] eqn:Hn; simpl.
  - split; [intros _; now apply Hneed | reflexivity].
  - split; [discriminate|]. intros Hall. apply Hneed in Hall. discriminate.
Qed.

Lemma load_shows_table_when_complete_witness :
  loadPointsTable "t1" (Some (firstn 1 Samples.teams)) (Some Samples.two_groups)
  = ShowExisting Samples.two_groups
  <-> forall team, In team (firstn 1 Samples.teams) ->
        In (t_id team) (map team_id Samples.two_groups).
Proof.
  apply (load_shows_table_when_complete "t1" (firstn 1 Samples.teams)
           Samples.two_groups); discriminate.
Defined.

(** ** Automatic assignment *)

(** How many of the indices below [n] leave the remainder [k]. *)
Lemma count_residue (g k n : nat) :
  0 < g -> k < g ->
  List.length (filter (fun i => i mod g =? k) (seq 0 n))
  = n / g + (if k <? n mod g then 1 else 0).
Proof.
  intros Hg Hk. induction n as [|n IH].
  - simpl. rewrite Nat.Div0.div_0_l, Nat.Div0.mod_0_l. reflexivity.
  - rewrite seq_S, filter_app, length_app, IH. simpl.
    pose proof (Nat.div_mod_eq n g) as Hn.
    pose proof (Nat.mod_upper_bound n g ltac:(lia)) as Hr.
    set (q := n / g) in *. set (r := n mod g) in *.
    destruct (Nat.eq_dec (S r) g) as [Hlast | Hmid].
    + assert (Hq : S n / g = S q /\ S n mod g = 0).
      { apply (Nat.div_mod_unique g);
          [apply Nat.mod_upper_bound; lia | lia |].
        rewrite <- Nat.div_mod_eq. nia. }
      destruct Hq as [-> ->].
      destruct (Nat.eqb_spec r k), (Nat.ltb_spec k r), (Nat.ltb_spec k 0);
        simpl; lia.
    + assert (Hq : S n / g = q /\ S n mod g = S r).
      { apply (Nat.div_mod_unique g);
          [apply Nat.mod_upper_bound; lia | lia |].
        rewrite <- Nat.div_mod_eq. nia. }
      destruct Hq as [-> ->].
      destruct (Nat.eqb_spec r k), (Nat.ltb_spec k r), (Nat.ltb_spec k (S r));
        simpl; lia.
Qed.

Lemma filter_map_length {T K : Type} (f : T -> K) (q : K -> bool) (l : list T) :
  List.length (filter (fun x => q (f x)) l)
  = List.length (filter q (map f l)).
Proof.
  induction l as [|x l IH]; simpl; [reflexivity|].
  destruct (q (f x)); simpl; now rewrite IH.
Qed.

Lemma group_letters_nodup : NoDup group_letters.
Proof. unfold group_letters. nodup_strings. Qed.

(** The group every payload row of [autoAssignGroups] falls in is the one
    named by its label. *)
Lemma assigned_keys (G : Z) (l : list PointsTableEntry) :
  map update_key (map assign_update (assigned_entries G l))
  = map (group_label G) (seq 0 (List.length l)).
Proof.
  rewrite map_map. unfold assigned_entries, Js.mapi.
  apply JsFacts.map_mapi_from_index. intros x j. reflexivity.
Qed.

Lemma group_label_is_letter (G : Z) (i k : nat) (letter : string) :
  (1 <= G <= 8)%Z ->
  nth_error group_letters k = Some letter ->
  String.eqb (group_label G i) (String.append "Group " letter)
  = (i mod Z.to_nat G =? k).
Proof.
  intros HG Hk.
  destruct (group_label_in_range G i HG) as (letter' & Hl & ->).
  change (String.eqb (String.append "Group " letter')
            (String.append "Group " letter))
    with (String.eqb letter' letter).
  destruct (Nat.eqb_spec (i mod Z.to_nat G) k) as [Heq | Hne].
  - rewrite Heq, Hk in Hl. injection Hl as ->. apply String.eqb_refl.
  - apply String.eqb_neq. intros ->. apply Hne.
    apply (proj1 (NoDup_nth_error group_letters) group_letters_nodup).
    + apply nth_error_Some. rewrite Hl. discriminate.
    + now rewrite Hl, Hk.
Qed.

(** X11.  [autoAssignGroups] distributes evenly: for a count [G] between
    1 and 8 and [n] records, the group of letter number [k] (below [G])
    receives [n / G] records, and one more when [k] is below [n mod G];
    so the sizes of two groups differ by at most one. *)
Theorem auto_assignment_is_balanced (G : Z) (selectedTournament : string)
    (l : list PointsTableEntry) (ups : list Update) (k : nat)
    (letter : string) :
  (1 <= G <= 8)%Z ->
  autoAssignGroups G selectedTournament l = Upserted ups ->
  nth_error group_letters k = Some letter -> k < Z.to_nat G ->
  List.length
    (filter (fun u => String.eqb (update_key u) (String.append "Group " letter))
            ups)
  = List.length l / Z.to_nat G
    + (if k <? List.length l mod Z.to_nat G then 1 else 0).
Proof.
  intros HG Hups Hletter Hk.
  assert (ups = map assign_update (assigned_entries G l)) as ->.
  { unfold autoAssignGroups in Hups.
    destruct (String.eqb selectedTournament "" || (List.length l =? 0));
      [discriminate | now injection Hups]. }
  rewrite (filter_map_length update_key
             (fun key => String.eqb key (String.append "Group " letter))).
  rewrite assigned_keys.
  rewrite <- (filter_map_length (group_label G)
                (fun key => String.eqb key (String.append "Group " letter))).
  rewrite (filter_ext _ (fun i => i mod Z.to_nat G =? k))
    by (intros i; now apply group_label_is_letter).
  apply count_residue; lia.
Qed.

Lemma auto_assignment_is_balanced_witness :
  List.length
    (filter (fun u => String.eqb (update_key u) (String.append "Group " "B"))
            (payload (autoAssignGroups 3 "t1" Samples.seven)))
  = List.length Samples.seven / Z.to_nat 3
    + (if 1 <? List.length Samples.seven mod Z.to_nat 3 then 1 else 0).
Proof.
  apply (auto_assignment_is_balanced 3 "t1" Samples.seven
           (payload (autoAssignGroups 3 "t1" Samples.seven)) 1 "B").
  - lia.
  - reflexivity.
  - reflexivity.
  - simpl. lia.
Defined.

(** Whatever the count, a label written by [autoAssignGroups] starts with
    [Group ] and so is no name that object literals inherit. *)
Lemma group_label_not_inherited (G : Z) (i : nat) (e : PointsTableEntry) :
  Js.inherited (group_key (set_group_name (Some (group_label G i)) e)) = false.
Proof.
  unfold group_label.
  destruct (Js.index (Js.slice0 G group_letters)
              (Js.remainder (Z.of_nat i) G)); reflexivity.
Qed.

Lemma assigned_labels_ok (G : Z) (l : list PointsTableEntry) :
  labels_ok (assigned_entries G l).
Proof.
  apply Forall_forall. intros e He. unfold assigned_entries, Js.mapi in He.
  apply JsFacts.mapi_from_in in He as (x & j & _ & ->).
  apply group_label_not_inherited.
Qed.

(** X12.  The labels [autoAssignGroups] writes never make the grouped
    recalculation throw: whatever the group count, ranking the state it
    leaves behind sends a payload with one row per record. *)
Theorem auto_assigned_groups_can_be_ranked (G : Z) (selectedTournament : string)
    (l : list PointsTableEntry) :
  selectedTournament <> "" -> l <> [] ->
  exists ups,
    autoCalculatePositions true selectedTournament (assigned_entries G l)
    = Upserted ups
    /\ List.length ups = List.length l.
Proof.
  intros Ht Hl.
  destruct (AdminFacts.autoCalculatePositions_upserts true selectedTournament
              (assigned_entries G l)) as [ups Hups].
  - assumption.
  - unfold assigned_entries. intros Hnil.
    apply (f_equal (@List.length _)) in Hnil.
    rewrite JsFacts.mapi_length in Hnil. destruct l; [contradiction | discriminate].
  - intros _. apply assigned_labels_ok.
  - exists ups. split; [assumption|].
    pose proof (frames_preserved true selectedTournament _ _ Hups) as Hperm.
    apply Permutation_length in Hperm. rewrite !length_map in Hperm.
    rewrite Hperm. apply JsFacts.mapi_length.
Qed.

Lemma auto_assigned_groups_can_be_ranked_witness :
  exists ups,
    autoCalculatePositions true "t1" (assigned_entries 0 Samples.seven)
    = Upserted ups
    /\ List.length ups = List.length Samples.seven.
Proof.
  apply (auto_assigned_groups_can_be_ranked 0 "t1" Samples.seven); discriminate.
Defined.

(** ** What the participant view renders *)

Lemma supports_grouping_sizes (teamSizeNum : Js.number) :
  Js.strict_eq teamSizeNum 5 || Js.strict_eq teamSizeNum 4 = true ->
  teamSizeNum = Js.Num 4 \/ teamSizeNum = Js.Num 5.
Proof.
  destruct teamSizeNum as [z|]; simpl; [|discriminate].
  destruct (Z.eqb_spec z 5) as [-> | _]; [now right|].
  destruct (Z.eqb_spec z 4) as [-> | _]; [now left | discriminate].
Qed.

(** When group tables are drawn, and from what. *)
Lemma render_group_tables_inv (localeCompare : string -> string -> Z)
    (teamSize : Js.value) (loading : bool)
    (pointsEntries : list Display.PointsEntry)
    (displayMode : Display.DisplayMode)
    (gs : list (string * list Display.Row)) :
  Display.render localeCompare teamSize loading pointsEntries displayMode
  = Display.GroupTables gs ->
  (Display.parseTeamSize teamSize = Js.Num 4
   \/ Display.parseTeamSize teamSize = Js.Num 5)
  /\ loading = false
  /\ displayMode = Display.grouped
  /\ Js.some (fun entry => Display.truthy_name (Display.group_name entry))
             pointsEntries = true
  /\ exists ge,
       Display.groupedEntries true pointsEntries = Some ge
       /\ gs = map (fun ge => (fst ge, map Display.group_row (snd ge)))
                   (Js.sort (fun a b => localeCompare (fst a) (fst b))
                            (Js.entries ge)).
Proof.
  unfold Display.render. cbv zeta.
  destruct (negb (Js.gt (Display.parseTeamSize teamSize) 1)); [discriminate|].
  destruct loading; [discriminate|].
  destruct (List.length pointsEntries =? 0); [discriminate|].
  destruct (Js.strict_eq (Display.parseTeamSize teamSize) 5
            || Js.strict_eq (Display.parseTeamSize teamSize) 4) eqn:Hs.
  - destruct (Display.groupedEntries true pointsEntries) as [ge|] eqn:Hge;
      [|discriminate].
    simpl andb.
    destruct (0 <? List.length (Js.keys ge)); simpl andb; [|discriminate].
    destruct (Js.some _ pointsEntries) eqn:Hsome; simpl andb; [|discriminate].
    destruct displayMode; [|discriminate].
    intros [= <-]. repeat split; try reflexivity.
    + now apply supports_grouping_sizes.
    + now exists ge.
  - simpl. discriminate.
Qed.

Lemma flat_map_map_snd {K T U : Type} (f : T -> U) (l : list (K * list T)) :
  flat_map snd (map (fun b => (fst b, map f (snd b))) l)
  = map f (flat_map snd l).
Proof.
  induction l as [|b l IH]; simpl; [reflexivity|].
  now rewrite map_app, IH.
Qed.

(** The sorted and numbered buckets hold the entries that were fetched. *)
Lemma display_buckets_perm {T : Type} (d : Display.PointsEntry -> T)
    (pointsEntries : list Display.PointsEntry)
    (ge : Js.object (list Display.PointsEntry)) :
  (forall e j, d (Display.set_position_in_group e j) = d e) ->
  Display.groupedEntries true pointsEntries = Some ge ->
  Permutation (map d (flat_map snd ge)) (map d pointsEntries).
Proof.
  intros Hd. unfold Display.groupedEntries.
  destruct (Grouping.group_entries Display.group_name pointsEntries)
    as [acc|] eqn:Hacc; [|discriminate].
  intros [= <-]. apply GroupingFacts.group_entries_groups in Hacc.
  destruct Hacc as (_ & _ & Hperm & _).
  transitivity (map d (flat_map snd acc)); [|now apply Permutation_map].
  clear Hperm. induction acc as [|b acc IH]; simpl; [constructor|].
  rewrite !map_app. apply Permutation_app; [|assumption].
  unfold Js.mapi. rewrite (JsFacts.map_mapi_from d d) by assumption.
  apply Permutation_map, JsFacts.sort_perm.
Qed.

Lemma display_keys_nodup (pointsEntries : list Display.PointsEntry)
    (ge : Js.object (list Display.PointsEntry)) :
  Display.groupedEntries true pointsEntries = Some ge ->
  NoDup (map fst ge).
Proof.
  unfold Display.groupedEntries.
  destruct (Grouping.group_entries Display.group_name pointsEntries)
    as [acc|] eqn:Hacc; [|discriminate].
  intros [= <-]. apply GroupingFacts.group_entries_groups in Hacc.
  destruct Hacc as (Hnd & _). now rewrite map_map.
Qed.

Lemma groupPosition_numbered (e : Display.PointsEntry) (j : nat) :
  Display.groupPosition (Display.set_position_in_group e j)
  = (Z.of_nat j + 1)%Z.
Proof.
  unfold Display.groupPosition. simpl.
  destruct (Z.eqb_spec (Z.of_nat j + 1) 0); [lia | reflexivity].
Qed.

(** X13.  When the participant view draws group tables, every fetched
    entry is drawn exactly once (name and counters as fetched), no group
    has two tables, no table is empty, and the ranks of a table are
    1, ..., M from the top, M the number of entries of its group. *)
Theorem group_tables_show_every_entry_once
    (localeCompare : string -> string -> Z)
    (teamSize : Js.value) (loading : bool)
    (pointsEntries : list Display.PointsEntry)
    (displayMode : Display.DisplayMode)
    (gs : list (string * list Display.Row)) :
  Display.render localeCompare teamSize loading pointsEntries displayMode
  = Display.GroupTables gs ->
  Permutation
    (map (fun r => (Display.r_team_name r, Display.r_points r,
                    Display.r_kills r, Display.r_wins r))
         (flat_map snd gs))
    (map (fun e => (Display.team_name e, Display.points e,
                    Display.kills e, Display.wins e))
         pointsEntries)
  /\ NoDup (map fst gs)
  /\ forall k rows, In (k, rows) gs ->
       rows <> []
       /\ List.length rows
          = List.length
              (filter (fun e => String.eqb (Display.group_key e) k)
                      pointsEntries)
       /\ map Display.r_rank rows = map Z.of_nat (seq 1 (List.length rows)).
Proof.
  intros Hr.
  destruct (render_group_tables_inv _ _ _ _ _ _ Hr)
    as (_ & _ & _ & _ & ge & Hge & ->).
  set (byName := fun a b : string * list Display.PointsEntry =>
                   localeCompare (fst a) (fst b)).
  assert (Hsorted : Permutation (Js.sort byName (Js.entries ge)) ge).
  { etransitivity; [apply JsFacts.sort_perm | apply ObjectFacts.entries_perm]. }
  split; [|split].
  - rewrite flat_map_map_snd, map_map. simpl.
    transitivity
      (map (fun e => (Display.team_name e, Display.points e,
                      Display.kills e, Display.wins e))
           (flat_map snd ge)).
    + apply Permutation_map, Permutation_flat_map, Hsorted.
    + apply display_buckets_perm; [reflexivity | assumption].
  - rewrite map_map. simpl.
    apply (Permutation_NoDup (l := map fst ge));
      [|now apply (display_keys_nodup pointsEntries)].
    symmetry. now apply Permutation_map.
  - intros k rows Hin. apply in_map_iff in Hin as ([k0 es] & Heq & Hin).
    simpl in Heq. injection Heq as -> <-.
    apply (Permutation_in _ Hsorted) in Hin.
    destruct (display_bucket_shape _ _ _ _ Hge Hin) as [-> Hne].
    rewrite !length_map, JsFacts.mapi_length, JsFacts.sort_length.
    repeat split.
    + intros Hnil. apply (f_equal (@List.length _)) in Hnil.
      rewrite length_map, JsFacts.mapi_length, JsFacts.sort_length in Hnil.
      apply length_zero_iff_nil in Hnil. contradiction.
    + rewrite map_map. unfold Js.mapi.
      rewrite (JsFacts.map_mapi_from_index
                 (fun e => Display.r_rank (Display.group_row e))
                 (fun j => (Z.of_nat j + 1)%Z))
        by (intros x j; apply groupPosition_numbered).
      rewrite JsFacts.sort_length, <- seq_shift, map_map.
      apply map_ext. intros j. lia.
Qed.

Lemma group_tables_show_every_entry_once_witness :
  NoDup
    (map fst
       [("Group A",
         map Display.group_row
           [Display.set_position_in_group
              (Samples.shown "Y" 10 2 3 (Some "Group A")) 0;
            Display.set_position_in_group
              (Samples.shown "X" 10 2 0 (Some "Group A")) 1])]).
Proof.
  apply (group_tables_show_every_entry_once (fun _ _ => 0%Z)
           (Js.Str "Squad") false Samples.shown_level_but_for_wins
           Display.grouped
           [("Group A",
             map Display.group_row
               [Display.set_position_in_group
                  (Samples.shown "Y" 10 2 3 (Some "Group A")) 0;
                Display.set_position_in_group
                  (Samples.shown "X" 10 2 0 (Some "Group A")) 1])]).
  reflexivity.
Defined.

(** X14.  The participant view fails while rendering exactly when the
    tournament is a squad or 5-man one, loading is over and some entry
    carries a label that object literals inherit (such as [constructor]);
    for every other size such labels are harmless. *)
Theorem render_fails_exactly_on_inherited_labels
    (localeCompare : string -> string -> Z)
    (teamSize : Js.value) (loading : bool)
    (pointsEntries : list Display.PointsEntry)
    (displayMode : Display.DisplayMode) :
  Display.render localeCompare teamSize loading pointsEntries displayMode
  = Display.RenderError
  <-> (Display.parseTeamSize teamSize = Js.Num 4
       \/ Display.parseTeamSize teamSize = Js.Num 5)
      /\ loading = false
      /\ Exists (fun e => Js.inherited (Display.group_key e) = true)
                pointsEntries.
Proof.
  unfold Display.render. cbv zeta. split.
  - destruct (negb (Js.gt (Display.parseTeamSize teamSize) 1)); [discriminate|].
    destruct loading; [discriminate|].
    destruct (List.length pointsEntries =? 0); [discriminate|].
    destruct (Js.strict_eq (Display.parseTeamSize teamSize) 5
              || Js.strict_eq (Display.parseTeamSize teamSize) 4) eqn:Hs.
    + unfold Display.groupedEntries.
      destruct (Grouping.group_entries Display.group_name pointsEntries)
        as [acc|] eqn:Hacc.
      * destruct (_ && _); discriminate.
      * intros _. repeat split; [now apply supports_grouping_sizes|].
        destruct (Forall_Exists_dec
                    (fun e => Js.inherited (Display.group_key e) = false)
                    (fun e => bool_dec _ false) pointsEntries) as [Hall | Hex].
        -- destruct (GroupingFacts.group_entries_some Display.group_name
                       pointsEntries Hall) as [acc Hacc'].
           unfold Display.group_name in *. congruence.
        -- apply (Exists_impl (P := fun e => Js.inherited (Display.group_key e) <> false));
             [|assumption].
           intros e He. now destruct (Js.inherited (Display.group_key e)).
    + simpl. destruct displayMode; discriminate.
  - intros (Hsize & -> & Hex).
    assert (Hne : (List.length pointsEntries =? 0) = false).
    { destruct pointsEntries; [inversion Hex | reflexivity]. }
    rewrite Hne.
    assert (Hnone : Display.groupedEntries true pointsEntries = None).
    { unfold Display.groupedEntries.
      destruct (Grouping.group_entries Display.group_name pointsEntries)
        as [acc|] eqn:Hacc; [|reflexivity].
      apply GroupingFacts.group_entries_keys_ok in Hacc.
      apply Exists_exists in Hex as (e & Hin & He).
      rewrite Forall_forall in Hacc. specialize (Hacc e Hin).
      unfold Display.group_key in He. congruence. }
    destruct Hsize as [-> | ->].
    + change (negb (Js.gt (Js.Num 4) 1)) with false.
      change (Js.strict_eq (Js.Num 4) 5 || Js.strict_eq (Js.Num 4) 4) with true.
      cbv beta iota. now rewrite Hnone.
    + change (negb (Js.gt (Js.Num 5) 1)) with false.
      change (Js.strict_eq (Js.Num 5) 5 || Js.strict_eq (Js.Num 5) 4) with true.
      cbv beta iota. now rewrite Hnone.
Qed.

Lemma render_fails_exactly_on_inherited_labels_witness :
  Display.render (fun _ _ => 0%Z) (Js.Str "Squad") false
                 [Samples.shown "a" 3 0 0 (Some "constructor")]
                 Display.ungrouped
  = Display.RenderError.
Proof.
  apply (proj2 (render_fails_exactly_on_inherited_labels (fun _ _ => 0%Z)
                  (Js.Str "Squad") false
                  [Samples.shown "a" 3 0 0 (Some "constructor")]
                  Display.ungrouped)).
  split; [left; reflexivity|]. split; [reflexivity|].
  constructor. reflexivity.
Defined.

(** ** Team sizes across the components *)

Lemma prefix_empty (s : string) : String.prefix "" s = true.
Proof. destruct s; reflexivity. Qed.

Lemma prefix_cons (a b : ascii) (w s : string) :
  String.prefix (String a w) (String b s) = Ascii.eqb a b && String.prefix w s.
Proof.
  cbn [String.prefix]. destruct (Ascii.ascii_dec a b) as [-> | Hne].
  - now rewrite Ascii.eqb_refl.
  - apply Ascii.eqb_neq in Hne. now rewrite Hne.
Qed.

Lemma includes_cons (c : ascii) (s sub : string) :
  Js.includes (String c s) sub
  = String.prefix sub (String c s) || Js.includes s sub.
Proof. reflexivity. Qed.

Lemma prefix_other_head (c0 c : ascii) (w s : string) :
  Js.plain_byte c0 = true -> Js.plain_byte c = false ->
  String.prefix (String c0 w) (String c s) = false.
Proof.
  intros H0 Hc. rewrite prefix_cons.
  destruct (Ascii.eqb_spec c0 c) as [-> | _]; [congruence | reflexivity].
Qed.

Lemma continuation_not_plain (c : ascii) :
  Js.is_continuation c = true -> Js.plain_byte c = false.
Proof.
  unfold Js.is_continuation, Js.plain_byte. cbv zeta. intros H.
  apply andb_true_iff in H as [H _]. apply Nat.leb_le in H.
  replace (nat_of_ascii c <? 128) with false
    by (symmetry; apply Nat.ltb_ge; lia).
  reflexivity.
Qed.

Lemma space_head_not_plain (a : ascii) (r : string) :
  Js.starts_with_space (String a r) = true -> Js.plain_byte a = false.
Proof.
  intros H. destruct (Js.plain_byte a) eqn:Ha; [|reflexivity].
  rewrite (TextFacts.plain_byte_head a r Ha) in H. discriminate.
Qed.

(** The bytes after the lead byte of a character are continuation bytes. *)
Lemma char_length_continuations (a : ascii) (r : string) :
  Js.continuations (Js.char_length (String a r) - 1) r = true.
Proof.
  unfold Js.char_length.
  destruct (Js.continuations (Js.lead_length a - 1) r) eqn:H;
    [exact H | reflexivity].
Qed.

Lemma includes_trimStart_from (c0 : ascii) (w s : string) (k : nat) :
  Js.plain_byte c0 = true -> Js.continuations k s = true ->
  Js.includes (Js.trimStart_from k s) (String c0 w)
  = Js.includes s (String c0 w).
Proof.
  intros H0. revert k. induction s as [|c s IH]; intros k Hk.
  - destruct k; reflexivity.
  - cbn [Js.trimStart_from]. destruct k as [|k].
    + destruct (Js.starts_with_space (String c s)) eqn:Hc; [|reflexivity].
      rewrite IH by apply char_length_continuations.
      rewrite includes_cons, prefix_other_head;
        [reflexivity | assumption | now apply (space_head_not_plain c s)].
    + cbn [Js.continuations] in Hk. apply andb_true_iff in Hk as [Hc Hk].
      rewrite IH by assumption.
      rewrite includes_cons, prefix_other_head;
        [reflexivity | assumption | now apply continuation_not_plain].
Qed.

Lemma includes_trimStart (c0 : ascii) (w s : string) :
  Js.plain_byte c0 = true ->
  Js.includes (Js.trimStart s) (String c0 w) = Js.includes s (String c0 w).
Proof. intros H0. now apply includes_trimStart_from. Qed.

(** Text of white space only starts with a byte that is not plain. *)
Lemma all_space_head (a : ascii) (r : string) :
  Js.all_space (String a r) = true -> Js.plain_byte a = false.
Proof.
  unfold Js.all_space. intros H.
  destruct (Js.plain_byte a) eqn:Ha; [|reflexivity].
  rewrite (TextFacts.trimStart_plain_head a r Ha) in H. discriminate.
Qed.

Lemma all_space_includes (c0 : ascii) (w s : string) :
  Js.plain_byte c0 = true -> Js.all_space s = true ->
  Js.includes s (String c0 w) = false.
Proof.
  intros H0 Hall. rewrite <- (includes_trimStart c0 w s H0).
  unfold Js.all_space in Hall. now destruct (Js.trimStart s).
Qed.

Lemma prefix_trimEnd_from (w s : string) (k : nat) :
  forallb Js.plain_byte (list_ascii_of_string w) = true ->
  Js.continuations k s = true ->
  String.prefix w (Js.trimEnd_from k s) = String.prefix w s.
Proof.
  revert w k. induction s as [|c s IH]; intros w k Hw Hk.
  - destruct k; reflexivity.
  - destruct w as [|c0 w]; [now rewrite !prefix_empty|].
    cbn [list_ascii_of_string forallb] in Hw.
    apply andb_true_iff in Hw as [H0 Hw].
    cbn [Js.trimEnd_from]. destruct k as [|k].
    + destruct (Js.all_space (String c s)) eqn:Hall.
      * rewrite prefix_other_head;
          [reflexivity | assumption | now apply (all_space_head c s)].
      * rewrite !prefix_cons, IH;
          [reflexivity | assumption | apply char_length_continuations].
    + cbn [Js.continuations] in Hk. apply andb_true_iff in Hk as [_ Hk].
      rewrite !prefix_cons, IH by assumption. reflexivity.
Qed.

Lemma includes_trimEnd_from (c0 : ascii) (w s : string) (k : nat) :
  forallb Js.plain_byte (list_ascii_of_string (String c0 w)) = true ->
  Js.continuations k s = true ->
  Js.includes (Js.trimEnd_from k s) (String c0 w)
  = Js.includes s (String c0 w).
Proof.
  intros Hw.
  assert (H0 : Js.plain_byte c0 = true).
  { cbn [list_ascii_of_string forallb] in Hw.
    now apply andb_true_iff in Hw as [H0 _]. }
  revert k. induction s as [|c s IH]; intros k Hk.
  - destruct k; reflexivity.
  - pose proof (prefix_trimEnd_from (String c0 w) (String c s) k Hw Hk)
      as Hprefix.
    cbn [Js.trimEnd_from] in Hprefix |- *. destruct k as [|k].
    + destruct (Js.all_space (String c s)) eqn:Hall.
      * rewrite (all_space_includes c0 w (String c s)) by assumption.
        reflexivity.
      * rewrite !includes_cons, Hprefix, IH
          by apply char_length_continuations.
        reflexivity.
    + cbn [Js.continuations] in Hk. apply andb_true_iff in Hk as [_ Hk].
      rewrite !includes_cons, Hprefix, IH by assumption. reflexivity.
Qed.

Lemma includes_trimEnd (c0 : ascii) (w s : string) :
  forallb Js.plain_byte (list_ascii_of_string (String c0 w)) = true ->
  Js.includes (Js.trimEnd s) (String c0 w) = Js.includes s (String c0 w).
Proof. intros Hw. now apply includes_trimEnd_from. Qed.

(** Trimming neither hides nor creates an occurrence of a word made of
    plain bytes. *)
Lemma includes_trim (c0 : ascii) (w s : string) :
  forallb Js.plain_byte (list_ascii_of_string (String c0 w)) = true ->
  Js.includes (Js.trim s) (String c0 w) = Js.includes s (String c0 w).
Proof.
  intros Hw. unfold Js.trim. rewrite includes_trimEnd by assumption.
  apply includes_trimStart.
  cbn [list_ascii_of_string forallb] in Hw.
  now apply andb_true_iff in Hw as [H0 _].
Qed.

Lemma includes_weaken (w w2 s : string) :
  (forall t, String.prefix w2 t = true -> String.prefix w t = true) ->
  Js.includes s w2 = true -> Js.includes s w = true.
Proof.
  intros Hp. induction s as [|c s IH].
  - cbn [Js.includes]. rewrite !orb_false_r. apply Hp.
  - rewrite !includes_cons. intros H. apply orb_true_iff in H as [H | H].
    + now rewrite (Hp _ H).
    + rewrite (IH H). apply orb_true_r.
Qed.

Lemma prefix_starts_with_5 (w t : string) :
  String.prefix (String "5" w) t = true -> String.prefix "5" t = true.
Proof.
  destruct t as [|c t]; [discriminate|]. rewrite !prefix_cons.
  intros H. apply andb_true_iff in H as [-> _]. now rewrite prefix_empty.
Qed.

(** The tests of the parsers on the trimmed text, read on the text itself. *)
Lemma trimmed_tests (L : string) :
  Js.includes (Js.trim L) "duo" = Js.includes L "duo"
  /\ Js.includes (Js.trim L) "squad" = Js.includes L "squad"
  /\ Js.includes (Js.trim L) "5" = Js.includes L "5"
  /\ Js.includes (Js.trim L) "five" = Js.includes L "five"
  /\ Js.includes (Js.trim L) "5-man" = Js.includes L "5-man".
Proof. repeat split; apply includes_trim; reflexivity. Qed.

(** A text that is exactly [2] or [4] mentions no size name. *)
Lemma digit_text_tests (T : string) :
  String.eqb T "2" = true \/ String.eqb T "4" = true ->
  Js.includes T "duo" = false /\ Js.includes T "squad" = false
  /\ Js.includes T "5" = false /\ Js.includes T "five" = false
  /\ Js.includes T "5-man" = false.
Proof.
  intros [H | H]; apply String.eqb_eq in H; subst T; repeat split; reflexivity.
Qed.

Lemma includes_5man (L : string) :
  Js.includes L "5-man" = true -> Js.includes L "5" = true.
Proof. apply includes_weaken. intros t. apply prefix_starts_with_5. Qed.

Lemma includes_5man_team (L : string) :
  Js.includes L "5-man team" = true -> Js.includes L "5" = true.
Proof. apply includes_weaken. intros t. apply prefix_starts_with_5. Qed.

Lemma isListed_text (i s : string) :
  AdminKind.isListed {| AdminKind.id := i; AdminKind.team_size := Js.Str s |}
  = negb (String.eqb s "")
    && (Js.includes (Js.toLowerCase s) "duo"
        || (Js.includes (Js.toLowerCase s) "squad"
            || (Js.includes (Js.toLowerCase s) "5-man"
                || (Js.includes (Js.toLowerCase s) "5-man team" || false)))).
Proof. reflexivity. Qed.

Lemma parse_size_string_named (s : string) :
  Js.includes (Js.toLowerCase s) "duo" = true
  \/ Js.includes (Js.toLowerCase s) "squad" = true
  \/ Js.includes (Js.toLowerCase s) "5" = true ->
  Js.gt (Display.parse_size_string s) 1 = true.
Proof.
  intros H. unfold Display.parse_size_string. cbv zeta.
  destruct (trimmed_tests (Js.toLowerCase s)) as (-> & -> & -> & -> & _).
  destruct (Js.includes (Js.toLowerCase s) "duo"); [reflexivity|].
  destruct (String.eqb (Js.trim (Js.toLowerCase s)) "2"); [reflexivity|].
  destruct (Js.includes (Js.toLowerCase s) "squad"); [reflexivity|].
  destruct (String.eqb (Js.trim (Js.toLowerCase s)) "4"); [reflexivity|].
  destruct (Js.includes (Js.toLowerCase s) "5"); [reflexivity|].
  destruct H as [H | [H | H]]; discriminate H.
Qed.

Lemma listed_size (t : AdminKind.Tournament) :
  AdminKind.isListed t = true ->
  Js.gt (Display.parseTeamSize (AdminKind.team_size t)) 1 = true
  /\ RegisteredTeams.isTeamTournament (AdminKind.team_size t) = true.
Proof.
  destruct t as [i [| |[|]|n|s]]; try discriminate.
  - unfold AdminKind.isListed. cbn [AdminKind.team_size].
    intros H. apply andb_true_iff in H as [_ H]. now split.
  - rewrite isListed_text. intros H. apply andb_true_iff in H as [Hs H].
    cbn [AdminKind.team_size].
    unfold RegisteredTeams.isTeamTournament, RegisteredTeams.parseTeamSize,
      Display.parseTeamSize.
    cbn [AdminKind.falsy AdminKind.to_string].
    destruct (String.eqb s ""); [discriminate|]. cbv zeta.
    assert (Hnamed : Js.includes (Js.toLowerCase s) "duo" = true
                     \/ Js.includes (Js.toLowerCase s) "squad" = true
                     \/ Js.includes (Js.toLowerCase s) "5" = true).
    { rewrite orb_false_r in H.
      apply orb_true_iff in H as [H | H]; [now left|].
      apply orb_true_iff in H as [H | H]; [now right; left|].
      right. right.
      apply orb_true_iff in H as [H | H];
        [now apply includes_5man | now apply includes_5man_team]. }
    split; [now apply parse_size_string_named|].
    destruct (Js.includes (Js.toLowerCase s) "duo"); [reflexivity|].
    destruct (Js.includes (Js.toLowerCase s) "squad"); [reflexivity|].
    destruct (Js.includes (Js.toLowerCase s) "5"); [reflexivity|].
    destruct Hnamed as [Hn | [Hn | Hn]]; discriminate Hn.
Qed.

(** X15.  Every tournament the admin panel lists for its points table is
    a team tournament for the two participant components as well: given
    the same [team_size], [PointsTable] renders something and
    [RegisteredTeams] loads the teams. *)
Theorem listed_tournaments_are_shown
    (localeCompare : string -> string -> Z)
    (tournaments : list AdminKind.Tournament) (t : AdminKind.Tournament)
    (loading : bool) (pointsEntries : list Display.PointsEntry)
    (displayMode : Display.DisplayMode) :
  In t (AdminKind.teamTournaments tournaments) ->
  Display.render localeCompare (AdminKind.team_size t) loading pointsEntries
                 displayMode <> Display.Nothing
  /\ RegisteredTeams.isTeamTournament (AdminKind.team_size t) = true.
Proof.
  intros Hin. apply filter_In in Hin as [_ Hlisted].
  destruct (listed_size t Hlisted) as [Hgt Hteam]. split; [|assumption].
  unfold Display.render. cbv zeta. rewrite Hgt. cbn [negb].
  destruct loading; [discriminate|].
  destruct (List.length pointsEntries =? 0); [discriminate|].
  destruct (Display.groupedEntries _ pointsEntries); [|discriminate].
  destruct (_ && _); discriminate.
Qed.

Lemma listed_tournaments_are_shown_witness :
  Display.render (fun _ _ => 0%Z) (Js.Str "5-Man Team") false
                 Samples.shown_level_but_for_wins Display.grouped
  <> Display.Nothing
  /\ RegisteredTeams.isTeamTournament (Js.Str "5-Man Team") = true.
Proof.
  apply (listed_tournaments_are_shown (fun _ _ => 0%Z)
           [ {| AdminKind.id := "t0"; AdminKind.team_size := Js.Str "Solo" |};
             {| AdminKind.id := "t1";
                AdminKind.team_size := Js.Str "5-Man Team" |} ]
           {| AdminKind.id := "t1"; AdminKind.team_size := Js.Str "5-Man Team" |}
           false Samples.shown_level_but_for_wins Display.grouped).
  simpl. auto.
Defined.

(** X16.  Where the admin panel offers grouping for a size given as text
    that does not mention [duo], the participant view takes the
    tournament for a squad or 5-man one, the only sizes for which it
    draws group tables. *)
Theorem grouping_offered_is_grouping_shown
    (tournaments : list AdminKind.Tournament) (selectedTournament : string)
    (t : AdminKind.Tournament) (s : string) :
  find (fun t => String.eqb (AdminKind.id t) selectedTournament) tournaments
  = Some t ->
  AdminKind.team_size t = Js.Str s ->
  AdminKind.supportsGrouping tournaments selectedTournament = true ->
  Js.includes (Js.toLowerCase s) "duo" = false ->
  Display.parseTeamSize (Js.Str s) = Js.Num 4
  \/ Display.parseTeamSize (Js.Str s) = Js.Num 5.
Proof.
  intros Hfind Hsize Hsup Hduo. unfold AdminKind.supportsGrouping in Hsup.
  rewrite Hfind in Hsup.
  unfold AdminKind.is5ManTeamTournament, AdminKind.isSquadTournament in Hsup.
  rewrite Hsize in Hsup. cbn [AdminKind.falsy AdminKind.to_string] in Hsup.
  unfold Display.parseTeamSize, Display.parse_size_string.
  destruct (String.eqb s ""); [discriminate|]. cbv zeta in Hsup |- *.
  pose proof (digit_text_tests (Js.trim (Js.toLowerCase s))) as Hdigit.
  pose proof (includes_5man (Js.trim (Js.toLowerCase s))) as H5man.
  destruct (trimmed_tests (Js.toLowerCase s)) as (Ed & _).
  rewrite <- Ed in Hduo. rewrite Hduo.
  destruct (String.eqb (Js.trim (Js.toLowerCase s)) "2") eqn:E2.
  - destruct Hdigit as (_ & Hq & H5 & Hfive & Hm); [now left|].
    rewrite Hq, H5, Hfive, Hm in Hsup.
    apply String.eqb_eq in E2. rewrite E2 in Hsup. discriminate.
  - cbn [orb].
    destruct (Js.includes (Js.trim (Js.toLowerCase s)) "squad"); [now left|].
    destruct (String.eqb (Js.trim (Js.toLowerCase s)) "4"); [now left|].
    cbn [orb].
    destruct (Js.includes (Js.trim (Js.toLowerCase s)) "5"); [now right|].
    destruct (Js.includes (Js.trim (Js.toLowerCase s)) "five"); [now right|].
    destruct (Js.includes (Js.trim (Js.toLowerCase s)) "5-man");
      [|discriminate].
    specialize (H5man eq_refl). discriminate.
Qed.

Lemma grouping_offered_is_grouping_shown_witness :
  Display.parseTeamSize (Js.Str " Squad ") = Js.Num 4
  \/ Display.parseTeamSize (Js.Str " Squad ") = Js.Num 5.
Proof.
  apply (grouping_offered_is_grouping_shown
           [ {| AdminKind.id := "t1"; AdminKind.team_size := Js.Str " Squad " |} ]
           "t1"
           {| AdminKind.id := "t1"; AdminKind.team_size := Js.Str " Squad " |}
           " Squad "); reflexivity.
Defined.

(** X17.  [RegisteredTeams] and [PointsTable] each parse the team size
    with a function of their own; whenever [RegisteredTeams] takes the
    tournament for a team tournament, [PointsTable] computes the same
    size from the same value. *)
Theorem registered_size_is_points_table_size (teamSize : Js.value) :
  RegisteredTeams.isTeamTournament teamSize = true ->
  Display.parseTeamSize teamSize = RegisteredTeams.parseTeamSize teamSize.
Proof.
  unfold RegisteredTeams.isTeamTournament.
  destruct teamSize as [| |[|]|n|s]; try discriminate; [reflexivity|].
  unfold RegisteredTeams.parseTeamSize, Display.parseTeamSize,
    Display.parse_size_string.
  cbn [AdminKind.falsy AdminKind.to_string].
  destruct (String.eqb s ""); [discriminate|]. cbv zeta.
  pose proof (digit_text_tests (Js.trim (Js.toLowerCase s))) as Hdigit.
  destruct (trimmed_tests (Js.toLowerCase s)) as (Ed & Eq & E5 & Efive & _).
  rewrite <- Ed, <- Eq, <- E5, <- Efive.
  destruct (String.eqb (Js.trim (Js.toLowerCase s)) "2") eqn:E2.
  - destruct Hdigit as (-> & -> & -> & -> & _); [now left|]. discriminate.
  - destruct (Js.includes (Js.trim (Js.toLowerCase s)) "duo"); [reflexivity|].
    cbn [orb].
    destruct (String.eqb (Js.trim (Js.toLowerCase s)) "4") eqn:E4.
    + destruct Hdigit as (_ & -> & -> & -> & _); [now right|]. discriminate.
    + destruct (Js.includes (Js.trim (Js.toLowerCase s)) "squad");
        [reflexivity|].
      cbn [orb].
      destruct (Js.includes (Js.trim (Js.toLowerCase s)) "5"
                || Js.includes (Js.trim (Js.toLowerCase s)) "five");
        [reflexivity | discriminate].
Qed.

Lemma registered_size_is_points_table_size_witness :
  Display.parseTeamSize (Js.Str "Team of Five")
  = RegisteredTeams.parseTeamSize (Js.Str "Team of Five").
Proof.
  apply (registered_size_is_points_table_size (Js.Str "Team of Five")).
  reflexivity.
Defined.

(** ** What is stored and what is shown *)

Lemma filter_map_pre {T U : Type} (f : T -> U) (p : U -> bool) (l : list T) :
  filter p (map f l) = map f (filter (fun x => p (f x)) l).
Proof.
  induction l as [|x l IH]; simpl; [reflexivity|].
  destruct (p (f x)); simpl; now rewrite IH.
Qed.

Lemma strongly_sorted_filter {T : Type} (R : T -> T -> Prop) (p : T -> bool)
    (l : list T) :
  StronglySorted R l -> StronglySorted R (filter p l).
Proof.
  induction 1 as [|x l Hs IH Hall]; simpl; [constructor|].
  destruct (p x); [|assumption]. constructor; [assumption|].
  apply Forall_forall. intros y Hy. apply filter_In in Hy as [Hy _].
  now apply (proj1 (Forall_forall _ _) Hall).
Qed.

Lemma strongly_sorted_impl {T : Type} (R R' : T -> T -> Prop) (l : list T) :
  (forall x y, R x y -> R' x y) ->
  StronglySorted R l -> StronglySorted R' l.
Proof.
  intros Himpl. induction 1 as [|x l Hs IH Hall]; constructor; [assumption|].
  eapply Forall_impl; [|exact Hall]. intros y. apply Himpl.
Qed.

Lemma columns_byPointsThenKills_total (a b : Columns.t) :
  (0 < Columns.byPointsThenKills a b)%Z -> (Columns.byPointsThenKills b a <= 0)%Z.
Proof.
  unfold Columns.byPointsThenKills.
  destruct (Z.eqb_spec (Columns.c_points b) (Columns.c_points a));
    destruct (Z.eqb_spec (Columns.c_points a) (Columns.c_points b)); simpl; lia.
Qed.

Lemma columns_byPointsThenKills_trans (a b c : Columns.t) :
  (Columns.byPointsThenKills a b <= 0)%Z ->
  (Columns.byPointsThenKills b c <= 0)%Z ->
  (Columns.byPointsThenKills a c <= 0)%Z.
Proof.
  unfold Columns.byPointsThenKills.
  destruct (Z.eqb_spec (Columns.c_points b) (Columns.c_points a));
    destruct (Z.eqb_spec (Columns.c_points c) (Columns.c_points b));
    destruct (Z.eqb_spec (Columns.c_points c) (Columns.c_points a)); simpl; lia.
Qed.

Lemma columns_byPointsKillsWins_total (a b : Columns.t) :
  (0 < Columns.byPointsKillsWins a b)%Z -> (Columns.byPointsKillsWins b a <= 0)%Z.
Proof.
  unfold Columns.byPointsKillsWins.
  destruct (Z.eqb_spec (Columns.c_points b) (Columns.c_points a));
    destruct (Z.eqb_spec (Columns.c_points a) (Columns.c_points b));
    destruct (Z.eqb_spec (Columns.c_kills b) (Columns.c_kills a));
    destruct (Z.eqb_spec (Columns.c_kills a) (Columns.c_kills b)); simpl; lia.
Qed.

Lemma columns_byPointsKillsWins_trans (a b c : Columns.t) :
  (Columns.byPointsKillsWins a b <= 0)%Z ->
  (Columns.byPointsKillsWins b c <= 0)%Z ->
  (Columns.byPointsKillsWins a c <= 0)%Z.
Proof.
  unfold Columns.byPointsKillsWins.
  destruct (Z.eqb_spec (Columns.c_points b) (Columns.c_points a));
    destruct (Z.eqb_spec (Columns.c_points c) (Columns.c_points b));
    destruct (Z.eqb_spec (Columns.c_points c) (Columns.c_points a));
    destruct (Z.eqb_spec (Columns.c_kills b) (Columns.c_kills a));
    destruct (Z.eqb_spec (Columns.c_kills c) (Columns.c_kills b));
    destruct (Z.eqb_spec (Columns.c_kills c) (Columns.c_kills a)); simpl; lia.
Qed.

(** The three-key order refines the two-key order. *)
Lemma columns_wins_refine (a b : Columns.t) :
  (Columns.byPointsKillsWins a b <= 0)%Z ->
  (Columns.byPointsThenKills a b <= 0)%Z.
Proof.
  unfold Columns.byPointsKillsWins, Columns.byPointsThenKills.
  destruct (Z.eqb_spec (Columns.c_points b) (Columns.c_points a));
    destruct (Z.eqb_spec (Columns.c_kills b) (Columns.c_kills a)); simpl; lia.
Qed.

Lemma columns_level (a b : Columns.t) :
  (Columns.byPointsThenKills a b <= 0)%Z ->
  (Columns.byPointsThenKills b a <= 0)%Z ->
  Columns.c_points a = Columns.c_points b
  /\ Columns.c_kills a = Columns.c_kills b.
Proof.
  unfold Columns.byPointsThenKills.
  destruct (Z.eqb_spec (Columns.c_points b) (Columns.c_points a));
    destruct (Z.eqb_spec (Columns.c_points a) (Columns.c_points b)); simpl; lia.
Qed.

(** The members of one group in the admin ranking, on their columns. *)
Lemma admin_group_columns (k : string) (l : list PointsTableEntry) :
  map Columns.of_entry
      (filter (Grouping.in_group group_name k) (Js.sort byPointsThenKills l))
  = filter (fun c => String.eqb (Columns.group_key c) k)
           (Js.sort Columns.byPointsThenKills (map Columns.of_entry l)).
Proof.
  rewrite (JsFacts.sort_map byPointsThenKills Columns.byPointsThenKills
             Columns.of_entry) by reflexivity.
  now rewrite filter_map_pre.
Qed.

(** The members of one group table of the view, on their columns. *)
Lemma shown_group_columns (k : string) (pes : list Display.PointsEntry) :
  map Columns.of_shown
      (Js.sort Display.byPointsKillsWins
         (filter (Grouping.in_group Display.group_name k) pes))
  = Js.sort Columns.byPointsKillsWins
      (filter (fun c => String.eqb (Columns.group_key c) k)
              (map Columns.of_shown pes)).
Proof.
  rewrite filter_map_pre.
  now rewrite (JsFacts.sort_map Display.byPointsKillsWins
                 Columns.byPointsKillsWins Columns.of_shown) by reflexivity.
Qed.

(** With no two members of a group level on points and kills, both
    components put the members of the group in the same order. *)
Lemma same_group_order (k : string) (l : list PointsTableEntry)
    (pes : list Display.PointsEntry) :
  Permutation (map Columns.of_shown pes) (map Columns.of_entry l) ->
  (forall x y, In x l -> In y l -> group_key x = group_key y ->
     points x = points y -> kills x = kills y -> x = y) ->
  map Columns.of_shown
      (Js.sort Display.byPointsKillsWins
         (filter (Grouping.in_group Display.group_name k) pes))
  = map Columns.of_entry
      (filter (Grouping.in_group group_name k) (Js.sort byPointsThenKills l)).
Proof.
  intros Hperm Hlevel. rewrite admin_group_columns, shown_group_columns.
  symmetry.
  apply (SortOrder.sorted_perm_unique Columns.byPointsThenKills).
  - apply strongly_sorted_filter.
    apply (SortOrder.sort_strongly_sorted Columns.byPointsThenKills
             columns_byPointsThenKills_total columns_byPointsThenKills_trans).
  - apply (strongly_sorted_impl
             (fun x y => (Columns.byPointsKillsWins x y <= 0)%Z));
      [apply columns_wins_refine|].
    apply (SortOrder.sort_strongly_sorted Columns.byPointsKillsWins
             columns_byPointsKillsWins_total columns_byPointsKillsWins_trans).
  - etransitivity;
      [apply AdminFacts.filter_perm, JsFacts.sort_perm|].
    etransitivity;
      [|apply Permutation_sym, JsFacts.sort_perm].
    apply AdminFacts.filter_perm. now symmetry.
  - intros x y Hx Hy Hxy Hyx.
    apply filter_In in Hx as [Hx Hkx]. apply filter_In in Hy as [Hy Hky].
    apply (proj1 (JsFacts.sort_in Columns.byPointsThenKills _ _)) in Hx.
    apply (proj1 (JsFacts.sort_in Columns.byPointsThenKills _ _)) in Hy.
    apply in_map_iff in Hx as (x' & <- & Hx).
    apply in_map_iff in Hy as (y' & <- & Hy).
    apply String.eqb_eq in Hkx, Hky.
    destruct (columns_level _ _ Hxy Hyx) as [Hp Hk].
    f_equal. apply Hlevel; try assumption.
    change (Columns.group_key (Columns.of_entry x')
            = Columns.group_key (Columns.of_entry y')).
    congruence.
Qed.

(** X18.  Where no two records of a group are level on points and kills,
    the participant view and the admin panel agree: the rank the view
    computes for an entry of a group table is the [position_in_group]
    that [autoCalculatePositions] writes for the record with that id,
    whatever order and whatever positions the view received. *)
Theorem shown_group_rank_is_written_rank (selectedTournament : string)
    (l : list PointsTableEntry) (ups : list Update)
    (pes : list Display.PointsEntry)
    (ge : Js.object (list Display.PointsEntry))
    (k : string) (es : list Display.PointsEntry) (e : Display.PointsEntry) :
  autoCalculatePositions true selectedTournament l = Upserted ups ->
  Permutation (map Columns.of_shown pes) (map Columns.of_entry l) ->
  (forall x y, In x l -> In y l -> group_key x = group_key y ->
     points x = points y -> kills x = kills y -> x = y) ->
  Display.groupedEntries true pes = Some ge ->
  In (k, es) ge -> In e es ->
  exists u, In u ups
    /\ u_id u = Display.id e
    /\ update_key u = k
    /\ u_position_in_group u = Display.position_in_group e.
Proof.
  intros Hrun Hperm Hlevel Hge Hin He.
  destruct (display_bucket_shape _ _ _ _ Hge Hin) as [-> _].
  unfold Js.mapi in He. apply JsFacts.mapi_from_in in He as (x & j & Hj & ->).
  pose proof (same_group_order k l pes Hperm Hlevel) as Horder.
  apply (f_equal (fun s => nth_error s j)) in Horder.
  rewrite !nth_error_map, Hj in Horder. simpl in Horder.
  destruct (nth_error (filter (Grouping.in_group group_name k)
                         (Js.sort byPointsThenKills l)) j)
    as [a|] eqn:Ha; [|discriminate].
  simpl in Horder. injection Horder as Hid _ _ _ _.
  unfold autoCalculatePositions in Hrun.
  destruct (String.eqb selectedTournament "" || (List.length l =? 0));
    [discriminate|].
  destruct (Grouping.group_entries group_name (Js.sort byPointsThenKills l))
    as [acc|] eqn:Hacc; [|discriminate].
  injection Hrun as <-.
  pose proof (AdminFacts.filter_grouped_updates _ _ k Hacc) as Hrows.
  exists (grouped_update (Js.sort byPointsThenKills l) a j).
  assert (Hu : In (grouped_update (Js.sort byPointsThenKills l) a j)
                  (filter (fun u => String.eqb (update_key u) k)
                     (grouped_updates (Js.sort byPointsThenKills l) acc))).
  { rewrite Hrows. apply (nth_error_In _ j). unfold Js.mapi.
    rewrite JsFacts.mapi_from_nth, Ha. reflexivity. }
  apply filter_In in Hu as [Hu Hkey]. apply String.eqb_eq in Hkey.
  repeat split; try assumption.
  symmetry. exact Hid.
Qed.

Lemma shown_group_rank_is_written_rank_witness :
  exists u,
    In u (payload (autoCalculatePositions true "t1" Samples.two_groups))
    /\ u_id u = "b"
    /\ update_key u = "X"
    /\ u_position_in_group u = Some 1%Z.
Proof.
  apply (shown_group_rank_is_written_rank "t1" Samples.two_groups
           (payload (autoCalculatePositions true "t1" Samples.two_groups))
           [Samples.shown "d" 1 5 0 (Some "Y"); Samples.shown "a" 3 0 0 (Some "X");
            Samples.shown "b" 7 0 0 (Some "X"); Samples.shown "c" 1 0 0 (Some "Y")]
           [("Y", [Display.set_position_in_group
                     (Samples.shown "d" 1 5 0 (Some "Y")) 0;
                   Display.set_position_in_group
                     (Samples.shown "c" 1 0 0 (Some "Y")) 1]);
            ("X", [Display.set_position_in_group
                     (Samples.shown "b" 7 0 0 (Some "X")) 0;
                   Display.set_position_in_group
                     (Samples.shown "a" 3 0 0 (Some "X")) 1])]
           "X"
           [Display.set_position_in_group
              (Samples.shown "b" 7 0 0 (Some "X")) 0;
            Display.set_position_in_group
              (Samples.shown "a" 3 0 0 (Some "X")) 1]
           (Display.set_position_in_group
              (Samples.shown "b" 7 0 0 (Some "X")) 0)).
  - reflexivity.
  - simpl.
    apply (perm_trans (l' := [Columns.of_entry (Samples.entry "a" 3 0 0 (Some "X"));
                              Columns.of_entry (Samples.entry "b" 7 0 0 (Some "X"));
                              Columns.of_entry (Samples.entry "c" 1 0 0 (Some "Y"));
                              Columns.of_entry (Samples.entry "d" 1 5 0 (Some "Y"))])).
    + change (Permutation
                ([Columns.of_entry (Samples.entry "d" 1 5 0 (Some "Y"))]
                 ++ [Columns.of_entry (Samples.entry "a" 3 0 0 (Some "X"));
                     Columns.of_entry (Samples.entry "b" 7 0 0 (Some "X"));
                     Columns.of_entry (Samples.entry "c" 1 0 0 (Some "Y"))])
                ([Columns.of_entry (Samples.entry "a" 3 0 0 (Some "X"));
                  Columns.of_entry (Samples.entry "b" 7 0 0 (Some "X"));
                  Columns.of_entry (Samples.entry "c" 1 0 0 (Some "Y"))]
                 ++ [Columns.of_entry (Samples.entry "d" 1 5 0 (Some "Y"))])).
      apply Permutation_app_comm.
    + apply Permutation_refl.
  - intros x y Hx Hy Hg Hp Hk. simpl in Hx, Hy.
    destruct Hx as [<- | [<- | [<- | [<- | []]]]];
      destruct Hy as [<- | [<- | [<- | [<- | []]]]];
      try reflexivity; try discriminate Hg; try discriminate Hp;
      discriminate Hk.
  - reflexivity.
  - simpl. auto.
  - simpl. auto.
Defined.
